(** * Particle-flow GNN model (mlpf/tfmodel/model.py): tensor-level embedding

    Dense tensors are nested lists, outermost axis first.  Floating-point
    scalars are idealised as real numbers ([R]): arithmetic is exact, and
    [ln], [sqrt] and division are the total functions of the standard
    library, so statements say nothing about NaN or infinities.  Integer
    tensors are [nat] (indices, sizes) or [Z] (signed int64 keys).
    TensorFlow operations that raise at run time return [Err]; everything
    else is a total function; element-wise operations on lists of different
    lengths stop at the shorter one, and the statements assume dense shapes.
    Layers are records of their configuration and
    weights together with a [_call] function; operations that act on each
    element slot independently are written once per slot ([_call_elem]) and
    mapped over the batch. *)

From Stdlib Require Import String Ascii.
From Stdlib Require Import Reals Lra Lia List Arith ZArith Bool Permutation Sorted.
From Stdlib Require DecimalString DecimalNat.
Import ListNotations.

Set Implicit Arguments.

(** ** Run-time errors of the tensor operations *)

Inductive tf_error : Type :=
| InvalidReshape      (* tf.reshape: element counts differ *)
| EmptyReduction      (* tf.argmax over an axis of size 0 *)
| IndexOutOfRange     (* tf.gather / tf.scatter_nd index outside the tensor *)
| IncompatibleShapes  (* broadcasting or matmul dimensions do not agree *)
| DivisionByZero.     (* integer floordiv by 0 *)

Inductive result (A : Type) : Type :=
| Ok (a : A)
| Err (e : tf_error).

Arguments Ok {A} a.
Arguments Err {A} e.

Definition bind {A B : Type} (c : result A) (k : A -> result B) : result B :=
  match c with
  | Ok a => k a
  | Err e => Err e
  end.

Notation "x <- c ;; k" := (bind c (fun x => k))
  (at level 61, c at next level, right associativity).

Fixpoint mapM {A B : Type} (f : A -> result B) (l : list A) : result (list B) :=
  match l with
  | [] => Ok []
  | a :: t => b <- f a ;; bs <- mapM f t ;; Ok (b :: bs)
  end.

Definition is_err {A : Type} (c : result A) : Prop := exists e, c = Err e.

(** ** Generic list helpers standing for tensor primitives *)

Section ListTensor.
Variables A B C : Type.

(** Element-wise binary operation on two tensors of the same length. *)
Fixpoint map2 (f : A -> B -> C) (l : list A) (r : list B) : list C :=
  match l, r with
  | a :: l', b :: r' => f a b :: map2 f l' r'
  | _, _ => []
  end.

(** [chunks k m l]: the first [m] consecutive blocks of [k] elements. *)
Fixpoint chunks (k m : nat) (l : list A) : list (list A) :=
  match m with
  | O => []
  | S m' => firstn k l :: chunks k m' (skipn k l)
  end.

(** tf.reshape of a flat buffer to shape (d0, d1). *)
Definition reshape2 (flat : list A) (d0 d1 : nat) : result (list (list A)) :=
  if length flat =? d0 * d1 then Ok (chunks d1 d0 flat) else Err InvalidReshape.

(** tf.reshape of a flat buffer to shape (d0, d1, d2). *)
Definition reshape3 (flat : list A) (d0 d1 d2 : nat)
  : result (list (list (list A))) :=
  if length flat =? d0 * d1 * d2
  then Ok (map (chunks d2 d1) (chunks (d1 * d2) d0 flat))
  else Err InvalidReshape.

(** tf.repeat(l, n): every element repeated [n] times in a row. *)
Definition tf_repeat (l : list A) (n : nat) : list A :=
  flat_map (fun a => repeat a n) l.
End ListTensor.

Abbreviation vec := (list R) (only parsing).
Abbreviation mat := (list (list R)) (only parsing).
Abbreviation tensor3 := (list (list (list R))) (only parsing).
Abbreviation tensor4 := (list (list (list (list R)))) (only parsing).
Abbreviation tensor5 := (list (list (list (list (list R))))) (only parsing).

Local Open Scope R_scope.

(** ** tf.argmax along the last axis: first index of the maximum *)

Fixpoint argmax_from (best_i : nat) (best : R) (i : nat) (l : list R) : nat :=
  match l with
  | [] => best_i
  | x :: t =>
      if Rlt_dec best x then argmax_from i x (S i) t
      else argmax_from best_i best (S i) t
  end.

Definition argmax (l : list R) : result nat :=
  match l with
  | [] => Err EmptyReduction
  | x :: t => Ok (argmax_from 0 x 1 t)
  end.

(** ** tf.argsort (ascending, stable): indices ordered by key *)

(** Equal keys stay in index order, as with tf.argsort, which sorts through
    top_k; an insertion sort on (key, index) pairs. *)

Fixpoint insert_key (k : Z) (i : nat) (l : list (Z * nat)) : list (Z * nat) :=
  match l with
  | [] => [(k, i)]
  | (k', i') :: t =>
      if (k <=? k')%Z then (k, i) :: l else (k', i') :: insert_key k i t
  end.

Definition sort_keys (l : list (Z * nat)) : list (Z * nat) :=
  fold_right (fun p acc => insert_key (fst p) (snd p) acc) [] l.

Definition argsort (v : list Z) : list nat :=
  map snd (sort_keys (combine v (seq 0 (length v)))).

(** ** LSH bin assignment *)

(** model.py, split_indices_to_bins_batch:
    bin_idx = argmax(cmul, -1) + cast(where(~msk, nbins-1, 0), int64);
    bins_split = reshape(argsort(bin_idx), (shape(cmul)[0], nbins, bin_size)). *)
Definition mask_offset (nbins : nat) (m : bool) : Z :=
  if negb m then (Z.of_nat nbins - 1)%Z else 0%Z.

Definition bin_index (nbins : nat) (cmul : tensor3) (msk : list (list bool))
  : result (list (list Z)) :=
  am <- mapM (mapM argmax) cmul ;;
  Ok (map2 (map2 Z.add) (map (map Z.of_nat) am) (map (map (mask_offset nbins)) msk)).

Definition split_indices_to_bins_batch
  (cmul : tensor3) (nbins bin_size : nat) (msk : list (list bool))
  : result (list (list (list nat))) :=
  bin_idx <- bin_index nbins cmul msk ;;
  reshape3 (concat (map argsort bin_idx)) (length cmul) nbins bin_size.

(** ** tf.gather(params, indices, batch_dims=1) and tf.scatter_nd *)

(** Both raise on an index outside the tensor (the CPU kernels); [d] is only
    the default of [nth] and is never read after the bounds check. *)

Definition index_ok {A : Type} (p : list A) (ix : list (list nat)) : bool :=
  forallb (forallb (fun i => (i <? length p)%nat)) ix.

Definition gather {A : Type} (d : A) (params : list (list A))
  (indices : list (list (list nat))) : result (list (list (list A))) :=
  if forallb (fun pi => index_ok (fst pi) (snd pi)) (combine params indices)
  then Ok (map2 (fun p ix => map (map (fun i => nth i p d)) ix) params indices)
  else Err IndexOutOfRange.

Definition vadd (a b : vec) : vec := map2 Rplus a b.

(** [apply_at f i l]: [l] with [f] applied to the element at position [i]. *)
Fixpoint apply_at {A : Type} (f : A -> A) (i : nat) (l : list A) : list A :=
  match l, i with
  | [], _ => []
  | a :: t, O => f a :: t
  | a :: t, S i' => a :: apply_at f i' t
  end.

Definition zeros3 (d0 d1 d2 : nat) : tensor3 := repeat (repeat (repeat 0 d2) d1) d0.

Definition scatter_step (acc : tensor3) (iu : (nat * nat) * vec) : tensor3 :=
  apply_at (apply_at (fun r => vadd r (snd iu)) (snd (fst iu))) (fst (fst iu)) acc.

(** Updates are accumulated into a zero tensor; duplicate indices add up. *)
Definition scatter_nd (indices : list (list (nat * nat))) (updates : tensor3)
  (shape : nat * nat * nat) : result tensor3 :=
  let '(d0, d1, d2) := shape in
  let idx := concat indices in
  if forallb (fun bi => (fst bi <? d0)%nat && (snd bi <? d1)%nat) idx
  then Ok (fold_left scatter_step (combine idx (concat updates)) (zeros3 d0 d1 d2))
  else Err IndexOutOfRange.

(** tf.shape of a rank-4 tensor, read off the leading entries. *)
Definition shape4 {A : Type} (t : list (list (list (list A)))) : nat * nat * nat * nat :=
  (length t, length (hd [] t), length (hd [] (hd [] t)),
   length (hd [] (hd [] (hd [] t)))).

(** model.py, reverse_lsh. *)
Definition reverse_lsh (bins_split : list (list (list nat)))
  (points_binned_enc : tensor4) : result tensor3 :=
  let '(batch_dim, d1, d2, n_features) := shape4 points_binned_enc in
  let n_points := (d1 * d2)%nat in
  bins_split_flat <- reshape2 (concat (concat bins_split)) batch_dim n_points ;;
  points_binned_enc_flat <-
    reshape3 (concat (concat (concat points_binned_enc))) batch_dim n_points n_features ;;
  batch_inds <- reshape2 (tf_repeat (seq 0 batch_dim) n_points) batch_dim n_points ;;
  let bins_split_flat_batch := map2 (map2 pair) batch_inds bins_split_flat in
  scatter_nd bins_split_flat_batch points_binned_enc_flat
    (batch_dim, n_points, n_features).

(** ** Dense layers and feed-forward stacks *)

Record Dense : Type := {
  dense_kernel : mat;          (* input_dim rows of output_dim weights *)
  dense_bias : vec;
  dense_activation : R -> R
}.

Definition vscale (c : R) (v : vec) : vec := map (Rmult c) v.

(** Row vector times matrix: sum_d x[d] * W[d]; the width is that of the bias
    or of the first row. *)
Definition vec_mat (width : nat) (x : vec) (W : mat) : vec :=
  fold_right (fun xw acc => vadd (vscale (fst xw) (snd xw)) acc)
    (repeat 0 width) (combine x W).

(** tf.keras.layers.Dense: activation(x W + b). *)
Definition Dense_call (l : Dense) (x : vec) : vec :=
  map (dense_activation l)
    (vadd (vec_mat (length (dense_bias l)) x (dense_kernel l)) (dense_bias l)).

(** tf.keras.Sequential of the Dense layers built by
    point_wise_feed_forward_network (dropout is the identity at inference). *)
Definition Sequential := list Dense.

Definition Sequential_call (s : Sequential) (x : vec) : vec :=
  fold_left (fun h l => Dense_call l h) s x.

(** ** Pairwise kernels *)

Definition dot (a b : vec) : R := fold_right Rplus 0 (map2 Rmult a b).

(** tf.reduce_sum(tf.square(A), -1) for one row. *)
Definition sqnorm (a : vec) : R := fold_right Rplus 0 (map (fun x => x * x) a).

Definition dist_floor : R := 1e-6.

(** model.py, pairwise_gaussian_dist, on one bin:
    D[i][j] = sqrt(max(na[i] - 2*(A B^T)[i][j] + nb[j], 1e-6)). *)
Definition pair_dist (a b : vec) : R :=
  sqrt (Rmax (sqnorm a - 2 * dot a b + sqnorm b) dist_floor).

Definition pairwise_gaussian_dist_bin (A B : mat) : mat :=
  map (fun a => map (fun b => pair_dist a b) B) A.

Definition pairwise_gaussian_dist (A B : tensor4) : tensor4 :=
  map2 (map2 pairwise_gaussian_dist_bin) A B.

(** tf.clip_by_value(t, lo, hi) = maximum(minimum(t, hi), lo). *)
Definition clip_by_value (t lo hi : R) : R := Rmax (Rmin t hi) lo.

(** model.py, pairwise_learnable_dist: res[i][j] = ffn(A[i] ++ B[j]). *)
Definition pairwise_learnable_dist (A B : tensor4) (ffn : vec -> vec) : tensor5 :=
  map2 (map2 (fun a b => map (fun ai => map (fun bj => ffn (ai ++ bj)) b) a)) A B.

(** The two node-pair kernels of build_kernel_from_conf; activations act
    element-wise. *)
Inductive Kernel : Type :=
| NodePairGaussianKernel (clip_value_low dist_mult : R)
| NodePairTrainableKernel (ffn_kernel : Sequential) (activation : R -> R).

Definition NodePairGaussianKernel_call (clip_value_low dist_mult : R)
  (x_msg_binned : tensor4) : tensor5 :=
  let dm := map (map (map (map (fun d => [d]))))
              (pairwise_gaussian_dist x_msg_binned x_msg_binned) in
  let dm := map (map (map (map (map (fun d => exp (- dist_mult * d)))))) dm in
  map (map (map (map (map (fun d => clip_by_value d clip_value_low 1))))) dm.

Definition NodePairTrainableKernel_call (ffn_kernel : Sequential)
  (activation : R -> R) (x_msg_binned : tensor4) : tensor5 :=
  let dm := pairwise_learnable_dist x_msg_binned x_msg_binned
              (Sequential_call ffn_kernel) in
  map (map (map (map (map activation)))) dm.

Definition Kernel_call (k : Kernel) (x_msg_binned : tensor4) : tensor5 :=
  match k with
  | NodePairGaussianKernel lo mult => NodePairGaussianKernel_call lo mult x_msg_binned
  | NodePairTrainableKernel ffn act => NodePairTrainableKernel_call ffn act x_msg_binned
  end.

(** ** MessageBuildingLayerLSH *)

Record MessageBuildingLayerLSH : Type := {
  distance_dim : nat;
  max_num_bins : nat;
  bin_size : nat;
  kernel : Kernel;
  codebook_random_rotations : mat   (* distance_dim x (max_num_bins / 2) *)
}.

(** tf.math.floordiv on non-negative integers. *)
Definition floordiv (a b : nat) : result nat :=
  if (b =? 0)%nat then Err DivisionByZero else Ok (a / b)%nat.

Definition bool_to_R (b : bool) : R := if b then 1 else 0.

(** einsum("abijk,abi->abijk", dm, m) *)
Definition mask_rows (dm : tensor5) (m : tensor3) : tensor5 :=
  map2 (map2 (map2 (fun row mi => map (map (fun x => x * mi)) row))) dm m.

(** einsum("abijk,abj->abijk", dm, m) *)
Definition mask_cols (dm : tensor5) (m : tensor3) : tensor5 :=
  map2 (map2 (fun dmb mb => map (fun row => map2 (fun e mj => map (fun x => x * mj) e) row mb) dmb))
    dm m.

(** tf.squeeze(t, axis=-1) on a tensor whose last axis has size 1. *)
Definition squeeze_last (t : tensor4) : tensor3 := map (map (map (fun v => hd 0 v))) t.

(** MessageBuildingLayerLSH.call: n_bins = n_points // bin_size, hash codes
    cmul = [mul, -mul] from the first n_bins // 2 columns of the codebook,
    bin assignment, gathers, kernel, and the two maskings of dm. *)
Definition MessageBuildingLayerLSH_call (self : MessageBuildingLayerLSH)
  (x_msg x_node : tensor3) (msk : list (list bool))
  : result (list (list (list nat)) * tensor4 * tensor5 * tensor4) :=
  let msk_f := map (map (fun b => [bool_to_R b])) msk in
  let n_points := length (hd [] x_msg) in
  n_bins <- floordiv n_points (bin_size self) ;;
  let cols := (n_bins / 2)%nat in
  let rot := map (firstn cols) (codebook_random_rotations self) in
  let width := length (hd [] rot) in
  let mul := map (map (fun x => vec_mat width x rot)) x_msg in
  let cmul := map (map (fun v => v ++ map Ropp v)) mul in
  bins_split <- split_indices_to_bins_batch cmul n_bins (bin_size self) msk ;;
  x_msg_binned <- gather [] x_msg bins_split ;;
  x_features_binned <- gather [] x_node bins_split ;;
  msk_f_binned <- gather [] msk_f bins_split ;;
  let dm := Kernel_call (kernel self) x_msg_binned in
  let dm := mask_rows dm (squeeze_last msk_f_binned) in
  let dm := mask_cols dm (squeeze_last msk_f_binned) in
  Ok (bins_split, x_features_binned, dm, msk_f_binned).

(** ** Input encodings *)

(** tf.cast(x, tf.int32): truncation towards zero. *)
Definition trunc (x : R) : Z :=
  if Rle_dec 0 x then Int_part x else (- Int_part (- x))%Z.

Definition one_hot (i : Z) (depth : nat) : vec :=
  map (fun c => if (Z.of_nat c =? i)%Z then 1 else 0) (seq 0 depth).

(** InputEncoding.call on one element: one-hot of X[0] followed by X[1:]. *)
Definition InputEncoding_call_elem (num_input_classes : nat) (X : vec) : result vec :=
  if (length X <? 1)%nat then Err IndexOutOfRange
  else Ok (one_hot (trunc (nth 0 X 0)) num_input_classes ++ tl X).

(** The log(x + 1) transform applied to energy (and pt) by InputEncodingCMS. *)
Definition log_plus_one (x : R) : R := ln (x + 1).

(** InputEncodingCMS.call on one element (features 0..12 are read). *)
Definition InputEncodingCMS_call_elem (num_input_classes : nat) (X : vec) : result vec :=
  if (length X <? 13)%nat then Err IndexOutOfRange
  else
    let f k := nth k X 0 in
    let log_energy := log_plus_one (f 4%nat) in
    let Xid := one_hot (trunc (f 0%nat)) num_input_classes in
    let Xpt := log_plus_one (f 1%nat) in
    let Xpt_0p5 := sqrt Xpt in
    let Xpt_2 := Xpt ^ 2 in
    let Xeta1 := clip_by_value (sinh (f 2%nat)) (-10) 10 in
    let Xeta2 := clip_by_value (cosh (f 2%nat)) (-10) 10 in
    let Xabs_eta := Rabs (f 2%nat) in
    let Xphi1 := sin (f 3%nat) in
    let Xphi2 := cos (f 3%nat) in
    let Xe := log_energy in
    let Xe_0p5 := sqrt log_energy in
    let Xe_2 := log_energy ^ 2 in
    let Xe_transverse := log_energy - ln Xeta2 in
    let Xlayer := f 5%nat * 10 in
    let Xdepth := f 6%nat * 10 in
    let Xphi_ecal1 := sin (f 10%nat) in
    let Xphi_ecal2 := cos (f 10%nat) in
    let Xphi_hcal1 := sin (f 12%nat) in
    let Xphi_hcal2 := cos (f 12%nat) in
    Ok (Xid ++
        [Xpt; Xpt_0p5; Xpt_2; Xeta1; Xeta2; Xabs_eta; Xphi1; Xphi2;
         Xe; Xe_0p5; Xe_2; Xe_transverse; Xlayer; Xdepth;
         Xphi_ecal1; Xphi_ecal2; Xphi_hcal1; Xphi_hcal2] ++ X).

Inductive InputEncoder : Type :=
| InputEncodingCMS (num_input_classes : nat)
| InputEncoding (num_input_classes : nat).

Definition InputEncoder_call (enc : InputEncoder) (X : tensor3) : result tensor3 :=
  match enc with
  | InputEncodingCMS c => mapM (mapM (InputEncodingCMS_call_elem c)) X
  | InputEncoding c => mapM (mapM (InputEncoding_call_elem c)) X
  end.

(** ** Layer normalisation over the last axis *)

Record LayerNormalization : Type := {
  ln_gamma : vec;
  ln_beta : vec;
  ln_epsilon : R
}.

Definition rsum (v : vec) : R := fold_right Rplus 0 v.

Definition LayerNormalization_call (l : LayerNormalization) (x : vec) : vec :=
  let n := INR (length x) in
  let mean := rsum x / n in
  let var := rsum (map (fun v => (v - mean) ^ 2) x) / n in
  let normed := map (fun v => (v - mean) / sqrt (var + ln_epsilon l)) x in
  vadd (map2 Rmult normed (ln_gamma l)) (ln_beta l).

(** ** Output decoding *)

Inductive Schema : Type := cms | delphes.

Record OutputDecoding : Type := {
  regression_use_classification : bool;
  schema : Schema;
  pt_skip_gate : bool;
  eta_skip_gate : bool;
  phi_skip_gate : bool;
  energy_skip_gate : bool;
  mask_reg_cls0 : bool;
  do_layernorm : bool;
  layernorm : LayerNormalization;
  ffn_id : Sequential;       (* width num_output_classes *)
  ffn_charge : Sequential;   (* width 1 *)
  ffn_pt : Sequential;       (* width 2 *)
  ffn_eta : Sequential;      (* width 2 *)
  ffn_phi : Sequential;      (* width 4 *)
  ffn_energy : Sequential;   (* width 4 *)
  classwise_energy_means : vec;
  classwise_energy_stds : vec
}.

Definition softmax (z : vec) : vec :=
  let s := rsum (map exp z) in map (fun x => exp x / s) z.

Definition sigmoid (x : R) : R := 1 / (1 + exp (- x)).

(** pred_energy = exp(clip(pred_log_energy, -6, 6)) - 1.0 *)
Definition energy_from_log (pred_log_energy : R) : R :=
  exp (clip_by_value pred_log_energy (-6) 6) - 1.

(** X_encoded after the optional layer normalisation. *)
Definition normed_encoding (self : OutputDecoding) (X_encoded : vec) : vec :=
  if do_layernorm self then LayerNormalization_call (layernorm self) X_encoded
  else X_encoded.

(** out_id_logits = ffn_id(X_encoded) * msk_input *)
Definition id_logits (self : OutputDecoding) (X_encoded : vec) (msk_input : R) : vec :=
  map (fun v => v * msk_input) (Sequential_call (ffn_id self) X_encoded).

(** out_id_hard_softmax = clip(softmax(100 * out_id_logits), 0, 1) *)
Definition hard_softmax (logits : vec) : vec :=
  map (fun p => clip_by_value p 0 1) (softmax (map (Rmult 100) logits)).

(** The hard-argmax predicted class of an element. *)
Definition hard_class (self : OutputDecoding) (X_encoded : vec) (msk_input : R)
  : result nat :=
  argmax (hard_softmax (id_logits self (normed_encoding self X_encoded) msk_input)).

(** The seven heads at one element slot; the six regression heads have
    width 1 and are kept as scalars. *)
Record ElemHeads : Type := {
  e_cls : vec;
  e_charge : R;
  e_pt : R;
  e_eta : R;
  e_sin_phi : R;
  e_cos_phi : R;
  e_energy : R
}.

(** OutputDecoding.call at one element slot.  [msk_input] is the slot's
    entry of the (batch, elements, 1) float mask; [v[k:k+1]] slices are the
    scalars [nth k v 0]. *)
Definition OutputDecoding_call_elem (self : OutputDecoding)
  (X_input X_encoded X_encoded_energy : vec) (msk_input : R) : result ElemHeads :=
  let X_encoded := normed_encoding self X_encoded in
  let out_id_logits := id_logits self X_encoded msk_input in
  let out_id_softmax := map (fun p => clip_by_value p 0 1) (softmax out_id_logits) in
  let out_id_hard_softmax := hard_softmax out_id_logits in
  let out_charge := nth 0 (Sequential_call (ffn_charge self) X_encoded) 0 * msk_input in
  let orig_eta := nth 2 X_input 0 in
  let '(orig_sin_phi, orig_cos_phi, orig_log_energy) :=
    match schema self with
    | cms => (sin (nth 3 X_input 0) * msk_input,
              cos (nth 3 X_input 0) * msk_input,
              log_plus_one (nth 4 X_input 0) * msk_input)
    | delphes => (nth 3 X_input 0 * msk_input,
                  nth 4 X_input 0 * msk_input,
                  log_plus_one (nth 5 X_input 0) * msk_input)
    end in
  let X_encoded :=
    if regression_use_classification self then X_encoded ++ out_id_logits
    else X_encoded in
  let pred_eta_corr :=
    map (fun v => v * msk_input) (Sequential_call (ffn_eta self) X_encoded) in
  let pred_phi_corr :=
    map (fun v => v * msk_input) (Sequential_call (ffn_phi self) X_encoded) in
  let pred_eta :=
    if eta_skip_gate self then orig_eta + nth 1 pred_eta_corr 0
    else orig_eta * nth 0 pred_eta_corr 0 + nth 1 pred_eta_corr 0 in
  let pred_sin_phi :=
    if phi_skip_gate self then orig_sin_phi + nth 1 pred_phi_corr 0
    else orig_sin_phi * nth 0 pred_phi_corr 0 + nth 1 pred_phi_corr 0 in
  let pred_cos_phi :=
    if phi_skip_gate self then orig_cos_phi + nth 3 pred_phi_corr 0
    else orig_cos_phi * nth 2 pred_phi_corr 0 + nth 3 pred_phi_corr 0 in
  let X_encoded_energy :=
    if regression_use_classification self then X_encoded_energy ++ out_id_logits
    else X_encoded_energy in
  let pred_energy_corr :=
    map (fun v => v * msk_input) (Sequential_call (ffn_energy self) X_encoded_energy) in
  let pred_pt_corr :=
    map (fun v => v * msk_input) (Sequential_call (ffn_pt self) X_encoded_energy) in
  let pred_log_energy :=
    if energy_skip_gate self then
      let energy_gate := sigmoid (nth 0 pred_energy_corr 0) in
      let energy_corr := energy_gate * nth 1 pred_energy_corr 0 in
      orig_log_energy + energy_corr
    else
      let p := nth 0 pred_energy_corr 0
               + nth 1 pred_energy_corr 0 * orig_log_energy
               + nth 2 pred_energy_corr 0 * orig_log_energy * orig_log_energy
               + nth 3 pred_energy_corr 0 * sqrt orig_log_energy in
      let p := p - rsum (map2 Rmult out_id_hard_softmax (classwise_energy_means self)) in
      p / rsum (map2 Rmult out_id_hard_softmax (classwise_energy_stds self)) in
  let pred_energy := energy_from_log pred_log_energy in
  let orig_pt := pred_energy / cosh (clip_by_value pred_eta (-8) 8) in
  let orig_log_pt := ln (orig_pt + 1) in
  let pred_log_pt :=
    if pt_skip_gate self then
      orig_log_pt + sigmoid (nth 0 pred_pt_corr 0) * nth 1 pred_pt_corr 0
    else orig_log_pt * nth 0 pred_pt_corr 0 + nth 1 pred_pt_corr 0 in
  msk_output <-
    (if mask_reg_cls0 self then
       c <- argmax out_id_hard_softmax ;;
       Ok (if (c =? 0)%nat then 0 else 1)
     else Ok 1) ;;
  Ok {| e_cls := out_id_softmax;
        e_charge := out_charge * msk_output * msk_input;
        e_pt := pred_log_pt * msk_output * msk_input;
        e_eta := pred_eta * msk_output * msk_input;
        e_sin_phi := pred_sin_phi * msk_output * msk_input;
        e_cos_phi := pred_cos_phi * msk_output * msk_input;
        e_energy := pred_log_energy * msk_output * msk_input |}.

Fixpoint map4 {A B C D E : Type} (f : A -> B -> C -> D -> E)
  (la : list A) (lb : list B) (lc : list C) (ld : list D) : list E :=
  match la, lb, lc, ld with
  | a :: la', b :: lb', c :: lc', d :: ld' => f a b c d :: map4 f la' lb' lc' ld'
  | _, _, _, _ => []
  end.

(** The dictionary returned by OutputDecoding.call. *)
Record Heads : Type := {
  cls : tensor3;
  charge : tensor3;
  pt : tensor3;
  eta : tensor3;
  sin_phi : tensor3;
  cos_phi : tensor3;
  energy : tensor3
}.

Definition OutputDecoding_call (self : OutputDecoding)
  (X_input X_encoded X_encoded_energy msk_input : tensor3) : result Heads :=
  rows <- mapM (mapM (fun r => r))
            (map4 (map4 (fun xi xe xee m =>
                           OutputDecoding_call_elem self xi xe xee (hd 0 m)))
               X_input X_encoded X_encoded_energy msk_input) ;;
  let head (p : ElemHeads -> R) := map (map (fun h => [p h])) rows in
  Ok {| cls := map (map e_cls) rows;
        charge := head e_charge;
        pt := head e_pt;
        eta := head e_eta;
        sin_phi := head e_sin_phi;
        cos_phi := head e_cos_phi;
        energy := head e_energy |}.

(** ** Combined graph layer and the full model *)

(** A message-passing layer (GHConvDense or NodeMessageLearnable) as a
    callable on (x_binned, dm, msk_binned). *)
Definition MessageLayer : Type := tensor4 -> tensor5 -> tensor4 -> result tensor4.

Record CombinedGraphLayer : Type := {
  cg_do_layernorm : bool;
  cg_layernorm : LayerNormalization;
  cg_activation : R -> R;
  ffn_dist : Sequential;
  message_building_layer : MessageBuildingLayerLSH;
  message_passing_layers : list MessageLayer
}.

Record CombinedGraphOutput : Type := {
  out_enc : tensor3;
  out_dist : tensor3;
  out_bins : list (list (list nat));
  out_dm : tensor5
}.

Fixpoint run_messages (layers : list MessageLayer) (x_binned : tensor4)
  (dm : tensor5) (msk_binned : tensor4) : result tensor4 :=
  match layers with
  | [] => Ok x_binned
  | msg :: rest =>
      x' <- msg x_binned dm msk_binned ;; run_messages rest x' dm msk_binned
  end.

Definition CombinedGraphLayer_call (self : CombinedGraphLayer)
  (x : tensor3) (msk : list (list bool)) : result CombinedGraphOutput :=
  let x :=
    if cg_do_layernorm self
    then map (map (LayerNormalization_call (cg_layernorm self))) x else x in
  let x_dist :=
    map (map (fun r => map (cg_activation self) (Sequential_call (ffn_dist self) r))) x in
  r <- MessageBuildingLayerLSH_call (message_building_layer self) x_dist x msk ;;
  let '(bins_split, x_binned, dm, msk_binned) := r in
  x_binned <- run_messages (message_passing_layers self) x_binned dm msk_binned ;;
  x_enc <- reverse_lsh bins_split x_binned ;;
  Ok {| out_enc := x_enc; out_dist := x_dist; out_bins := bins_split; out_dm := dm |}.

Record PFNetDense : Type := {
  multi_output : bool;
  skip_connection : bool;
  enc : InputEncoder;
  cg : list CombinedGraphLayer;
  cg_energy : list CombinedGraphLayer;
  output_dec : OutputDecoding
}.

Fixpoint run_tower (layers : list CombinedGraphLayer) (enc_cg : tensor3)
  (msk : list (list bool)) : result (list tensor3) :=
  match layers with
  | [] => Ok []
  | l :: rest =>
      enc_all <- CombinedGraphLayer_call l enc_cg msk ;;
      encs <- run_tower rest (out_enc enc_all) msk ;;
      Ok (out_enc enc_all :: encs)
  end.

(** tf.concat(ts, axis=-1); an empty list of tensors is an error. *)
Definition concat_last (ts : list tensor3) : result tensor3 :=
  match ts with
  | [] => Err IncompatibleShapes
  | t :: rest => Ok (fold_left (map2 (map2 (@app R))) rest t)
  end.

(** t * msk_input with msk_input of shape (batch, elements, 1). *)
Definition mul_mask (t msk_input : tensor3) : tensor3 :=
  map2 (map2 (fun row m => map (fun v => v * hd 0 m) row)) t msk_input.

Inductive PFNetOutput : Type :=
| MultiOutput (ret : Heads)
| SingleOutput (t : tensor3).

(** msk = X[:, :, 0] != 0 *)
Definition padding_mask (X : tensor3) : list (list bool) :=
  map (map (fun row => if Req_dec_T (nth 0 row 0) 0 then false else true)) X.

Definition PFNetDense_call (self : PFNetDense) (X : tensor3) : result PFNetOutput :=
  let msk := padding_mask X in
  let msk_input := map (map (fun b => [bool_to_R b])) msk in
  enc0 <- InputEncoder_call (enc self) X ;;
  encs <- run_tower (cg self) enc0 msk ;;
  let dec_input := (if skip_connection self then [enc0] else []) ++ encs in
  dec_cat <- concat_last dec_input ;;
  let dec_output := mul_mask dec_cat msk_input in
  encs_energy <- run_tower (cg_energy self) enc0 msk ;;
  energy_cat <- concat_last encs_energy ;;
  let dec_output_energy := mul_mask energy_cat msk_input in
  ret <- OutputDecoding_call (output_dec self) X dec_output dec_output_energy msk_input ;;
  if multi_output self then Ok (MultiOutput ret)
  else
    t <- concat_last [cls ret; charge ret; pt ret; eta ret;
                      sin_phi ret; cos_phi ret; energy ret] ;;
    Ok (SingleOutput t).

(** ** Trainable flags of the Keras layer tree *)

#[warnings="-register-all"]
Inductive Layer : Type :=
| mkLayer (name : String.string) (trainable : bool)
    (weights : list (String.string * bool)) (sublayers : list Layer).

Definition layer_name (l : Layer) : String.string :=
  match l with mkLayer n _ _ _ => n end.

Definition layer_trainable (l : Layer) : bool :=
  match l with mkLayer _ t _ _ => t end.

Definition layers (l : Layer) : list Layer :=
  match l with mkLayer _ _ _ s => s end.

Definition with_layers (l : Layer) (s : list Layer) : Layer :=
  match l with mkLayer n t w _ => mkLayer n t w s end.

(** Assigning [layer.trainable = v] also assigns it on every nested layer. *)
Fixpoint set_trainable (v : bool) (l : Layer) : Layer :=
  match l with
  | mkLayer n _ w s => mkLayer n v w (map (set_trainable v) s)
  end.

(** Names of the weights collected by [trainable_variables]. *)
Fixpoint trainable_variables (l : Layer) : list String.string :=
  match l with
  | mkLayer _ t w s =>
      if t then map fst (filter snd w) ++ flat_map trainable_variables s
      else []
  end.

Inductive py_error : Type :=
| ValueError       (* get_layer: no such layer *)
| AttributeError.  (* getattr: no such attribute *)

(** self.get_layer(name).trainable = True on the first layer of that name. *)
Fixpoint enable_layer (name : String.string) (ls : list Layer)
  : py_error + list Layer :=
  match ls with
  | [] => inl ValueError
  | l :: rest =>
      if String.eqb (layer_name l) name then inr (set_trainable true l :: rest)
      else match enable_layer name rest with
           | inl e => inl e
           | inr rest' => inr (l :: rest')
           end
  end.

(** getattr(self, name).trainable = True on a weight of the model. *)
Fixpoint enable_weight (name : String.string) (w : list (String.string * bool))
  : py_error + list (String.string * bool) :=
  match w with
  | [] => inl AttributeError
  | (n, t) :: rest =>
      if String.eqb n name then inr ((n, true) :: rest)
      else match enable_weight name rest with
           | inl e => inl e
           | inr rest' => inr ((n, t) :: rest')
           end
  end.

Definition set_named_step (layer_names : list String.string)
  (acc : py_error + Layer) (layer : String.string) : py_error + Layer :=
  match acc with
  | inl e => inl e
  | inr self =>
      if existsb (String.eqb layer) layer_names then
        match enable_layer layer (layers self) with
        | inl e => inl e
        | inr ls => inr (with_layers self ls)
        end
      else
        match self with
        | mkLayer n t w s =>
            match enable_weight layer w with
            | inl e => inl e
            | inr w' => inr (mkLayer n t w' s)
            end
        end
  end.

(** OutputDecoding.set_trainable_named: the parameter [layer_names] is
    rebound to the names of all sublayers before the loop reads it. *)
Definition OutputDecoding_set_trainable_named (self : Layer)
  (layer_names : list String.string) : py_error + Layer :=
  let self := set_trainable true self in
  let self := with_layers self (map (set_trainable false) (layers self)) in
  let layer_names := map layer_name (layers self) in
  fold_left (set_named_step layer_names) layer_names (inr self).

(** The layer tree of a PFNetDense model: encoder and graph layers, and the
    output decoder. *)
Record PFNetLayers : Type := {
  pf_trainable : bool;
  pf_graph_layers : list Layer;
  pf_output_dec : Layer
}.

Definition PFNetDense_set_trainable_named (self : PFNetLayers)
  (layer_names : list String.string) : py_error + PFNetLayers :=
  let graph := map (set_trainable true) (pf_graph_layers self) in
  let dec := set_trainable true (pf_output_dec self) in
  let graph := map (set_trainable false) graph in
  let dec := set_trainable false dec in
  match OutputDecoding_set_trainable_named dec layer_names with
  | inl e => inl e
  | inr dec' =>
      inr {| pf_trainable := true; pf_graph_layers := graph; pf_output_dec := dec' |}
  end.

Definition PFNetDense_trainable_variables (self : PFNetLayers) : list String.string :=
  if pf_trainable self
  then flat_map trainable_variables (pf_graph_layers self)
       ++ trainable_variables (pf_output_dec self)
  else [].

(** A feed-forward stack of [n] hidden Dense layers and the output layer,
    named as point_wise_feed_forward_network names them. *)
Definition dense_layer (name : String.string) : Layer :=
  mkLayer name true
    [(String.append name "/kernel"%string, true); (String.append name "/bias"%string, true)] [].

Definition digit (i : nat) : String.string :=
  String.String (Ascii.ascii_of_nat (48 + i)) String.EmptyString.

Definition ffn_layer (name : String.string) (num_layers : nat) : Layer :=
  mkLayer name true []
    (map (fun i => dense_layer (String.append name (String.append "_dense_"%string (digit i))))
       (seq 0 (S num_layers))).

(** The sublayers created by OutputDecoding.__init__ with its defaults. *)
Definition output_decoding_layers : Layer :=
  mkLayer "output_decoding"%string true []
    [ffn_layer "ffn_cls"%string 4; ffn_layer "ffn_charge"%string 2; ffn_layer "ffn_pt"%string 3;
     ffn_layer "ffn_eta"%string 3; ffn_layer "ffn_phi"%string 3; ffn_layer "ffn_energy"%string 3].

(** ** Shapes through GHConvDense.call *)

Definition shape := list nat.

(** tf.squeeze(t) without axis: every dimension of size 1 is removed. *)
Definition squeeze (s : shape) : shape := filter (fun d => negb (d =? 1)%nat) s.

(** NumPy-style broadcasting, on reversed shapes (innermost axis first). *)
Fixpoint broadcast_rev (a b : list nat) : result (list nat) :=
  match a, b with
  | [], _ => Ok b
  | _, [] => Ok a
  | x :: a', y :: b' =>
      r <- broadcast_rev a' b' ;;
      if (x =? y)%nat then Ok (x :: r)
      else if (x =? 1)%nat then Ok (y :: r)
      else if (y =? 1)%nat then Ok (x :: r)
      else Err IncompatibleShapes
  end.

Definition broadcast (a b : shape) : result shape :=
  r <- broadcast_rev (rev a) (rev b) ;; Ok (rev r).

(** tf.reduce_sum(t, axis=-1). *)
Definition reduce_last (s : shape) : result shape :=
  match s with
  | [] => Err IncompatibleShapes
  | _ => Ok (removelast s)
  end.

(** tf.expand_dims(t, -1). *)
Definition expand_last (s : shape) : shape := s ++ [1%nat].

(** tf.linalg.matmul: the two innermost axes are multiplied, the leading
    (batch) axes are broadcast. *)
Definition matmul_shape (a b : shape) : result shape :=
  match rev a, rev b with
  | k :: m :: ba, n :: k' :: bb =>
      if (k =? k')%nat
      then r <- broadcast_rev ba bb ;; Ok (rev r ++ [m; n])
      else Err IncompatibleShapes
  | _, _ => Err IncompatibleShapes
  end.

Record GHConvDense : Type := {
  hidden_dim : nat;
  output_dim : nat;
  normalize_degrees : bool
}.

(** GHConvDense.call on the shapes of (x, adj, msk); activations, sigmoid,
    abs, clip and pow keep the shape. *)
Definition GHConvDense_call_shape (self : GHConvDense) (x adj msk : shape)
  : result shape :=
  let W := [hidden_dim self; output_dim self] in
  let adj := squeeze adj in
  norm <-
    (if normalize_degrees self then
       in_degrees <- reduce_last adj ;;
       broadcast (expand_last in_degrees) msk
     else Ok []) ;;
  xm <- broadcast x msk ;;
  t <- matmul_shape xm W ;;
  f_hom <- broadcast t msk ;;
  f_hom <-
    (if normalize_degrees self then
       fn <- broadcast f_hom norm ;;
       t <- matmul_shape adj fn ;;
       broadcast t norm
     else matmul_shape adj f_hom) ;;
  f_het <- matmul_shape xm W ;;
  t <- matmul_shape x W ;;
  gate <- broadcast t [output_dim self] ;;
  gf <- broadcast gate f_hom ;;
  gh <- broadcast gate f_het ;;
  out <- broadcast gf gh ;;
  broadcast out msk.

(* ================================================================= *)
(** * Vocabulary of the statements *)

(** Dense-tensor shapes of nested lists. *)
Definition has_shape2 {A : Type} (d0 d1 : nat) (t : list (list A)) : Prop :=
  length t = d0 /\ Forall (fun r => length r = d1) t.

Definition has_shape3 {A : Type} (d0 d1 d2 : nat) (t : list (list (list A))) : Prop :=
  length t = d0 /\ Forall (has_shape2 d1 d2) t.

Definition has_shape4 {A : Type} (d0 d1 d2 d3 : nat)
  (t : list (list (list (list A)))) : Prop :=
  length t = d0 /\ Forall (has_shape3 d1 d2 d3) t.

(** Every row has at least one entry, so that argmax is defined. *)
Definition rows_nonempty (cmul : tensor3) : Prop :=
  Forall (Forall (fun row : vec => row <> [])) cmul.

(** Entry [b][i] of a (batch, elements, ...) nested list, when present. *)
Definition slot {A : Type} (t : list (list A)) (b i : nat) : option A :=
  match nth_error t b with
  | Some ev => nth_error ev i
  | None => None
  end.

Definition entry3 (t : tensor3) (a b i : nat) : R :=
  nth i (nth b (nth a t []) []) 0.

(** Entries of rank-5 and rank-3 tensors, 0 outside the tensor. *)
Definition entry5 (t : tensor5) (a b i j k : nat) : R :=
  nth k (nth j (nth i (nth b (nth a t []) []) []) []) 0.

(** Entry [a][b][i][j] of a rank-4 nested list. *)
Definition nth4 {T : Type} (t : list (list (list (list T)))) (a b i j : nat) (d : T) : T :=
  nth j (nth i (nth b (nth a t []) []) []) d.

(** Per-event view of the accumulation done by [scatter_nd]. *)
Definition scatter_event (idx : list nat) (upd : mat) (acc : mat) : mat :=
  fold_left (fun a iu => apply_at (fun r => vadd r (snd iu)) (fst iu) a)
    (combine idx upd) acc.

(** Order on (key, index) pairs used by the sort. *)
Definition key_le (p q : Z * nat) : Prop := (fst p <= fst q)%Z.

(** Real elements have keys below nbins - 1, padding elements at or above. *)
Definition keys_separate (nbins : nat) (m : list bool) (v : list Z) : Prop :=
  length v = length m /\
  forall i, (i < length m)%nat ->
    if nth i m false then (nth i v 0 < Z.of_nat nbins - 1)%Z
    else (Z.of_nat nbins - 1 <= nth i v 0)%Z.

(** In the order [flat], no padding element precedes a real element. *)
Definition padding_last (m : list bool) (flat : list nat) : Prop :=
  StronglySorted (fun i j => nth i m false = false -> nth j m false = false) flat.

(** The bin holds both a real element and a padding element of the event
    with mask [m]. *)
Definition bin_is_mixed (m : list bool) (bin : list nat) : Prop :=
  exists i j, In i bin /\ In j bin /\ nth i m false = true /\ nth j m false = false.

(** No bin of any event mixes real and padding elements. *)
Definition padding_isolated (msk : list (list bool))
  (bins : list (list (list nat))) : Prop :=
  Forall2 (fun m ev => Forall (fun bin => ~ bin_is_mixed m bin) ev) msk bins.

(** Slot [i] of bin [b] in event [a] holds a padding element. *)
Definition slot_is_padding (msk : list (list bool))
  (bins : list (list (list nat))) (a b i : nat) : Prop :=
  exists m ev bin e,
    nth_error msk a = Some m /\ nth_error bins a = Some ev /\
    nth_error ev b = Some bin /\ nth_error bin i = Some e /\
    nth_error m e = Some false.

(** The Gaussian affinity of one pair of rows. *)
Definition gauss_pair (clip_value_low dist_mult : R) (a b : vec) : R :=
  clip_by_value (exp (- dist_mult * pair_dist a b)) clip_value_low 1.

(** All six regression heads of a slot are zero. *)
Definition regression_zero (h : ElemHeads) : Prop :=
  e_charge h = 0 /\ e_pt h = 0 /\ e_eta h = 0 /\
  e_sin_phi h = 0 /\ e_cos_phi h = 0 /\ e_energy h = 0.

(** The seven heads of a slot: the six regression heads are [0] and the
    class probabilities are uniform. *)
Definition padded_heads (ret : Heads) (b i : nat) : Prop :=
  (forall v, slot (charge ret) b i = Some v -> v = [0]) /\
  (forall v, slot (pt ret) b i = Some v -> v = [0]) /\
  (forall v, slot (eta ret) b i = Some v -> v = [0]) /\
  (forall v, slot (sin_phi ret) b i = Some v -> v = [0]) /\
  (forall v, slot (cos_phi ret) b i = Some v -> v = [0]) /\
  (forall v, slot (energy ret) b i = Some v -> v = [0]) /\
  (forall v, slot (cls ret) b i = Some v ->
             v = repeat (/ INR (length v)) (length v)).

(* ================================================================= *)
(** * Concrete instances *)

(** A layer with bins of two elements. *)
Definition lsh_example : MessageBuildingLayerLSH :=
  {| distance_dim := 1; max_num_bins := 4; bin_size := 2;
     kernel := NodePairGaussianKernel 0 (1 / 10);
     codebook_random_rotations := [[1; 1]] |}.

(** One event of a real element followed by a padding slot, in bins of one. *)
Definition lsh_unit_bins : MessageBuildingLayerLSH :=
  {| distance_dim := 1; max_num_bins := 4; bin_size := 1;
     kernel := NodePairGaussianKernel 0 (1 / 10);
     codebook_random_rotations := [[1; 1]] |}.

(** One event with one real element followed by five padding slots, two
    hash codes per element, to be split into three bins of two. *)
Definition cmul_example : tensor3 :=
  [[[1; 0]; [1; 0]; [1; 0]; [1; 0]; [1; 0]; [1; 0]]].

Definition msk_example : list (list bool) :=
  [[true; false; false; false; false; false]].

(** A Dense layer with the identity activation. *)
Definition linear (W : mat) (b : vec) : Dense :=
  {| dense_kernel := W; dense_bias := b; dense_activation := fun x => x |}.

(** Two classes; encodings of width 1; class 0 wins on positive encodings. *)
Definition dec_example : OutputDecoding :=
  {| regression_use_classification := false;
     schema := cms;
     pt_skip_gate := true;
     eta_skip_gate := true;
     phi_skip_gate := true;
     energy_skip_gate := true;
     mask_reg_cls0 := true;
     do_layernorm := false;
     layernorm := {| ln_gamma := [1]; ln_beta := [0]; ln_epsilon := 0.001 |};
     ffn_id := [linear [[1; 0]] [0; 0]];
     ffn_charge := [linear [[1]] [0]];
     ffn_pt := [linear [[1; 1]] [0; 0]];
     ffn_eta := [linear [[1; 1]] [0; 0]];
     ffn_phi := [linear [[1; 1; 1; 1]] [0; 0; 0; 0]];
     ffn_energy := [linear [[1; 1; 1; 1]] [0; 0; 0; 0]];
     classwise_energy_means := [0; 0];
     classwise_energy_stds := [1; 1] |}.

(** One raw CMS feature row (13 features). *)
Definition raw_example : vec := [1; 2; 3; 4; 5; 6; 7; 8; 9; 10; 11; 12; 13].

(** One graph layer without message passing, on encodings of width 5. *)
Definition cg_example : CombinedGraphLayer :=
  {| cg_do_layernorm := false;
     cg_layernorm := {| ln_gamma := []; ln_beta := []; ln_epsilon := 1e-6 |};
     cg_activation := fun x => x;
     ffn_dist := [linear [[0]; [0]; [0]; [0]; [0]] [1]];
     message_building_layer := lsh_unit_bins;
     message_passing_layers := [] |}.

(** A decoder for encodings of width 5 and two classes. *)
Definition pfnet_decoder : OutputDecoding :=
  {| regression_use_classification := false;
     schema := cms;
     pt_skip_gate := true;
     eta_skip_gate := true;
     phi_skip_gate := true;
     energy_skip_gate := true;
     mask_reg_cls0 := true;
     do_layernorm := false;
     layernorm := {| ln_gamma := []; ln_beta := []; ln_epsilon := 0.001 |};
     ffn_id := [linear (repeat [1; 0] 5) [0; 0]];
     ffn_charge := [linear (repeat [1] 5) [0]];
     ffn_pt := [linear (repeat [1; 1] 5) [0; 0]];
     ffn_eta := [linear (repeat [1; 1] 5) [0; 0]];
     ffn_phi := [linear (repeat [1; 1; 1; 1] 5) [0; 0; 0; 0]];
     ffn_energy := [linear (repeat [1; 1; 1; 1] 5) [0; 0; 0; 0]];
     classwise_energy_means := [0; 0];
     classwise_energy_stds := [1; 1] |}.

(** A model with an empty common tower and one energy graph layer. *)
Definition pfnet_example : PFNetDense :=
  {| multi_output := true;
     skip_connection := true;
     enc := InputEncoding 1;
     cg := [];
     cg_energy := [cg_example];
     output_dec := pfnet_decoder |}.

(** One event: a real element and a padded slot. *)
Definition X_example : tensor3 := [[[1; 2; 3; 4; 5]; [0; 0; 0; 0; 0]]].

(** The layer tree of a model with one graph layer per tower. *)
Definition pfnet_layers : PFNetLayers :=
  {| pf_trainable := true;
     pf_graph_layers :=
       [mkLayer "input_encoding_cms"%string true [] [];
        mkLayer "cg_0"%string true [("cg_0/lsh_projections"%string, false)] [ffn_layer "cg_0_ffn_dist"%string 2];
        mkLayer "cg_energy_0"%string true [("cg_energy_0/lsh_projections"%string, false)]
          [ffn_layer "cg_energy_0_ffn_dist"%string 2]];
     pf_output_dec := output_decoding_layers |}.

(* ================================================================= *)
(** * Further components *)

(** ** Single-event bin assignment *)

(** model.py, split_indices_to_bins, on one event [cmul] of shape
    (n_points, n_codes):
    bin_idx = argmax(cmul, -1);
    bins_split = reshape(argsort(bin_idx), (nbins, bin_size)). *)
Definition split_indices_to_bins (cmul : mat) (nbins bin_size : nat)
  : result (list (list nat)) :=
  bin_idx <- mapM argmax cmul ;;
  reshape2 (argsort (map Z.of_nat bin_idx)) nbins bin_size.

(** Lexicographic order on (key, index) pairs, and the order it induces on
    the indices of a key vector. *)
Definition key_index_lt (p q : Z * nat) : Prop :=
  (fst p < fst q)%Z \/ (fst p = fst q /\ (snd p < snd q)%nat).

Definition by_key_then_index (v : list Z) (i j : nat) : Prop :=
  key_index_lt (nth i v 0%Z, i) (nth j v 0%Z, j).

(** The bins of an event, read in order, list the elements by ascending key,
    equal keys by ascending index. *)
Definition bins_in_key_order (v : list Z) (ev : list (list nat)) : Prop :=
  StronglySorted (by_key_then_index v) (concat ev).

(** Entry [a][b][i] of a rank-3 nested list, when present. *)
Definition slot3 {A : Type} (t : list (list (list A))) (a b i : nat) : option A :=
  match nth_error t a with
  | Some ev => slot ev b i
  | None => None
  end.
(** ** Sigmoid kernel *)

(** model.py, pairwise_sigmoid_dist, on (batch, elements, features)
    tensors: sigmoid(matmul(A, transpose(B, perm=[0,2,1]))). *)
Definition pairwise_sigmoid_dist (A B : tensor3) : tensor3 :=
  map2 (fun a b => map (fun ai => map (fun bj => sigmoid (dot ai bj)) b) a) A B.

(** ** NodeMessageLearnable *)

(** aggregation_direction: "dst" reduces over axis -2 of the
    (batch, bins, i, j, k) affinities, "src" over axis -3; any other string
    leaves agg_dim unset. *)
Inductive AggregationDirection : Type := dst | src.

Record NodeMessageLearnable : Type := {
  nml_aggregation_direction : AggregationDirection;
  nml_activation : R -> R;
  nml_ffn : Sequential
}.

(** Reduction of a list of equally long vectors along the list axis. *)
Definition reduce_rows (op : R -> R -> R) (rows : mat) : vec :=
  match rows with
  | [] => []
  | r :: t => fold_left (map2 op) t r
  end.

Definition reduce_mean_rows (rows : mat) : vec :=
  map (fun s => s / INR (length rows)) (reduce_rows Rplus rows).

Definition reduce_max_rows (rows : mat) : vec := reduce_rows Rmax rows.

(** The (i, j) table of one bin with its two axes exchanged. *)
Definition transpose_bin (A : list (list (list R))) : list (list (list R)) :=
  map (fun j => map (fun row => nth j row []) A) (seq 0 (length (hd [] A))).

Definition aggregate (dir : AggregationDirection) (reduce : mat -> vec)
  (adj_bin : list (list (list R))) : mat :=
  match dir with
  | dst => map reduce adj_bin
  | src => map reduce (transpose_bin adj_bin)
  end.

(** tf.reduce_mean / tf.reduce_max (adj, axis=agg_dim). *)
Definition aggregate_messages (dir : AggregationDirection) (reduce : mat -> vec)
  (adj : tensor5) : tensor4 :=
  map (map (aggregate dir reduce)) adj.

(** NodeMessageLearnable.call:
    x2 = concat([x, avg_message, max_message], -1) * msk;
    return activation(ffn(x2)). *)
Definition NodeMessageLearnable_call (self : NodeMessageLearnable)
  (x : tensor4) (adj : tensor5) (msk : tensor4) : tensor4 :=
  let avg_message :=
    aggregate_messages (nml_aggregation_direction self) reduce_mean_rows adj in
  let max_message :=
    aggregate_messages (nml_aggregation_direction self) reduce_max_rows adj in
  let cat := map2 (map2 (map2 (@app R))) in
  let x2 := map2 mul_mask (cat x (cat avg_message max_message)) msk in
  map (map (map (fun r => map (nml_activation self)
                            (Sequential_call (nml_ffn self) r)))) x2.

(** The layer as an entry of CombinedGraphLayer.message_passing_layers. *)
Definition NodeMessageLearnable_layer (self : NodeMessageLearnable) : MessageLayer :=
  fun x adj msk => Ok (NodeMessageLearnable_call self x adj msk).

(** A message layer with one Dense layer of bias (1, 1) on inputs of width 3. *)
Definition nml_example : NodeMessageLearnable :=
  {| nml_aggregation_direction := dst;
     nml_activation := fun x => x;
     nml_ffn := [linear [[1; 0]; [0; 1]; [1; 1]] [1; 1]] |}.
(** ** Single-output mode *)

(** The same model with the attribute multi_output set to [v]. *)
Definition with_multi_output (v : bool) (self : PFNetDense) : PFNetDense :=
  {| multi_output := v;
     skip_connection := skip_connection self;
     enc := enc self;
     cg := cg self;
     cg_energy := cg_energy self;
     output_dec := output_dec self |}.

(** ** Training targets and the regression loss mask *)

(** y[:, :, k:k+1] *)
Definition slice_last (k : nat) (y : tensor3) : tensor3 :=
  map (map (fun r => firstn 1 (skipn k r))) y.

(** tf.one_hot(tf.cast(y[:, :, 0], tf.int32), num_output_classes) at one
    element. *)
Definition target_class_elem (num_output_classes : nat) (r : vec) : result vec :=
  if (length r <? 1)%nat then Err IndexOutOfRange
  else Ok (one_hot (trunc (nth 0 r 0)) num_output_classes).

(** utils.py, targets_multi_output(num_output_classes)(X, y, w). *)
Definition targets_multi_output (num_output_classes : nat)
  (X y : tensor3) (w : mat) : result (tensor3 * Heads * mat) :=
  ycls <- mapM (mapM (target_class_elem num_output_classes)) y ;;
  Ok (X,
      {| cls := ycls;
         charge := slice_last 1 y;
         pt := slice_last 2 y;
         eta := slice_last 3 y;
         sin_phi := slice_last 4 y;
         cos_phi := slice_last 5 y;
         energy := slice_last 6 y |},
      w).

(** The per-head sample weights indexed by PFNetDense.train_step, each of
    shape (batch, elements). *)
Record SampleWeights : Type := {
  w_cls : mat;
  w_charge : mat;
  w_pt : mat;
  w_eta : mat;
  w_sin_phi : mat;
  w_cos_phi : mat;
  w_energy : mat
}.

(** model.py, PFNetDense.train_step, at one element:
    msk_loss = cast((pred_cls == true_cls) & (true_cls != 0), float32)
    with pred_cls = argmax(y_pred["cls"]), true_cls = argmax(y["cls"]). *)
Definition msk_loss_elem (pred_cls_row true_cls_row : vec) : result R :=
  pred_cls <- argmax pred_cls_row ;;
  true_cls <- argmax true_cls_row ;;
  Ok (bool_to_R ((pred_cls =? true_cls)%nat && negb (true_cls =? 0)%nat)).

Definition train_step_msk_loss (y_pred y : Heads) : result mat :=
  mapM (mapM (fun pt => msk_loss_elem (fst pt) (snd pt)))
    (map2 (map2 pair) (cls y_pred) (cls y)).

(** The sample weights handed to the compiled loss: those of energy, pt,
    eta, sin_phi and cos_phi are multiplied by msk_loss. *)
Definition train_step_sample_weights (y_pred y : Heads)
  (sample_weights : SampleWeights) : result SampleWeights :=
  msk_loss <- train_step_msk_loss y_pred y ;;
  let scale w := map2 (map2 Rmult) w msk_loss in
  Ok {| w_cls := w_cls sample_weights;
        w_charge := w_charge sample_weights;
        w_pt := scale (w_pt sample_weights);
        w_eta := scale (w_eta sample_weights);
        w_sin_phi := scale (w_sin_phi sample_weights);
        w_cos_phi := scale (w_cos_phi sample_weights);
        w_energy := scale (w_energy sample_weights) |}.

(** The factor applied to a regression weight at a slot with predicted
    class [pred_cls] and target class id [k] among [C] classes. *)
Definition regression_weight_factor (C pred_cls : nat) (k : Z) : R :=
  if ((Z.of_nat pred_cls =? k)%Z && (0 <? k)%Z && (k <? Z.of_nat C)%Z)%bool
  then 1 else 0.

(** Weight [w'] at slot (b, i) is weight [w] times [f], where [w] has the
    slot. *)
Definition weight_scaled (w w' : mat) (b i : nat) (f : R) : Prop :=
  forall wv, slot w b i = Some wv -> slot w' b i = Some (wv * f).
(** A prediction for one element that favours class 1, and unit weights. *)
Definition y_pred_example : Heads :=
  {| cls := [[[0.2; 0.8]]]; charge := [[[0]]]; pt := [[[0]]]; eta := [[[0]]];
     sin_phi := [[[0]]]; cos_phi := [[[0]]]; energy := [[[0]]] |}.

Definition sw_example : SampleWeights :=
  {| w_cls := [[1]]; w_charge := [[1]]; w_pt := [[1]]; w_eta := [[1]];
     w_sin_phi := [[1]]; w_cos_phi := [[1]]; w_energy := [[1]] |}.
(** ** Sample weights of the dataset (utils.py) *)

(** cast(X[:, 0] != 0, float32) on one event of shape (elements, features). *)
Definition element_mask (X : mat) : result vec :=
  mapM (fun row =>
          if (length row <? 1)%nat then Err IndexOutOfRange
          else Ok (bool_to_R (if Req_dec_T (nth 0 row 0) 0 then false else true)))
    X.

Definition WeightFunc : Type := mat -> mat -> vec -> result (mat * mat * vec).

(** utils.py, compute_weights_invsqrt:
    wn = shape(w)[-1] / sqrt(w); wn *= cast(X[:, 0] != 0). *)
Definition compute_weights_invsqrt : WeightFunc :=
  fun X y w =>
    let wn := map (fun wi => INR (length w) / sqrt wi) w in
    m <- element_mask X ;;
    Ok (X, y, map2 Rmult wn m).

(** utils.py, compute_weights_none: wn = ones_like(w); wn *= cast(X[:, 0] != 0). *)
Definition compute_weights_none : WeightFunc :=
  fun X y w =>
    let wn := map (fun _ => 1) w in
    m <- element_mask X ;;
    Ok (X, y, map2 Rmult wn m).

(** utils.py, get_weights_func, on config["setup"]["sample_weights"]. *)
Definition get_weights_func (sampling : String.string) : py_error + WeightFunc :=
  if String.eqb sampling "inverse_sqrt" then inr compute_weights_invsqrt
  else if String.eqb sampling "none" then inr compute_weights_none
  else inl ValueError.

(** ** Loss coefficients of a training phase (pipeline.py) *)

(** The numeric entries of a configuration section, in insertion order. *)
Definition ConfigSection : Type := list (String.string * R).

Fixpoint config_get (k : String.string) (d : ConfigSection) : option R :=
  match d with
  | [] => None
  | (k', v) :: t => if String.eqb k' k then Some v else config_get k t
  end.

(** d[k] = v: an existing key keeps its place, a new key goes last. *)
Fixpoint config_set (k : String.string) (v : R) (d : ConfigSection) : ConfigSection :=
  match d with
  | [] => [(k, v)]
  | (k', v') :: t =>
      if String.eqb k' k then (k', v) :: t else (k', v') :: config_set k v t
  end.

(** pipeline.py, train and find_lr: the coefficients of the losses that the
    phase config["setup"]["trainable"] does not train are set to 0.0 in
    config["dataset"]. *)
Definition zero_frozen_loss_coefs (trainable : String.string)
  (dataset : ConfigSection) : ConfigSection :=
  if String.eqb trainable "classification" then
    config_set "energy_loss_coef" 0
      (config_set "cos_phi_loss_coef" 0
         (config_set "sin_phi_loss_coef" 0
            (config_set "eta_loss_coef" 0
               (config_set "pt_loss_coef" 0 dataset))))
  else if String.eqb trainable "regression" then
    config_set "charge_loss_coef" 0
      (config_set "classification_loss_coef" 0 dataset)
  else dataset.

(** The loss_weights dictionary handed to model.compile. *)
Record LossWeights : Type := {
  lw_cls : R;
  lw_charge : R;
  lw_pt : R;
  lw_eta : R;
  lw_sin_phi : R;
  lw_cos_phi : R;
  lw_energy : R
}.

(** A missing coefficient is a KeyError ([None]). *)
Definition loss_weights (dataset : ConfigSection) : option LossWeights :=
  match config_get "classification_loss_coef" dataset,
        config_get "charge_loss_coef" dataset,
        config_get "pt_loss_coef" dataset,
        config_get "eta_loss_coef" dataset,
        config_get "sin_phi_loss_coef" dataset,
        config_get "cos_phi_loss_coef" dataset,
        config_get "energy_loss_coef" dataset with
  | Some c, Some q, Some p, Some e, Some s, Some co, Some en =>
      Some {| lw_cls := c; lw_charge := q; lw_pt := p; lw_eta := e;
              lw_sin_phi := s; lw_cos_phi := co; lw_energy := en |}
  | _, _, _, _, _, _, _ => None
  end.

(** ** Step counts and the learning-rate schedule (pipeline.py, utils.py) *)

(** total_steps = n_epochs * n_train // global_batch_size *)
Definition total_steps (n_epochs n_train global_batch_size : nat) : nat :=
  (n_epochs * n_train / global_batch_size)%nat.

(** steps_per_epoch = n_train // global_batch_size, as passed to model.fit. *)
Definition steps_per_epoch (n_train global_batch_size : nat) : nat :=
  (n_train / global_batch_size)%nat.

Inductive py_exception : Type :=
| UnboundLocalError   (* a local variable read before any assignment *)
| KeyError.           (* a dictionary key that is not present *)

Record OneCycleConfig : Type := {
  mom_min : R;
  mom_max : R;
  warmup_ratio : R;
  div_factor : R;
  final_div : R
}.

(** The schedule objects by their constructor arguments. *)
Inductive LRSchedule : Type :=
| OneCycleScheduler (lr_max : R) (steps : nat)
    (mom_min mom_max warmup_ratio div_factor final_div : R)
| ExponentialDecay (initial_learning_rate : R) (decay_steps : nat)
    (decay_rate : R) (staircase : bool).

Inductive Callback : Type :=
| MomentumOneCycleScheduler (steps : nat) (mom_min mom_max warmup_ratio : R).

(** utils.py, get_lr_schedule, on config["setup"]["lr_schedule"] and the
    optional section config["onecycle"]. *)
Definition get_lr_schedule (schedule : String.string)
  (onecycle_cfg : option OneCycleConfig) (lr : R) (steps : nat)
  : py_exception + (LRSchedule * list Callback) :=
  if String.eqb schedule "onecycle" then
    match onecycle_cfg with
    | None => inl KeyError
    | Some c =>
        inr (OneCycleScheduler lr steps (mom_min c) (mom_max c) (warmup_ratio c)
               (div_factor c) (final_div c),
             [MomentumOneCycleScheduler steps (mom_min c) (mom_max c) (warmup_ratio c)])
    end
  else if String.eqb schedule "exponentialdecay" then
    inr (ExponentialDecay lr steps 0.99 true, [])
  else inl UnboundLocalError.

(** The rate of a staircase ExponentialDecay at an optimizer step:
    initial_learning_rate * decay_rate ^ floor(step / decay_steps). *)
Definition staircase_rate (initial_learning_rate : R) (decay_steps : nat)
  (decay_rate : R) (step : nat) : R :=
  initial_learning_rate * decay_rate ^ (step / decay_steps).
(** ** Construction of the feed-forward stacks *)

(** "{}".format(n) for a non-negative integer. *)
Definition format_nat (n : nat) : String.string :=
  DecimalString.NilEmpty.string_of_uint (Nat.to_uint n).

(** The constructor arguments of the layers put into a Sequential; [A] is
    the type of activations. *)
Inductive LayerConfig (A : Type) : Type :=
| DenseConfig (units : nat) (activation : option A) (name : String.string)
| DropoutConfig (rate : R).

Arguments DenseConfig {A} units activation name.
Arguments DropoutConfig {A} rate.

Definition dense_name (name : String.string) (ilayer : nat) : String.string :=
  String.append name (String.append "_dense_" (format_nat ilayer)).

(** The loop of point_wise_feed_forward_network from iteration [ilayer] on,
    with the current value of dff. *)
Fixpoint ffn_hidden_layers {A : Type} (name : String.string) (activation : A)
  (dim_decrease : bool) (dropout : R) (remaining ilayer dff : nat)
  : list (LayerConfig A) :=
  match remaining with
  | O => []
  | S n =>
      DenseConfig dff (Some activation) (dense_name name ilayer)
      :: (if Rlt_dec 0 dropout then [DropoutConfig dropout] else [])
      ++ ffn_hidden_layers name activation dim_decrease dropout n (S ilayer)
           (if dim_decrease then (dff / 2)%nat else dff)
  end.

(** model.py, point_wise_feed_forward_network.  After the loop the last
    layer is named with ilayer + 1; with num_layers = 0 the loop variable
    was never bound. *)
Definition point_wise_feed_forward_network {A : Type} (d_model dff : nat)
  (name : String.string) (num_layers : nat) (activation : A)
  (dim_decrease : bool) (dropout : R) : py_exception + list (LayerConfig A) :=
  match num_layers with
  | O => inl UnboundLocalError
  | S ilayer =>
      inr (ffn_hidden_layers name activation dim_decrease dropout num_layers 0 dff
           ++ [DenseConfig d_model None (dense_name name (ilayer + 1))])
  end.

(** The Dense layers of a stack, as (units, name) pairs, and the number of
    Dropout layers. *)
Definition dense_layers {A : Type} (ls : list (LayerConfig A))
  : list (nat * String.string) :=
  flat_map (fun l => match l with
                     | DenseConfig u _ n => [(u, n)]
                     | DropoutConfig _ => []
                     end) ls.

Definition dropout_count {A : Type} (ls : list (LayerConfig A)) : nat :=
  length (filter (fun l => match l with
                           | DropoutConfig _ => true
                           | DenseConfig _ _ _ => false
                           end) ls).

(** ** The index reads of the input encoders *)

(** X[:, :, k] on one element: an index outside the feature axis raises. *)
Definition read_feature (X : vec) (k : nat) : result R :=
  match nth_error X k with
  | Some v => Ok v
  | None => Err IndexOutOfRange
  end.

(** InputEncoding.call on one element with every index read checked, in
    the order of the source; the slice X[:, :, 1:] never raises. *)
Definition InputEncoding_call_reads (num_input_classes : nat) (X : vec) : result vec :=
  x0 <- read_feature X 0 ;;
  let Xid := one_hot (trunc x0) num_input_classes in
  let Xprop := skipn 1 X in
  Ok (Xid ++ Xprop).

(** InputEncodingCMS.call on one element with every index read checked, in
    the order of the source. *)
Definition InputEncodingCMS_call_reads (num_input_classes : nat) (X : vec) : result vec :=
  x4 <- read_feature X 4 ;;
  let log_energy := log_plus_one x4 in
  x0 <- read_feature X 0 ;;
  let Xid := one_hot (trunc x0) num_input_classes in
  x1 <- read_feature X 1 ;;
  let Xpt := log_plus_one x1 in
  let Xpt_0p5 := sqrt Xpt in
  let Xpt_2 := Xpt ^ 2 in
  x2 <- read_feature X 2 ;;
  let Xeta1 := clip_by_value (sinh x2) (-10) 10 in
  x2' <- read_feature X 2 ;;
  let Xeta2 := clip_by_value (cosh x2') (-10) 10 in
  x2'' <- read_feature X 2 ;;
  let Xabs_eta := Rabs x2'' in
  x3 <- read_feature X 3 ;;
  let Xphi1 := sin x3 in
  x3' <- read_feature X 3 ;;
  let Xphi2 := cos x3' in
  let Xe := log_energy in
  let Xe_0p5 := sqrt log_energy in
  let Xe_2 := log_energy ^ 2 in
  let Xe_transverse := log_energy - ln Xeta2 in
  x5 <- read_feature X 5 ;;
  let Xlayer := x5 * 10 in
  x6 <- read_feature X 6 ;;
  let Xdepth := x6 * 10 in
  x10 <- read_feature X 10 ;;
  let Xphi_ecal1 := sin x10 in
  x10' <- read_feature X 10 ;;
  let Xphi_ecal2 := cos x10' in
  x12 <- read_feature X 12 ;;
  let Xphi_hcal1 := sin x12 in
  x12' <- read_feature X 12 ;;
  let Xphi_hcal2 := cos x12' in
  Ok (Xid ++
      [Xpt; Xpt_0p5; Xpt_2; Xeta1; Xeta2; Xabs_eta; Xphi1; Xphi2;
       Xe; Xe_0p5; Xe_2; Xe_transverse; Xlayer; Xdepth;
       Xphi_ecal1; Xphi_ecal2; Xphi_hcal1; Xphi_hcal2] ++ X).

(** The batch-level call through the checked element functions. *)
Definition InputEncoder_call_reads (enc : InputEncoder) (X : tensor3) : result tensor3 :=
  match enc with
  | InputEncodingCMS c => mapM (mapM (InputEncodingCMS_call_reads c)) X
  | InputEncoding c => mapM (mapM (InputEncoding_call_reads c)) X
  end.

(* ================================================================= *)
(** * Properties *)

(** ** The error monad and element-wise maps *)

Lemma mapM_length {A B : Type} (f : A -> result B) (l : list A) (r : list B) :
  mapM f l = Ok r -> length r = length l.
Proof.
  revert r; induction l as [|a t IH]; simpl; intros r H.
  - now inversion H.
  - destruct (f a); simpl in H; [|discriminate].
    destruct (mapM f t) eqn:E; simpl in H; [|discriminate].
    inversion H; subst; simpl; f_equal; now apply IH.
Qed.

(** ** Reshaping *)

Section ChunkFacts.
Variable A : Type.
Implicit Types (l : list A) (t : list (list A)).

Lemma chunks_length k m l : length (chunks k m l) = m.
Proof. revert l; induction m; simpl; intros; [reflexivity | now rewrite IHm]. Qed.

Lemma chunks_concat k t :
  Forall (fun r => length r = k) t -> chunks k (length t) (concat t) = t.
Proof.
  induction 1 as [|r t Hr _ IH]; simpl; [reflexivity|].
  rewrite firstn_app, skipn_app, Hr, Nat.sub_diag, firstn_all2, skipn_all2 by lia.
  simpl. rewrite app_nil_r. now rewrite IH.
Qed.

Lemma concat_chunks k m l : length l = (m * k)%nat -> concat (chunks k m l) = l.
Proof.
  revert l; induction m; simpl; intros l H.
  - destruct l; [reflexivity | discriminate].
  - rewrite IHm.
    + apply firstn_skipn.
    + rewrite length_skipn. lia.
Qed.

Lemma chunks_shape k m l :
  length l = (m * k)%nat -> has_shape2 m k (chunks k m l).
Proof.
  intros H; split; [apply chunks_length|].
  revert l H; induction m; simpl; intros l H; constructor.
  - rewrite length_firstn. lia.
  - apply IHm. rewrite length_skipn. lia.
Qed.

Lemma concat_length_shape d0 d1 t :
  has_shape2 d0 d1 t -> length (concat t) = (d0 * d1)%nat.
Proof.
  intros [<- H]; induction H; simpl; [reflexivity|].
  rewrite length_app. lia.
Qed.

Lemma reshape2_concat d0 d1 t :
  has_shape2 d0 d1 t -> reshape2 (concat t) d0 d1 = Ok t.
Proof.
  intros H. unfold reshape2.
  rewrite (concat_length_shape H), Nat.eqb_refl.
  destruct H as [<- H]. now rewrite chunks_concat.
Qed.
End ChunkFacts.

Lemma reshape3_concat {A : Type} d0 d1 d2 (t : list (list (list A))) :
  has_shape3 d0 d1 d2 t -> reshape3 (concat (concat t)) d0 d1 d2 = Ok t.
Proof.
  intros [H0 H]. unfold reshape3.
  assert (Hc : has_shape2 (d0 * d1) d2 (concat t)).
  { subst d0. induction H as [|r t [Hr1 Hr2] _ IH]; simpl.
    - split; constructor.
    - destruct IH as [IH1 IH2]. split.
      + rewrite length_app. lia.
      + apply Forall_app; auto. }
  rewrite (concat_length_shape Hc), Nat.eqb_refl. f_equal.
  subst d0. induction H as [|r t [Hr1 Hr2] Ht IH]; simpl; [reflexivity|].
  assert (Hl : length (concat r) = (d1 * d2)%nat)
    by (apply concat_length_shape; now split).
  rewrite concat_app.
  rewrite firstn_app, skipn_app, Hl, Nat.sub_diag, firstn_all2, skipn_all2 by lia.
  simpl. rewrite app_nil_r. rewrite <- Hr1 at 1. rewrite chunks_concat by assumption.
  f_equal. apply IH.
  destruct Hc as [_ Hc]. simpl in Hc. apply Forall_app in Hc.
  split; [| tauto].
  clear - Ht. induction Ht as [|x l [Hx _] _ IH]; simpl; [reflexivity|].
  rewrite length_app. lia.
Qed.

Lemma reshape3_rows {A : Type} d0 d1 d2 (t : list (list A)) :
  has_shape2 d0 (d1 * d2) t ->
  reshape3 (concat t) d0 d1 d2 = Ok (map (chunks d2 d1) t).
Proof.
  intros H. unfold reshape3.
  rewrite (concat_length_shape H), Nat.mul_assoc, Nat.eqb_refl.
  destruct H as [<- H]. now rewrite chunks_concat.
Qed.

Lemma map2_length {A B C : Type} (f : A -> B -> C) l r :
  length (map2 f l r) = Nat.min (length l) (length r).
Proof.
  revert r; induction l as [|a l IH]; intros [|b r]; simpl; auto.
Qed.

Lemma mapM_Forall2 {A B : Type} (f : A -> result B) l r :
  mapM f l = Ok r -> Forall2 (fun a b => f a = Ok b) l r.
Proof.
  revert r; induction l as [|a t IH]; simpl; intros r H.
  - inversion H; constructor.
  - destruct (f a) eqn:Ea; simpl in H; [|discriminate].
    destruct (mapM f t) eqn:E; simpl in H; [|discriminate].
    inversion H; subst. constructor; auto.
Qed.

Lemma mapM_exists {A B : Type} (f : A -> result B) l :
  Forall (fun a => exists b, f a = Ok b) l -> exists r, mapM f l = Ok r.
Proof.
  induction 1 as [|a t [b Hb] _ [r IH]]; simpl.
  - now exists [].
  - exists (b :: r). now rewrite Hb, IH.
Qed.

(** ** argsort returns a permutation of the positions, ordered by key *)

Lemma insert_key_perm k i l : Permutation (insert_key k i l) ((k, i) :: l).
Proof.
  induction l as [|[k' i'] t IH]; simpl; [reflexivity|].
  destruct (k <=? k')%Z; [reflexivity|].
  rewrite IH. apply perm_swap.
Qed.

Lemma sort_keys_perm l : Permutation (sort_keys l) l.
Proof.
  induction l as [|[k i] t IH]; simpl; [reflexivity|].
  rewrite insert_key_perm. now constructor.
Qed.

Lemma snd_combine_seq {A : Type} (v : list A) s :
  map snd (combine v (seq s (length v))) = seq s (length v).
Proof.
  revert s; induction v; simpl; intros; [reflexivity | now rewrite IHv].
Qed.

Lemma argsort_perm v : Permutation (argsort v) (seq 0 (length v)).
Proof.
  unfold argsort. rewrite <- (snd_combine_seq v 0) at 2.
  apply Permutation_map, sort_keys_perm.
Qed.

Lemma argsort_length v : length (argsort v) = length v.
Proof.
  rewrite (Permutation_length (argsort_perm v)). apply length_seq.
Qed.

Lemma argsort_bound v i : In i (argsort v) -> (i < length v)%nat.
Proof.
  intros H. apply (Permutation_in _ (argsort_perm v)) in H.
  apply in_seq in H. lia.
Qed.

Lemma argsort_NoDup v : NoDup (argsort v).
Proof.
  apply (Permutation_NoDup (Permutation_sym (argsort_perm v))), seq_NoDup.
Qed.

(** ** Bin assignment: shape and success *)

Lemma argmax_exists row : row <> [] -> exists i, argmax row = Ok i.
Proof. destruct row; [congruence | eexists; reflexivity]. Qed.

Lemma bin_index_shape nbins B n cmul msk :
  length cmul = B -> Forall (fun ev => length ev = n) cmul ->
  rows_nonempty cmul -> has_shape2 B n msk ->
  exists bi, bin_index nbins cmul msk = Ok bi /\ has_shape2 B n bi.
Proof.
  intros HB Hn Hne [HmB Hmn]. unfold bin_index.
  destruct (mapM_exists (mapM argmax) (l := cmul)) as [am Ham].
  { eapply Forall_impl; [|exact Hne]. intros ev Hev.
    apply mapM_exists. eapply Forall_impl; [|exact Hev].
    intros row. apply argmax_exists. }
  rewrite Ham. simpl. eexists; split; [reflexivity|].
  pose proof (mapM_Forall2 _ _ Ham) as F2.
  assert (Hsh : has_shape2 B n am).
  { split; [rewrite <- HB; symmetry; eapply Forall2_length; eauto|].
    clear - F2 Hn. induction F2; constructor; inversion Hn; subst; auto.
    now apply mapM_length in H. }
  clear - Hsh HmB Hmn. destruct Hsh as [HaB Han].
  rewrite <- HaB in *. clear HaB.
  revert msk HmB Hmn. induction Han as [|a am Ha _ IH]; intros [|m msk] HmB Hmn;
    simpl in *; try discriminate.
  - split; constructor.
  - inversion Hmn; subst. destruct (IH msk) as [I1 I2]; auto.
    split; simpl; [now rewrite I1|]. constructor; auto.
    rewrite map2_length, !length_map. lia.
Qed.

Lemma split_indices_ok nbins bs B cmul msk bi :
  length cmul = B -> bin_index nbins cmul msk = Ok bi ->
  has_shape2 B (nbins * bs) bi ->
  split_indices_to_bins_batch cmul nbins bs msk
  = Ok (map (fun v => chunks bs nbins (argsort v)) bi).
Proof.
  intros HB Hbi [H1 H2]. unfold split_indices_to_bins_batch.
  rewrite Hbi. simpl. rewrite HB.
  rewrite reshape3_rows.
  - now rewrite map_map.
  - split; [now rewrite length_map|].
    apply Forall_map. eapply Forall_impl; [|exact H2].
    intros v Hv. now rewrite argsort_length.
Qed.

(** ** Scatter: accumulation at one position *)

Section ApplyAt.
Variable A : Type.
Implicit Types (f g : A -> A) (l : list A).

Lemma apply_at_length f i l : length (apply_at f i l) = length l.
Proof.
  revert i; induction l as [|a l IH]; intros [|i]; simpl; auto.
Qed.

Lemma apply_at_nth_same f i l d :
  (i < length l)%nat -> nth i (apply_at f i l) d = f (nth i l d).
Proof.
  revert i; induction l as [|a l IH]; intros [|i] H; simpl in *; try lia; auto.
  apply IH; lia.
Qed.

Lemma apply_at_nth_other f i j l d :
  i <> j -> nth j (apply_at f i l) d = nth j l d.
Proof.
  revert i j; induction l as [|a l IH]; intros [|i] [|j] H; simpl; auto;
    try congruence.
Qed.

Lemma apply_at_compose f g i l :
  apply_at g i (apply_at f i l) = apply_at (fun a => g (f a)) i l.
Proof.
  revert i; induction l as [|a l IH]; intros [|i]; simpl; auto.
  now rewrite IH.
Qed.

Lemma apply_at_id i l : apply_at (fun a => a) i l = l.
Proof.
  revert i; induction l as [|a l IH]; intros [|i]; simpl; auto.
  now rewrite IH.
Qed.

Lemma apply_at_ext f g i l :
  (forall a, f a = g a) -> apply_at f i l = apply_at g i l.
Proof.
  intros E. revert i; induction l as [|a l IH]; intros [|i]; simpl; auto.
  - now rewrite E.
  - now rewrite IH.
Qed.

Lemma apply_at_app_r f l1 l2 :
  apply_at f (length l1) (l1 ++ l2) = l1 ++ apply_at f 0 l2.
Proof.
  induction l1; simpl; [now destruct l2 | now rewrite IHl1].
Qed.
End ApplyAt.

Lemma vadd_zero_l (v : vec) : vadd (repeat 0 (length v)) v = v.
Proof.
  induction v; simpl; [reflexivity|]. unfold vadd in *. simpl.
  rewrite IHv. f_equal. lra.
Qed.

(** One event's updates only touch that event. *)
Lemma scatter_step_event b (idx : list nat) (upd : mat) (acc : tensor3) :
  fold_left scatter_step (combine (map (pair b) idx) upd) acc
  = apply_at (scatter_event idx upd) b acc.
Proof.
  unfold scatter_event.
  revert upd acc; induction idx as [|i idx IH]; intros upd acc; simpl.
  - now rewrite apply_at_id.
  - destruct upd as [|u upd]; simpl; [now rewrite apply_at_id|].
    rewrite IH. unfold scatter_step at 1. simpl.
    now rewrite apply_at_compose.
Qed.

Lemma scatter_event_nth (x : mat) (idx : list nat) (acc : mat) j :
  NoDup idx -> Forall (fun i => (i < length acc)%nat) idx ->
  nth j (scatter_event idx (map (fun i => nth i x []) idx) acc) []
  = if in_dec Nat.eq_dec j idx then vadd (nth j acc []) (nth j x [])
    else nth j acc [].
Proof.
  unfold scatter_event.
  intros Hnd. revert acc. induction Hnd as [|i idx Hni Hnd IH]; intros acc Hb.
  - reflexivity.
  - inversion Hb as [|? ? Hi Hb']; subst. cbn [map combine fold_left fst snd].
    rewrite IH by (rewrite apply_at_length; exact Hb').
    destruct (in_dec Nat.eq_dec j idx) as [Hin|Hnin].
    + assert (i <> j) by (intros ->; contradiction).
      rewrite apply_at_nth_other by assumption.
      destruct (in_dec Nat.eq_dec j (i :: idx)) as [_|N]; [reflexivity|].
      exfalso; apply N; now right.
    + destruct (Nat.eq_dec i j) as [->|Hne].
      * rewrite apply_at_nth_same by assumption.
        destruct (in_dec Nat.eq_dec j (j :: idx)) as [_|N]; [reflexivity|].
        exfalso; apply N; now left.
      * rewrite apply_at_nth_other by assumption.
        destruct (in_dec Nat.eq_dec j (i :: idx)) as [[E|I]|_]; auto; contradiction.
Qed.

Lemma scatter_event_length idx upd acc :
  length (scatter_event idx upd acc) = length acc.
Proof.
  unfold scatter_event.
  revert upd acc; induction idx as [|i idx IH]; intros [|u upd] acc; simpl; auto.
  now rewrite IH, apply_at_length.
Qed.

(** Scattering the rows gathered along a permutation restores the event. *)
Lemma scatter_gather_event n nf (x : mat) (idx : list nat) :
  has_shape2 n nf x -> Permutation idx (seq 0 n) ->
  scatter_event idx (map (fun i => nth i x []) idx) (repeat (repeat 0 nf) n) = x.
Proof.
  intros [Hn Hnf] Hp.
  assert (Hnd : NoDup idx)
    by (apply (Permutation_NoDup (Permutation_sym Hp)), seq_NoDup).
  assert (Hb : Forall (fun i => (i < length (repeat (repeat 0%R nf) n))%nat) idx).
  { apply Forall_forall. intros i Hi. rewrite repeat_length.
    apply (Permutation_in _ Hp), in_seq in Hi. lia. }
  apply nth_ext with (d := []) (d' := []).
  - rewrite scatter_event_length, repeat_length. symmetry; exact Hn.
  - intros j Hj. rewrite scatter_event_length, repeat_length in Hj.
    rewrite scatter_event_nth by assumption.
    destruct (in_dec Nat.eq_dec j idx) as [_|N].
    + rewrite nth_repeat_lt by assumption.
      assert (Hl : length (nth j x []) = nf).
      { rewrite Forall_forall in Hnf. apply Hnf, nth_In. lia. }
      rewrite <- Hl. apply vadd_zero_l.
    + exfalso. apply N, (Permutation_in _ (Permutation_sym Hp)), in_seq. lia.
Qed.

(** ** Scatter over a batch *)

Lemma combine_app {A B : Type} (a1 a2 : list A) (b1 b2 : list B) :
  length a1 = length b1 ->
  combine (a1 ++ a2) (b1 ++ b2) = combine a1 b1 ++ combine a2 b2.
Proof.
  revert b1; induction a1 as [|x a1 IH]; intros [|y b1] H; simpl in *;
    try discriminate; [reflexivity|].
  f_equal. apply IH. lia.
Qed.

Lemma map2_pair_repeat {A : Type} (b : A) n (f : list nat) :
  length f = n -> map2 pair (repeat b n) f = map (pair b) f.
Proof.
  intros <-. induction f; simpl; [reflexivity | now rewrite IHf].
Qed.

Lemma scatter_fold_batch n (todo : tensor3) :
  forall (fb : list (list nat)) (U : tensor3) (done : tensor3),
  has_shape2 (length todo) n fb -> has_shape2 (length todo) n U ->
  fold_left scatter_step
    (combine
       (concat (map2 (map2 pair)
                  (map (fun b => repeat b n) (seq (length done) (length todo))) fb))
       (concat U))
    (done ++ todo)
  = done ++ map2 (fun iu ev => scatter_event (fst iu) (snd iu) ev) (combine fb U) todo.
Proof.
  induction todo as [|ev todo IH]; intros fb U done [Hf1 Hf2] [HU1 HU2].
  - destruct fb; [|discriminate]. simpl. reflexivity.
  - destruct fb as [|f fb]; [discriminate|]. destruct U as [|u U]; [discriminate|].
    inversion Hf2 as [|? ? Hf Hf2']; subst. inversion HU2 as [|? ? Hu HU2']; subst.
    cbn [length seq map map2 concat combine].
    rewrite map2_pair_repeat by reflexivity.
    rewrite combine_app by (rewrite length_map; congruence).
    rewrite fold_left_app, scatter_step_event, apply_at_app_r.
    cbn [apply_at fst snd].
    replace (done ++ scatter_event f u ev :: todo)
      with ((done ++ [scatter_event f u ev]) ++ todo)
      by (now rewrite <- app_assoc).
    replace (S (length done)) with (length (done ++ [scatter_event f u ev]))
      by (rewrite length_app; simpl; lia).
    simpl in Hf1, HU1.
    rewrite IH by (split; [lia | assumption]).
    now rewrite <- app_assoc.
Qed.

(** ** Gather *)

Lemma gather_ok {A : Type} (d : A) (x : list (list A)) bins :
  Forall2 (fun p ix => Forall (Forall (fun i => (i < length p)%nat)) ix) x bins ->
  gather d x bins
  = Ok (map2 (fun p ix => map (map (fun i => nth i p d)) ix) x bins).
Proof.
  intros H. unfold gather.
  replace (forallb _ (combine x bins)) with true; [reflexivity|].
  symmetry. induction H as [|p ix x bins Hp _ IH]; simpl; [reflexivity|].
  rewrite IH, andb_true_r. unfold index_ok.
  apply forallb_forall. intros r Hr. apply forallb_forall. intros i Hi.
  apply Nat.ltb_lt. rewrite Forall_forall in Hp.
  specialize (Hp r Hr). rewrite Forall_forall in Hp. now apply Hp.
Qed.

Lemma in_chunks {A : Type} k m (l r : list A) a :
  In r (chunks k m l) -> In a r -> In a l.
Proof.
  revert l; induction m; simpl; intros l H Ha; [contradiction|].
  rewrite <- (firstn_skipn k l). apply in_or_app.
  destruct H as [<-|H]; [now left | right; eauto].
Qed.

Lemma concat_concat {A : Type} (t : list (list (list A))) :
  concat (concat t) = concat (map (@concat A) t).
Proof.
  induction t; simpl; [reflexivity|]. now rewrite concat_app, IHt.
Qed.

Lemma map_concat_shape {A : Type} d0 d1 d2 (t : list (list (list A))) :
  has_shape3 d0 d1 d2 t -> has_shape2 d0 (d1 * d2) (map (@concat A) t).
Proof.
  intros [H0 H]. split; [now rewrite length_map|].
  apply Forall_map. eapply Forall_impl; [|exact H].
  intros r Hr. now apply concat_length_shape.
Qed.

(** ** Un-binning: reverse_lsh as one scatter per event *)

Lemma map2_In {A B C : Type} (f : A -> B -> C) l r c :
  In c (map2 f l r) -> exists a b, In a l /\ In b r /\ c = f a b.
Proof.
  revert r; induction l as [|a l IH]; intros [|b r] H; simpl in H; try contradiction.
  destruct H as [<-|H].
  - exists a, b; simpl; auto.
  - destruct (IH _ H) as (a' & b' & Ha & Hb & ->). exists a', b'; simpl; auto.
Qed.

Lemma concat_shape3 {A : Type} d1 d2 d3 (t : list (list (list A))) :
  has_shape3 d1 d2 d3 t -> has_shape2 (d1 * d2) d3 (concat t).
Proof.
  intros [<- H]. induction H as [|r t [Hr1 Hr2] _ [IH1 IH2]]; simpl.
  - split; constructor.
  - split; [rewrite length_app; lia | apply Forall_app; auto].
Qed.

Lemma has_shape2_zero {A : Type} d d' (t : list (list A)) :
  has_shape2 0 d t -> has_shape2 0 d' t.
Proof. intros [H _]. destruct t; [split; constructor | discriminate]. Qed.

Lemma shape4_dense {A : Type} B nb bs nf (P : list (list (list (list A)))) :
  has_shape4 B nb bs nf P -> (0 < B)%nat ->
  exists d1 d2 nf', shape4 P = (B, d1, d2, nf') /\ (d1 * d2 = nb * bs)%nat /\
                    ((0 < nb * bs)%nat -> nf' = nf).
Proof.
  intros [HB HP] Hpos. unfold shape4. rewrite HB.
  destruct P as [|p P]; [simpl in HB; lia|].
  inversion HP as [|? ? [Hp1 Hp2] _]; subst. simpl.
  destruct p as [|q p]; simpl.
  - do 3 eexists; split; [reflexivity|]. simpl in *. split; lia.
  - inversion Hp2 as [|? ? [Hq1 Hq2] _]; subst.
    do 3 eexists; split; [reflexivity|]. split; [reflexivity|].
    intros Hn. destruct q as [|r q]; [simpl in Hn; lia|].
    now inversion Hq2.
Qed.

Lemma scatter_index_ok B n (fb : list (list nat)) :
  Forall (Forall (fun i => (i < n)%nat)) fb ->
  forallb (fun bi : nat * nat => (fst bi <? B)%nat && (snd bi <? n)%nat)
    (concat (map2 (map2 pair) (map (fun b => repeat b n) (seq 0 B)) fb)) = true.
Proof.
  intros H. apply forallb_forall. intros [b i] Hin.
  apply in_concat in Hin. destruct Hin as (l & Hl & Hbi).
  apply map2_In in Hl. destruct Hl as (bs & f & Hbs & Hf & ->).
  apply map2_In in Hbi. destruct Hbi as (b' & i' & Hb' & Hi' & E).
  inversion E; subst b' i'. simpl.
  apply in_map_iff in Hbs. destruct Hbs as (b0 & <- & Hb0).
  apply repeat_spec in Hb'. subst b0. apply in_seq in Hb0.
  rewrite Forall_forall in H. specialize (H f Hf).
  rewrite Forall_forall in H. specialize (H i Hi').
  apply andb_true_iff; split; apply Nat.ltb_lt; lia.
Qed.

Lemma reverse_lsh_unfold B nb bs nf (bins : list (list (list nat))) (P : tensor4) :
  has_shape3 B nb bs bins -> has_shape4 B nb bs nf P ->
  Forall (Forall (fun i => (i < nb * bs)%nat)) (map (@concat nat) bins) ->
  exists nf', ((0 < B)%nat -> (0 < nb * bs)%nat -> nf' = nf) /\
    reverse_lsh bins P
    = Ok (map2 (fun iu ev => scatter_event (fst iu) (snd iu) ev)
            (combine (map (@concat nat) bins) (map (@concat (list R)) P))
            (zeros3 B (nb * bs) nf')).
Proof.
  intros Hb HP Hidx.
  destruct (Nat.eq_dec B 0) as [->|HB0].
  { destruct Hb as [Hb _], HP as [HP _].
    destruct bins; [|discriminate]. destruct P; [|discriminate].
    exists 0%nat. split; [lia | reflexivity]. }
  destruct (shape4_dense HP) as (d1 & d2 & nf' & Hs & Hd & Hnf); [lia|].
  exists nf'. split; [auto|].
  unfold reverse_lsh. rewrite Hs, Hd.
  set (n := (nb * bs)%nat) in *.
  assert (Hfb : has_shape2 B n (map (@concat nat) bins)) by now apply map_concat_shape.
  assert (HU : has_shape3 B n nf' (map (@concat (list R)) P)).
  { destruct HP as [HP1 HP2]. split; [now rewrite length_map|].
    apply Forall_map. eapply Forall_impl; [|exact HP2].
    intros ev Hev. apply concat_shape3 in Hev. fold n in Hev.
    destruct (Nat.eq_dec n 0) as [E|E].
    - rewrite E in *. eapply has_shape2_zero; eauto.
    - rewrite Hnf by lia. assumption. }
  rewrite (concat_concat bins), (reshape2_concat Hfb). cbn [bind].
  rewrite (concat_concat P), (reshape3_concat HU). cbn [bind].
  unfold tf_repeat. rewrite flat_map_concat_map.
  rewrite (@reshape2_concat nat B n).
  2:{ split; [now rewrite length_map, length_seq|].
      apply Forall_map, Forall_forall. intros; apply repeat_length. }
  cbn [bind]. unfold scatter_nd.
  rewrite scatter_index_ok by assumption. f_equal.
  pose proof (@scatter_fold_batch n (zeros3 B n nf')
                (map (@concat nat) bins) (map (@concat (list R)) P) []) as F.
  unfold zeros3 in F at 1 2 3. rewrite repeat_length in F. simpl in F.
  apply F.
  - assumption.
  - destruct HU as [HU1 HU2]. split; [assumption|].
    eapply Forall_impl; [|exact HU2]. now intros ev [Hev _].
Qed.

(** ** Binning followed by un-binning *)

Lemma scatter_gather_batch nb bs nf nf' (bi : list (list Z)) :
  forall x : tensor3,
  ((0 < nb * bs)%nat -> nf' = nf) ->
  Forall (has_shape2 (nb * bs) nf) x ->
  Forall (fun v => length v = (nb * bs)%nat) bi ->
  length x = length bi ->
  map2 (fun iu ev => scatter_event (fst iu) (snd iu) ev)
    (combine
       (map (@concat nat) (map (fun v => chunks bs nb (argsort v)) bi))
       (map (@concat (list R))
          (map2 (fun p ix => map (map (fun i => nth i p [])) ix) x
             (map (fun v => chunks bs nb (argsort v)) bi))))
    (zeros3 (length x) (nb * bs) nf')
  = x.
Proof.
  induction bi as [|v bi IH]; intros [|x0 x] Hnf Hx Hbi Hlen;
    simpl in Hlen; try discriminate; [reflexivity|].
  inversion Hx as [|? ? Hx0 Hx']; subst. inversion Hbi as [|? ? Hv Hbi']; subst.
  cbn [map map2 combine length zeros3 repeat fst snd].
  f_equal.
  - rewrite <- concat_map.
    rewrite concat_chunks by (rewrite argsort_length; exact Hv).
    apply scatter_gather_event.
    + destruct (Nat.eq_dec (nb * bs) 0) as [E|E].
      * rewrite E in *. eapply has_shape2_zero; eauto.
      * rewrite Hnf by lia. assumption.
    + rewrite <- Hv. apply argsort_perm.
  - apply IH; auto.
Qed.

Lemma Forall2_of_Forall {A B : Type} (P : A -> Prop) (Q : B -> Prop) l r :
  length l = length r -> Forall P l -> Forall Q r ->
  Forall2 (fun a b => P a /\ Q b) l r.
Proof.
  intros Hl HP. revert r Hl. induction HP; intros [|b r] Hl HQ; simpl in *;
    try discriminate; constructor; inversion HQ; subst; auto.
Qed.

Lemma chunks_argsort_bound bs nb (v : list Z) :
  Forall (Forall (fun i => (i < length v)%nat)) (chunks bs nb (argsort v)).
Proof.
  apply Forall_forall. intros r Hr. apply Forall_forall. intros i Hi.
  apply argsort_bound. eapply in_chunks; eauto.
Qed.

Lemma gathered_shape nb bs nf (bi : list (list Z)) :
  forall x : tensor3,
  Forall (has_shape2 (nb * bs) nf) x ->
  Forall (fun v => length v = (nb * bs)%nat) bi ->
  length x = length bi ->
  has_shape4 (length x) nb bs nf
    (map2 (fun p ix => map (map (fun i => nth i p [])) ix) x
       (map (fun v => chunks bs nb (argsort v)) bi)).
Proof.
  induction bi as [|v bi IH]; intros [|x0 x] Hx Hbi Hlen;
    simpl in Hlen; try discriminate.
  - split; constructor.
  - inversion Hx as [|? ? [Hx0 Hx0'] Hx']; subst.
    inversion Hbi as [|? ? Hv Hbi']; subst.
    destruct (IH x Hx' Hbi') as [I1 I2]; [lia|].
    split; simpl; [now rewrite I1|]. constructor; [|exact I2].
    assert (Hc : has_shape2 nb bs (chunks bs nb (argsort v)))
      by (apply chunks_shape; rewrite argsort_length; exact Hv).
    destruct Hc as [Hc1 Hc2]. split; [now rewrite length_map|].
    apply Forall_map. pose proof (chunks_argsort_bound bs nb v) as Hbd.
    revert Hc2 Hbd. generalize (chunks bs nb (argsort v)).
    induction 1 as [|r t Hr _ IHt]; intros Hbd; constructor;
      inversion Hbd as [|? ? Hbr Hbt]; subst; auto.
    split; [now rewrite length_map|].
    apply Forall_map. eapply Forall_impl; [|exact Hbr].
    intros i Hi. simpl in Hi. rewrite Forall_forall in Hx0'.
    apply Hx0', nth_In. lia.
Qed.

(** C2: with n_points = nbins * bin_size, the bin assignment of every batch
    element lists each flat index 0..n_points-1 exactly once, and
    reverse_lsh undoes the gather along it for every feature tensor. *)
Theorem bin_assignment_permutation_left_inverse
  (B nbins bs : nat) (cmul : tensor3) (msk : list (list bool)) :
  length cmul = B ->
  Forall (fun ev => length ev = (nbins * bs)%nat) cmul ->
  rows_nonempty cmul ->
  has_shape2 B (nbins * bs) msk ->
  exists bins,
    split_indices_to_bins_batch cmul nbins bs msk = Ok bins /\
    has_shape3 B nbins bs bins /\
    Forall (fun ev => Permutation (concat ev) (seq 0 (nbins * bs))) bins /\
    forall (nf : nat) (x : tensor3),
      has_shape3 B (nbins * bs) nf x ->
      (g <- gather [] x bins ;; reverse_lsh bins g) = Ok x.
Proof.
  intros HB Hn Hne Hm.
  destruct (bin_index_shape nbins HB Hn Hne Hm) as (bi & Hbi & Hsh).
  exists (map (fun v => chunks bs nbins (argsort v)) bi).
  destruct Hsh as [Hb1 Hb2].
  assert (Hshape : has_shape3 B nbins bs (map (fun v => chunks bs nbins (argsort v)) bi)).
  { split; [now rewrite length_map|]. apply Forall_map.
    eapply Forall_impl; [|exact Hb2]. intros v Hv.
    apply chunks_shape. now rewrite argsort_length. }
  assert (Hflat : map (@concat nat) (map (fun v => chunks bs nbins (argsort v)) bi)
                  = map argsort bi).
  { rewrite map_map. apply map_ext_in. intros v Hv.
    rewrite Forall_forall in Hb2.
    apply concat_chunks. rewrite argsort_length. now apply Hb2. }
  split; [apply (@split_indices_ok nbins bs B cmul msk bi HB Hbi); now split|].
  split; [exact Hshape|]. split.
  - apply Forall_map. eapply Forall_impl; [|exact Hb2]. intros v Hv. simpl in Hv.
    rewrite concat_chunks by (now rewrite argsort_length).
    rewrite <- Hv. apply argsort_perm.
  - intros nf x [Hx1 Hx2].
    rewrite gather_ok.
    2:{ eapply Forall2_impl;
        [| apply (@Forall2_of_Forall _ _ (has_shape2 (nbins * bs) nf)
                    (Forall (Forall (fun i => (i < nbins * bs)%nat))))].
        - intros p ix [[Hp _] Hix]. now rewrite Hp.
        - rewrite length_map. congruence.
        - exact Hx2.
        - apply Forall_map. eapply Forall_impl; [|exact Hb2].
          intros v Hv. simpl in Hv. rewrite <- Hv. apply chunks_argsort_bound. }
    cbn [bind].
    assert (Hlen : length x = length bi) by congruence.
    pose proof (@gathered_shape nbins bs nf bi x Hx2 Hb2 Hlen) as HG. rewrite Hx1 in HG.
    destruct (reverse_lsh_unfold Hshape HG) as (nf' & Hnf & ->).
    + rewrite Hflat. apply Forall_map. eapply Forall_impl; [|exact Hb2].
      intros v Hv. simpl in Hv. apply Forall_forall. intros i Hi.
      rewrite <- Hv. now apply argsort_bound.
    + f_equal. rewrite <- Hx1.
      destruct (Nat.eq_dec B 0) as [E|E].
      * rewrite E in *. destruct x; [|discriminate]. destruct bi; [|discriminate].
        reflexivity.
      * apply (@scatter_gather_batch nbins bs nf nf' bi x); auto.
        intros; apply Hnf; lia.
Qed.

Lemma bin_assignment_permutation_left_inverse_witness :
  exists bins,
    split_indices_to_bins_batch [[[1; 0]; [0; 1]]] 2 1 [[true; false]] = Ok bins /\
    has_shape3 1 2 1 bins /\
    Forall (fun ev => Permutation (concat ev) (seq 0 (2 * 1))) bins /\
    forall (nf : nat) (x : tensor3),
      has_shape3 1 (2 * 1) nf x ->
      (g <- gather [] x bins ;; reverse_lsh bins g) = Ok x.
Proof.
  apply (@bin_assignment_permutation_left_inverse 1 2 1
           [[[1; 0]; [0; 1]]] [[true; false]]).
  - reflexivity.
  - repeat constructor.
  - repeat constructor; discriminate.
  - split; [reflexivity | repeat constructor].
Defined.

(** ** Non-divisible point counts *)

Lemma mapM_argmax_shape B n (cmul : tensor3) am :
  length cmul = B -> Forall (fun ev => length ev = n) cmul ->
  mapM (mapM argmax) cmul = Ok am -> has_shape2 B n am.
Proof.
  intros HB Hn Ham. pose proof (mapM_Forall2 _ _ Ham) as F2.
  split; [rewrite <- HB; symmetry; eapply Forall2_length; eauto|].
  clear - F2 Hn. induction F2 as [|ev a cmul am H _ IH]; constructor;
    inversion Hn; subst; auto.
  now apply mapM_length in H.
Qed.

Lemma bin_index_ok_shape nbins B n cmul msk bi :
  length cmul = B -> Forall (fun ev => length ev = n) cmul ->
  has_shape2 B n msk ->
  bin_index nbins cmul msk = Ok bi -> has_shape2 B n bi.
Proof.
  intros HB Hn [HmB Hmn] H. unfold bin_index in H.
  destruct (mapM (mapM argmax) cmul) as [am|] eqn:Ham; simpl in H; [|discriminate].
  inversion H; subst bi; clear H.
  destruct (mapM_argmax_shape HB Hn Ham) as [HaB Han].
  rewrite <- HaB in *. clear - HmB Hmn Han.
  revert msk HmB Hmn. induction Han as [|a am Ha _ IH]; intros [|m msk] HmB Hmn;
    simpl in *; try discriminate.
  - split; constructor.
  - inversion Hmn; subst. destruct (IH msk) as [I1 I2]; auto.
    split; simpl; [now rewrite I1|]. constructor; auto.
    rewrite map2_length, !length_map. lia.
Qed.

Lemma split_nondivisible B n bs (cmul : tensor3) msk :
  (0 < B)%nat -> (0 < bs)%nat -> (n mod bs <> 0)%nat ->
  length cmul = B -> Forall (fun ev => length ev = n) cmul ->
  has_shape2 B n msk ->
  is_err (split_indices_to_bins_batch cmul (n / bs) bs msk) /\
  (rows_nonempty cmul ->
   split_indices_to_bins_batch cmul (n / bs) bs msk = Err InvalidReshape).
Proof.
  intros HBpos Hbs Hmod HB Hn Hm.
  assert (Hre : forall bi, has_shape2 B n bi ->
            reshape3 (concat (map argsort bi)) B (n / bs) bs = Err InvalidReshape).
  { intros bi [Hb1 Hb2]. unfold reshape3.
    assert (Hl : length (concat (map argsort bi)) = (B * n)%nat).
    { apply concat_length_shape. split; [now rewrite length_map|].
      apply Forall_map. eapply Forall_impl; [|exact Hb2].
      intros v Hv. now rewrite argsort_length. }
    rewrite Hl.
    destruct (Nat.eqb_spec (B * n) (B * (n / bs) * bs)) as [E|E]; [|reflexivity].
    exfalso. pose proof (Nat.div_mod_eq n bs) as D. nia. }
  unfold split_indices_to_bins_batch. split.
  - destruct (bin_index (n / bs) cmul msk) as [bi|e] eqn:Hbi; simpl.
    + rewrite HB. exists InvalidReshape.
      apply Hre. eapply bin_index_ok_shape; eauto.
    + now exists e.
  - intros Hne.
    destruct (bin_index_shape (n / bs) HB Hn Hne Hm) as (bi & -> & Hsh).
    simpl. rewrite HB. now apply Hre.
Qed.

Lemma bind_err {A B : Type} (c : result A) (k : A -> result B) :
  is_err c -> is_err (bind c k).
Proof. intros [e ->]. now exists e. Qed.

(** C5: when the number of element slots is not a multiple of bin_size, the
    forward pass of MessageBuildingLayerLSH raises; with at least one hash
    code per element the error is the reshape of split_indices_to_bins_batch. *)
Theorem nondivisible_points_raise
  (self : MessageBuildingLayerLSH) (B n : nat)
  (x_msg x_node : tensor3) (msk : list (list bool)) :
  (0 < B)%nat ->
  length x_msg = B -> Forall (fun ev => length ev = n) x_msg ->
  has_shape2 B n msk ->
  (n mod bin_size self <> 0)%nat ->
  is_err (MessageBuildingLayerLSH_call self x_msg x_node msk) /\
  forall cmul : tensor3,
    length cmul = B -> Forall (fun ev => length ev = n) cmul -> rows_nonempty cmul ->
    (0 < bin_size self)%nat ->
    split_indices_to_bins_batch cmul (n / bin_size self) (bin_size self) msk
    = Err InvalidReshape.
Proof.
  intros HB Hx1 Hx2 Hm Hmod. split.
  - unfold MessageBuildingLayerLSH_call, floordiv.
    destruct (Nat.eqb_spec (bin_size self) 0) as [E|E].
    + now exists DivisionByZero.
    + cbn [bind].
      assert (Hn : length (hd [] x_msg) = n).
      { destruct x_msg as [|ev t]; [simpl in Hx1; lia|]. now inversion Hx2. }
      rewrite Hn. apply bind_err.
      apply split_nondivisible with (B := B); try assumption; try lia.
      * now rewrite !length_map.
      * rewrite !Forall_map. eapply Forall_impl; [|exact Hx2].
        intros ev Hev. now rewrite !length_map.
  - intros cmul Hc1 Hc2 Hne Hbs.
    apply split_nondivisible with (B := B); assumption.
Qed.

Lemma nondivisible_points_raise_witness :
  is_err (MessageBuildingLayerLSH_call lsh_example
            [[[1]; [1]; [1]]] [[[1]; [1]; [1]]] [[true; true; true]]) /\
  forall cmul : tensor3,
    length cmul = 1%nat -> Forall (fun ev => length ev = 3%nat) cmul ->
    rows_nonempty cmul -> (0 < bin_size lsh_example)%nat ->
    split_indices_to_bins_batch cmul (3 / bin_size lsh_example)
      (bin_size lsh_example) [[true; true; true]]
    = Err InvalidReshape.
Proof.
  apply (@nondivisible_points_raise lsh_example 1 3
           [[[1]; [1]; [1]]] [[[1]; [1]; [1]]] [[true; true; true]]).
  - lia.
  - reflexivity.
  - repeat constructor.
  - split; [reflexivity | repeat constructor].
  - simpl. discriminate.
Defined.

(** ** Order of real and padding elements after the sort *)

Ltac decide_reals :=
  repeat match goal with
    | |- context [Rlt_dec ?a ?b] =>
        destruct (Rlt_dec a b); [try (exfalso; lra) | try (exfalso; lra)]
    | |- context [Rle_dec ?a ?b] =>
        destruct (Rle_dec a b); [try (exfalso; lra) | try (exfalso; lra)]
    | |- context [Req_dec_T ?a ?b] =>
        destruct (Req_dec_T a b); [try (exfalso; lra) | try (exfalso; lra)]
    end.

Lemma insert_key_sorted k i l :
  StronglySorted key_le l -> StronglySorted key_le (insert_key k i l).
Proof.
  induction 1 as [|[k' i'] t Ht IH Hall]; simpl.
  - repeat constructor.
  - destruct (Z.leb_spec k k') as [Hle|Hgt].
    + constructor; [now constructor|]. constructor; [exact Hle|].
      eapply Forall_impl; [|exact Hall]. unfold key_le; simpl. intros; lia.
    + constructor; [exact IH|].
      eapply Permutation_Forall; [symmetry; apply insert_key_perm|].
      constructor; [unfold key_le; simpl; lia | exact Hall].
Qed.

Lemma sort_keys_sorted l : StronglySorted key_le (sort_keys l).
Proof.
  induction l as [|[k i] t IH]; simpl; [constructor | now apply insert_key_sorted].
Qed.

Lemma combine_seq_keys (v : list Z) s :
  Forall (fun p => fst p = nth (snd p - s) v 0%Z /\ (s <= snd p)%nat)
    (combine v (seq s (length v))).
Proof.
  revert s; induction v as [|a v IH]; intros s; simpl; constructor.
  - simpl. rewrite Nat.sub_diag. auto.
  - eapply Forall_impl; [|apply (IH (S s))]. intros [k i] [H1 H2]; simpl in *.
    split; [|lia]. replace (i - s)%nat with (S (i - S s)) by lia. exact H1.
Qed.

Lemma argsort_sorted v :
  StronglySorted (fun i j => (nth i v 0 <= nth j v 0)%Z) (argsort v).
Proof.
  unfold argsort.
  assert (Hk : Forall (fun p => fst p = nth (snd p) v 0%Z)
                 (sort_keys (combine v (seq 0 (length v))))).
  { eapply Permutation_Forall; [symmetry; apply sort_keys_perm|].
    eapply Forall_impl; [|apply combine_seq_keys].
    intros [k i] [H _]; simpl in *. now rewrite Nat.sub_0_r in H. }
  pose proof (sort_keys_sorted (combine v (seq 0 (length v)))) as Hs.
  revert Hk Hs. generalize (sort_keys (combine v (seq 0 (length v)))).
  induction l as [|[k i] l IH]; intros Hk Hs; simpl; [constructor|].
  inversion Hk as [|? ? Hki Hk']; subst. inversion Hs as [|? ? Hs' Hall]; subst.
  constructor; [now apply IH|].
  apply Forall_map. rewrite Forall_forall in *. intros [k' i'] Hin; simpl.
  specialize (Hall _ Hin). specialize (Hk' _ Hin). unfold key_le in Hall.
  simpl in *. now rewrite <- Hki, <- Hk'.
Qed.

Lemma StronglySorted_weaken {A : Type} (R R' : A -> A -> Prop) (P : A -> Prop) l :
  (forall a b, P a -> P b -> R a b -> R' a b) ->
  Forall P l -> StronglySorted R l -> StronglySorted R' l.
Proof.
  intros HR HP Hs. induction Hs as [|a l Hs IH Hall]; [constructor|].
  inversion HP as [|? ? Pa Pl]; subst. constructor; [now apply IH|].
  rewrite Forall_forall in *. intros b Hb. apply HR; auto.
Qed.

Lemma argmax_from_bound best_i best i l :
  let r := argmax_from best_i best i l in
  r = best_i \/ (i <= r < i + length l)%nat.
Proof.
  revert best_i best i; induction l as [|x t IH]; intros best_i best i; simpl.
  - now left.
  - destruct (Rlt_dec best x).
    + destruct (IH i x (S i)) as [->|H]; right; lia.
    + destruct (IH best_i best (S i)) as [->|H]; [now left | right; lia].
Qed.

Lemma argmax_bound row k : argmax row = Ok k -> (k < length row)%nat.
Proof.
  destruct row as [|x t]; simpl; [discriminate|]. intros H; inversion H; subst.
  destruct (argmax_from_bound 0 x 1 t) as [->|Hb]; lia.
Qed.

Lemma nth_map2 {A B C : Type} (f : A -> B -> C) l r i da db dc :
  (i < length l)%nat -> (i < length r)%nat ->
  nth i (map2 f l r) dc = f (nth i l da) (nth i r db).
Proof.
  revert r i; induction l as [|a l IH]; intros [|b r] [|i] Hl Hr; simpl in *;
    try lia; auto.
  apply IH; lia.
Qed.

Lemma event_keys_separate nbins (ev : list (list R)) (a : list nat) (m : list bool) :
  mapM argmax ev = Ok a ->
  Forall (fun row => (0 < length row < nbins)%nat) ev ->
  length ev = length m ->
  keys_separate nbins m
    (map2 Z.add (map Z.of_nat a) (map (mask_offset nbins) m)).
Proof.
  intros Ha Hrow Hlen.
  pose proof (mapM_length _ _ Ha) as La.
  pose proof (mapM_Forall2 _ _ Ha) as F2.
  split; [rewrite map2_length, !length_map; lia|].
  intros i Hi.
  rewrite (nth_map2 Z.add _ _ (Z.of_nat 0) (mask_offset nbins false) 0%Z)
    by (rewrite length_map; lia).
  rewrite (map_nth (mask_offset nbins) m false), (map_nth Z.of_nat a 0%nat).
  assert (Hk : (nth i a 0 < nbins - 1)%nat).
  { assert (Hin : (i < length ev)%nat) by lia.
    clear - F2 Hrow Hin. revert i Hin.
    induction F2 as [|row k ev a Hk _ IH]; intros i Hin; simpl in Hin; [lia|].
    inversion Hrow as [|? ? Hr Hrow']; subst. destruct i as [|i]; simpl.
    - apply argmax_bound in Hk. lia.
    - apply IH; [assumption | lia]. }
  unfold mask_offset. destruct (nth i m false); simpl; lia.
Qed.

Lemma bin_index_keys nbins (cmul : tensor3) msk bi :
  bin_index nbins cmul msk = Ok bi ->
  Forall (Forall (fun row => (0 < length row < nbins)%nat)) cmul ->
  Forall2 (fun ev m => length ev = length m) cmul msk ->
  Forall2 (keys_separate nbins) msk bi.
Proof.
  unfold bin_index. intros H Hrow Hlen.
  destruct (mapM (mapM argmax) cmul) as [am|] eqn:Ham; simpl in H; [|discriminate].
  inversion H; subst bi; clear H.
  pose proof (mapM_Forall2 _ _ Ham) as F2. clear Ham.
  revert msk Hlen. induction F2 as [|ev a cmul am Ha _ IH]; intros msk Hlen.
  - inversion Hlen; subst. constructor.
  - inversion Hlen as [|? m ? msk' Hl Hlen']; subst.
    inversion Hrow as [|? ? Hr Hrow']; subst. simpl. constructor.
    + now apply event_keys_separate with (ev := ev).
    + now apply IH.
Qed.

Lemma keys_separate_padding_last nbins m v :
  keys_separate nbins m v -> padding_last m (argsort v).
Proof.
  intros [Hlen Hk]. unfold padding_last.
  apply StronglySorted_weaken
    with (R := fun i j => (nth i v 0 <= nth j v 0)%Z)
         (P := fun i => (i < length m)%nat);
    [| | apply argsort_sorted].
  - intros i j Hi Hj Hle Hmi.
    pose proof (Hk i Hi) as Ki. pose proof (Hk j Hj) as Kj.
    rewrite Hmi in Ki. destruct (nth j m false); [lia | reflexivity].
  - apply Forall_forall. intros i Hi. rewrite <- Hlen. now apply argsort_bound.
Qed.

Lemma sorted_concat_bins {A : Type} (R : A -> A -> Prop) (ev : list (list A)) :
  StronglySorted R (concat ev) ->
  forall b1 b2 bin1 bin2 i j,
    (b1 < b2)%nat -> nth_error ev b1 = Some bin1 -> nth_error ev b2 = Some bin2 ->
    In i bin1 -> In j bin2 -> R i j.
Proof.
  induction ev as [|bin ev IH]; intros Hs b1 b2 bin1 bin2 i j Hlt H1 H2 Hi Hj.
  - destruct b1; discriminate.
  - simpl in Hs. destruct b2 as [|b2]; [lia|]. simpl in H2.
    destruct b1 as [|b1]; simpl in H1.
    + inversion H1; subst bin1.
      assert (Hjc : In j (concat ev)).
      { apply in_concat. exists bin2. split; [eapply nth_error_In; eauto | exact Hj]. }
      clear - Hs Hi Hjc. induction bin as [|a bin IHb]; [contradiction|].
      simpl in Hs. inversion Hs as [|? ? Hs' Hall]; subst.
      destruct Hi as [->|Hi]; [|now apply IHb].
      rewrite Forall_forall in Hall. apply Hall, in_or_app. now right.
    + apply (IH) with (b1 := b1) (b2 := b2) (bin1 := bin1) (bin2 := bin2);
        auto; try lia.
      clear - Hs. induction bin as [|a bin IHb]; [exact Hs|].
      simpl in Hs. inversion Hs; subst. auto.
Qed.

(** C4 (amended): when every element has fewer hash codes than nbins, the
    offset puts each padding element after every real element in the
    bin-sorted order; a bin holding a padding element is followed only by
    padding, so at most one bin per event holds both kinds. *)
Theorem padding_sorted_after_real
  (B nbins bs : nat) (cmul : tensor3) (msk : list (list bool)) :
  length cmul = B ->
  Forall (fun ev => length ev = (nbins * bs)%nat) cmul ->
  Forall (Forall (fun row : list R => (0 < length row < nbins)%nat)) cmul ->
  has_shape2 B (nbins * bs) msk ->
  exists bins,
    split_indices_to_bins_batch cmul nbins bs msk = Ok bins /\
    Forall2 (fun m ev =>
               padding_last m (concat ev) /\
               forall b1 b2 bin1 bin2,
                 (b1 < b2)%nat ->
                 nth_error ev b1 = Some bin1 -> nth_error ev b2 = Some bin2 ->
                 (exists j, In j bin1 /\ nth j m false = false) ->
                 forall i, In i bin2 -> nth i m false = false)
      msk bins.
Proof.
  intros HB Hn Hrow Hm.
  assert (Hne : rows_nonempty cmul).
  { eapply Forall_impl; [|exact Hrow]. intros ev Hev.
    eapply Forall_impl; [|exact Hev]. intros row Hr E. rewrite E in Hr.
    simpl in Hr. lia. }
  destruct (bin_index_shape nbins HB Hn Hne Hm) as (bi & Hbi & Hsh).
  exists (map (fun v => chunks bs nbins (argsort v)) bi).
  split; [now apply (@split_indices_ok nbins bs B cmul msk bi)|].
  assert (Hlen : Forall2 (fun (ev : list (list R)) (m : list bool) =>
                            length ev = length m) cmul msk).
  { destruct Hm as [Hm1 Hm2].
    eapply Forall2_impl;
      [| apply (@Forall2_of_Forall _ _
                  (fun ev : list (list R) => length ev = (nbins * bs)%nat)
                  (fun r : list bool => length r = (nbins * bs)%nat) cmul msk);
         [congruence | exact Hn | exact Hm2]].
    simpl. intros ev m [H1 H2]. congruence. }
  pose proof (bin_index_keys Hbi Hrow Hlen) as Hk.
  destruct Hsh as [_ Hb2]. clear - Hk Hb2.
  induction Hk as [|m v msk bi Hmv _ IH]; simpl; constructor.
  - inversion Hb2 as [|? ? Hv _]; subst.
    assert (Hpl : padding_last m (concat (chunks bs nbins (argsort v)))).
    { rewrite concat_chunks by (now rewrite argsort_length).
      now apply keys_separate_padding_last with (nbins := nbins). }
    split; [exact Hpl|].
    intros b1 b2 bin1 bin2 Hlt H1 H2 (j & Hj & Hmj) i Hi.
    unfold padding_last in Hpl.
    exact (@sorted_concat_bins _ _ _ Hpl b1 b2 bin1 bin2 j i Hlt H1 H2 Hj Hi Hmj).
  - apply IH. now inversion Hb2.
Qed.

Lemma split_example :
  split_indices_to_bins_batch cmul_example 3 2 msk_example
  = Ok [[[0; 1]; [2; 3]; [4; 5]]]%nat.
Proof.
  unfold split_indices_to_bins_batch, bin_index, cmul_example, msk_example.
  cbn [mapM argmax argmax_from bind]. decide_reals. reflexivity.
Qed.

(** C4 as stated fails: the only real element of the example shares the
    first bin with a padding element. *)
Lemma padding_shares_bin_with_real :
  exists bins,
    split_indices_to_bins_batch cmul_example 3 2 msk_example = Ok bins /\
    ~ padding_isolated msk_example bins.
Proof.
  eexists. split; [apply split_example|].
  unfold padding_isolated, msk_example. intros H.
  inversion H as [|m ev ? ? Hev _]; subst.
  inversion Hev as [|bin ? Hbin _]; subst.
  apply Hbin. exists 0%nat, 1%nat. simpl. auto.
Qed.

Lemma padding_sorted_after_real_witness :
  exists bins,
    split_indices_to_bins_batch cmul_example 3 2 msk_example = Ok bins /\
    Forall2 (fun m ev =>
               padding_last m (concat ev) /\
               forall b1 b2 bin1 bin2,
                 (b1 < b2)%nat ->
                 nth_error ev b1 = Some bin1 -> nth_error ev b2 = Some bin2 ->
                 (exists j, In j bin1 /\ nth j m false = false) ->
                 forall i, In i bin2 -> nth i m false = false)
      msk_example bins.
Proof.
  apply (@padding_sorted_after_real 1 3 2 cmul_example msk_example).
  - reflexivity.
  - repeat constructor.
  - unfold cmul_example. repeat constructor.
  - split; [reflexivity | repeat constructor].
Defined.

(** ** Masking of the affinity matrix *)

Lemma nth_error_map2 {A B C : Type} (f : A -> B -> C) l r i :
  nth_error (map2 f l r) i
  = match nth_error l i, nth_error r i with
    | Some a, Some b => Some (f a b)
    | _, _ => None
    end.
Proof.
  revert r i; induction l as [|a l IH]; intros [|b r] [|i]; simpl; auto.
  - now destruct (nth_error l i).
Qed.

Lemma nth_as_error {A : Type} (l : list A) i d :
  nth i l d = match nth_error l i with Some x => x | None => d end.
Proof.
  destruct (nth_error l i) eqn:E;
    [now apply nth_error_nth | now apply nth_error_nth_None].
Qed.

Lemma nth_nil {A : Type} i (d : A) : nth i [] d = d.
Proof. now destruct i. Qed.

Lemma nth_scale (e : list R) c k : nth k (map (fun x => x * c) e) 0 = nth k e 0 * c.
Proof.
  revert k; induction e as [|x e IH]; intros [|k]; simpl; try lra. apply IH.
Qed.

Lemma nth_map_rows {A B : Type} (f : A -> B) (row : list (list A)) j :
  nth j (map (map f) row) [] = map f (nth j row []).
Proof. now rewrite <- (map_nth (map f) row [] j). Qed.

Lemma mask_rows_entry dm M a b i j k :
  entry5 (mask_rows dm M) a b i j k = 0 \/
  entry5 (mask_rows dm M) a b i j k = entry5 dm a b i j k * entry3 M a b i.
Proof.
  unfold entry5, entry3, mask_rows.
  rewrite (nth_as_error (map2 _ dm M) a), nth_error_map2.
  rewrite (nth_as_error dm a), (nth_as_error M a).
  destruct (nth_error dm a) as [da|]; [|left; now rewrite !nth_nil].
  destruct (nth_error M a) as [Ma|]; [|left; now rewrite !nth_nil].
  rewrite (nth_as_error (map2 _ da Ma) b), nth_error_map2.
  rewrite (nth_as_error da b), (nth_as_error Ma b).
  destruct (nth_error da b) as [db|]; [|left; now rewrite !nth_nil].
  destruct (nth_error Ma b) as [Mb|]; [|left; now rewrite !nth_nil].
  rewrite (nth_as_error (map2 _ db Mb) i), nth_error_map2.
  rewrite (nth_as_error db i), (nth_as_error Mb i).
  destruct (nth_error db i) as [row|]; [|left; now rewrite !nth_nil].
  destruct (nth_error Mb i) as [mi|]; [|left; now rewrite !nth_nil].
  right. rewrite nth_map_rows. apply nth_scale.
Qed.

Lemma mask_cols_entry dm M a b i j k :
  entry5 (mask_cols dm M) a b i j k = 0 \/
  entry5 (mask_cols dm M) a b i j k = entry5 dm a b i j k * entry3 M a b j.
Proof.
  unfold entry5, entry3, mask_cols.
  rewrite (nth_as_error (map2 _ dm M) a), nth_error_map2.
  rewrite (nth_as_error dm a), (nth_as_error M a).
  destruct (nth_error dm a) as [da|]; [|left; now rewrite !nth_nil].
  destruct (nth_error M a) as [Ma|]; [|left; now rewrite !nth_nil].
  rewrite (nth_as_error (map2 _ da Ma) b), nth_error_map2.
  rewrite (nth_as_error da b), (nth_as_error Ma b).
  destruct (nth_error da b) as [db|]; [|left; now rewrite !nth_nil].
  destruct (nth_error Ma b) as [Mb|]; [|left; now rewrite !nth_nil].
  rewrite (nth_as_error (map _ db) i), nth_error_map.
  rewrite (nth_as_error db i).
  destruct (nth_error db i) as [row|]; cbn [option_map];
    [|left; now rewrite !nth_nil].
  rewrite (nth_as_error (map2 _ row Mb) j), nth_error_map2.
  rewrite (nth_as_error row j), (nth_as_error Mb j).
  destruct (nth_error row j) as [e|]; [|left; now rewrite !nth_nil].
  destruct (nth_error Mb j) as [mj|]; [|left; now rewrite !nth_nil].
  right. apply nth_scale.
Qed.

Lemma gather_inv {A : Type} (d : A) x bins g :
  gather d x bins = Ok g ->
  g = map2 (fun p ix => map (map (fun i => nth i p d)) ix) x bins.
Proof.
  unfold gather. destruct (forallb _ _); intros H; now inversion H.
Qed.

Lemma padding_slot_mask msk bins mb a b i :
  gather [] (map (map (fun b : bool => [bool_to_R b])) msk) bins = Ok mb ->
  slot_is_padding msk bins a b i ->
  entry3 (squeeze_last mb) a b i = 0.
Proof.
  intros Hg (m & ev & bin & e & Hm & Hev & Hbin & He & Hme).
  apply gather_inv in Hg. subst mb. unfold entry3, squeeze_last.
  rewrite (nth_as_error _ a), nth_error_map, nth_error_map2, nth_error_map, Hm, Hev.
  cbn [option_map].
  rewrite (nth_as_error _ b), !nth_error_map, Hbin. cbn [option_map].
  rewrite (nth_as_error _ i), !nth_error_map, He. cbn [option_map].
  rewrite (nth_as_error _ e), nth_error_map, Hme. reflexivity.
Qed.

(** C3: in the output of MessageBuildingLayerLSH, for either kernel, the
    entry dm[a][b][i][j][k] is 0 whenever slot i or slot j of that bin holds
    a padding element. *)
Theorem masked_kernel_entries_zero
  (self : MessageBuildingLayerLSH) (x_msg x_node : tensor3)
  (msk : list (list bool)) bins_split x_features_binned dm msk_f_binned :
  MessageBuildingLayerLSH_call self x_msg x_node msk
  = Ok (bins_split, x_features_binned, dm, msk_f_binned) ->
  forall a b i j k,
    slot_is_padding msk bins_split a b i \/ slot_is_padding msk bins_split a b j ->
    entry5 dm a b i j k = 0.
Proof.
  unfold MessageBuildingLayerLSH_call. intros H a b i j k Hpad.
  destruct (floordiv _ _) as [n_bins|]; cbn [bind] in H; [|discriminate].
  destruct (split_indices_to_bins_batch _ _ _ _) as [bs|]; cbn [bind] in H;
    [|discriminate].
  destruct (gather [] x_msg bs) as [xm|]; cbn [bind] in H; [|discriminate].
  destruct (gather [] x_node bs) as [xn|]; cbn [bind] in H; [|discriminate].
  destruct (gather [] _ bs) as [mb|] eqn:Hg; cbn [bind] in H; [|discriminate].
  inversion H; subst; clear H.
  set (K := Kernel_call (kernel self) xm).
  set (M := squeeze_last msk_f_binned).
  destruct (mask_cols_entry (mask_rows K M) M a b i j k) as [E|E]; [exact E|].
  rewrite E.
  destruct Hpad as [Hi|Hj].
  - destruct (mask_rows_entry K M a b i j k) as [E'|E']; rewrite E'; [lra|].
    unfold M. rewrite (padding_slot_mask Hg Hi). lra.
  - unfold M at 2. rewrite (padding_slot_mask Hg Hj). lra.
Qed.

Lemma lsh_unit_bins_call :
  MessageBuildingLayerLSH_call lsh_unit_bins [[[1]; [0]]] [[[1]; [0]]] [[true; false]]
  = Ok ([[[0%nat]; [1%nat]]], [[[[1]]; [[0]]]],
        mask_cols
          (mask_rows
             (Kernel_call (NodePairGaussianKernel 0 (1 / 10)) [[[[1]]; [[0]]]])
             [[[1]; [0]]])
          [[[1]; [0]]],
        [[[[1]]; [[0]]]]).
Proof.
  unfold MessageBuildingLayerLSH_call, lsh_unit_bins, floordiv.
  cbn -[Kernel_call mask_rows mask_cols Rmult Rplus Ropp].
  unfold split_indices_to_bins_batch, bin_index.
  cbn [mapM argmax argmax_from bind map app].
  decide_reals.
  reflexivity.
Qed.

Lemma masked_kernel_entries_zero_witness :
  slot_is_padding [[true; false]] [[[0%nat]; [1%nat]]] 0 1 0 /\
  entry5
    (mask_cols
       (mask_rows
          (Kernel_call (NodePairGaussianKernel 0 (1 / 10)) [[[[1]]; [[0]]]])
          [[[1]; [0]]])
       [[[1]; [0]]]) 0 1 0 0 0 = 0.
Proof.
  assert (Hp : slot_is_padding [[true; false]] [[[0%nat]; [1%nat]]] 0 1 0).
  { exists [true; false], [[0%nat]; [1%nat]], [1%nat], 1%nat.
    repeat split; reflexivity. }
  split; [exact Hp|].
  apply (@masked_kernel_entries_zero _ _ _ _ _ _ _ _ lsh_unit_bins_call 0 1 0 0 0)%nat.
  left. exact Hp.
Defined.

(** ** Gaussian distances and kernel *)

Lemma dot_comm a b : dot a b = dot b a.
Proof.
  unfold dot. revert b; induction a as [|x a IH]; intros [|y b]; simpl; auto.
  rewrite IH. lra.
Qed.

Lemma dot_self a : dot a a = sqnorm a.
Proof.
  unfold dot, sqnorm. induction a as [|x a IH]; simpl; [reflexivity | now rewrite IH].
Qed.

Lemma pair_dist_sym a b : pair_dist a b = pair_dist b a.
Proof. unfold pair_dist. rewrite (dot_comm a b). do 2 f_equal. lra. Qed.

Lemma pair_dist_diag a : pair_dist a a = sqrt dist_floor.
Proof.
  unfold pair_dist. rewrite dot_self. f_equal.
  replace (sqnorm a - 2 * sqnorm a + sqnorm a) with 0 by lra.
  apply Rmax_right. unfold dist_floor. lra.
Qed.

Lemma map2_diag {A B : Type} (f : A -> A -> B) l :
  map2 f l l = map (fun a => f a a) l.
Proof. induction l; simpl; [reflexivity | now rewrite IHl]. Qed.

Lemma nth_table {T : Type} (f : list R -> list R -> T) (A : list (list R)) i j d :
  nth j (nth i (map (fun a => map (f a) A) A) []) d
  = if (i <? length A)%nat && (j <? length A)%nat
    then f (nth i A []) (nth j A []) else d.
Proof.
  rewrite (nth_as_error _ i), nth_error_map, (nth_as_error A i).
  destruct (nth_error A i) as [a|] eqn:Ei; cbn [option_map].
  - assert (Hi : (i < length A)%nat) by (apply nth_error_Some; congruence).
    apply Nat.ltb_lt in Hi. rewrite Hi. cbn [andb].
    rewrite (nth_as_error _ j), nth_error_map, (nth_as_error A j).
    destruct (nth_error A j) as [b|] eqn:Ej; cbn [option_map].
    + assert (Hj : (j < length A)%nat) by (apply nth_error_Some; congruence).
      apply Nat.ltb_lt in Hj. now rewrite Hj.
    + apply nth_error_None in Ej. apply Nat.ltb_ge in Ej. now rewrite Ej.
  - apply nth_error_None in Ei. apply Nat.ltb_ge in Ei. rewrite Ei.
    cbn [andb]. apply nth_nil.
Qed.

Lemma nth_map_default {A B : Type} (f : A -> B) l n d d' :
  f d = d' -> nth n (map f l) d' = f (nth n l d).
Proof. intros <-. apply map_nth. Qed.

Lemma gaussian_dist_table (x : tensor4) :
  pairwise_gaussian_dist x x
  = map (map (fun A => map (fun a => map (pair_dist a) A) A)) x.
Proof.
  unfold pairwise_gaussian_dist. rewrite map2_diag.
  apply map_ext. intros ev. apply map2_diag.
Qed.

Lemma gaussian_kernel_table lo mult (x : tensor4) :
  NodePairGaussianKernel_call lo mult x
  = map (map (fun A => map (fun a => map (fun b => [gauss_pair lo mult a b]) A) A)) x.
Proof.
  unfold NodePairGaussianKernel_call. rewrite gaussian_dist_table.
  rewrite !map_map. apply map_ext. intros ev.
  rewrite !map_map. apply map_ext. intros A.
  rewrite !map_map. apply map_ext. intros a.
  rewrite !map_map. apply map_ext. intros b. reflexivity.
Qed.

Lemma clip_by_value_range t lo hi : lo <= hi -> lo <= clip_by_value t lo hi <= hi.
Proof.
  intros H. unfold clip_by_value. split; [apply Rmax_r|].
  apply Rmax_lub; [apply Rmin_r | exact H].
Qed.

(** C7: the distance matrix of a tensor with itself is symmetric with
    diagonal sqrt(1e-6); the Gaussian kernel is symmetric and, for
    clip_value_low <= 1, takes its values in [clip_value_low, 1]. *)
Theorem gaussian_distance_kernel_symmetric (x : tensor4) (clip_value_low dist_mult : R) :
  clip_value_low <= 1 ->
  (forall a b i j,
      nth4 (pairwise_gaussian_dist x x) a b i j 0
      = nth4 (pairwise_gaussian_dist x x) a b j i 0) /\
  (forall a b ev A i,
      nth_error x a = Some ev -> nth_error ev b = Some A -> (i < length A)%nat ->
      nth4 (pairwise_gaussian_dist x x) a b i i 0 = sqrt 1e-6) /\
  (forall a b i j k,
      entry5 (NodePairGaussianKernel_call clip_value_low dist_mult x) a b i j k
      = entry5 (NodePairGaussianKernel_call clip_value_low dist_mult x) a b j i k) /\
  Forall (Forall (Forall (Forall (Forall (fun v => clip_value_low <= v <= 1)))))
    (NodePairGaussianKernel_call clip_value_low dist_mult x).
Proof.
  intros Hlo. rewrite gaussian_dist_table, gaussian_kernel_table.
  unfold nth4, entry5. repeat split.
  - intros a b i j.
    rewrite (nth_map_default _ x a []) by reflexivity.
    rewrite (nth_map_default _ (nth a x []) b []) by reflexivity.
    rewrite !nth_table, andb_comm.
    destruct (_ && _); [apply pair_dist_sym | reflexivity].
  - intros a b ev A i Ha Hb Hi.
    rewrite (nth_map_default _ x a []) by reflexivity.
    rewrite (nth_map_default _ (nth a x []) b []) by reflexivity.
    rewrite (nth_error_nth _ _ [] Ha), (nth_error_nth _ _ [] Hb), nth_table.
    apply Nat.ltb_lt in Hi. rewrite Hi. cbn [andb]. apply pair_dist_diag.
  - intros a b i j k.
    rewrite (nth_map_default _ x a []) by reflexivity.
    rewrite (nth_map_default _ (nth a x []) b []) by reflexivity.
    rewrite !nth_table, andb_comm.
    destruct (_ && _); [|reflexivity].
    unfold gauss_pair. now rewrite pair_dist_sym.
  - apply Forall_map, Forall_forall. intros ev _.
    apply Forall_map, Forall_forall. intros A _.
    apply Forall_map, Forall_forall. intros a _.
    apply Forall_map, Forall_forall. intros b _.
    constructor; [|constructor]. apply clip_by_value_range, Hlo.
Qed.

Lemma gaussian_distance_kernel_symmetric_witness :
  0 <= 1 /\
  (forall a b i j,
      nth4 (pairwise_gaussian_dist [[[[1; 2]; [3; 4]]]] [[[[1; 2]; [3; 4]]]]) a b i j 0
      = nth4 (pairwise_gaussian_dist [[[[1; 2]; [3; 4]]]] [[[[1; 2]; [3; 4]]]]) a b j i 0) /\
  Forall (Forall (Forall (Forall (Forall (fun v => 0 <= v <= 1)))))
    (NodePairGaussianKernel_call 0 (1 / 10) [[[[1; 2]; [3; 4]]]]).
Proof.
  assert (H01 : 0 <= 1) by lra.
  pose proof (@gaussian_distance_kernel_symmetric
                [[[[1; 2]; [3; 4]]]] 0 (1 / 10) H01) as (Hs & _ & _ & Hr).
  split; [exact H01|]. split; [exact Hs | exact Hr].
Defined.

(** ** Log-energy transform and its inverse *)

Lemma exp_6_bound : exp 6 <= 729.
Proof.
  replace 6 with (1 + 1 + 1 + 1 + 1 + 1) by lra. rewrite !exp_plus.
  pose proof exp_le_3 as H3. pose proof (exp_pos 1) as H0.
  assert (H2 : exp 1 * exp 1 <= 9) by nra.
  assert (H4 : exp 1 * exp 1 * exp 1 <= 27) by nra.
  assert (H5 : exp 1 * exp 1 * exp 1 * exp 1 <= 81) by nra.
  assert (H6 : exp 1 * exp 1 * exp 1 * exp 1 * exp 1 <= 243) by nra.
  nra.
Qed.

Lemma exp_le_mono x y : x <= y -> exp x <= exp y.
Proof.
  intros [H| ->]; [left; now apply exp_increasing | right; reflexivity].
Qed.

Lemma exp_le_inv x y : exp x <= exp y -> x <= y.
Proof.
  intros H. destruct (Rle_or_lt x y) as [L|L]; [exact L|].
  apply exp_increasing in L. lra.
Qed.

Lemma clip_by_value_inside t lo hi : lo <= t <= hi -> clip_by_value t lo hi = t.
Proof.
  intros [H1 H2]. unfold clip_by_value.
  rewrite Rmin_left by exact H2. now apply Rmax_left.
Qed.

Lemma clip_by_value_above t lo hi : lo <= hi -> hi <= t -> clip_by_value t lo hi = hi.
Proof.
  intros H1 H2. unfold clip_by_value.
  rewrite Rmin_right by exact H2. now apply Rmax_left.
Qed.

(** An energy of 1000 is encoded as log(1001) > 6; the decoder clips it to 6
    and returns at most 728. *)
Lemma energy_round_trip_clipped :
  energy_from_log (log_plus_one 1000) <= 728 /\
  1000 - energy_from_log (log_plus_one 1000) >= 272.
Proof.
  assert (H : energy_from_log (log_plus_one 1000) = exp 6 - 1).
  { unfold energy_from_log, log_plus_one.
    rewrite clip_by_value_above; [reflexivity | lra |].
    apply exp_le_inv. rewrite exp_ln by lra.
    pose proof exp_6_bound. lra. }
  rewrite H. pose proof exp_6_bound. lra.
Qed.

(** Inside the clip range, exp(-6) <= E + 1 <= exp(6), the decoder's
    exp(clip(., -6, 6)) - 1 inverts the encoder's log(E + 1) exactly. *)
Theorem energy_round_trip (E : R) :
  exp (-6) <= E + 1 <= exp 6 ->
  energy_from_log (log_plus_one E) = E.
Proof.
  intros [Hlo Hhi]. unfold energy_from_log, log_plus_one.
  assert (Hpos : 0 < E + 1) by (pose proof (exp_pos (-6)); lra).
  rewrite clip_by_value_inside.
  - rewrite exp_ln by exact Hpos. lra.
  - split; apply exp_le_inv; rewrite exp_ln by exact Hpos; assumption.
Qed.

Lemma energy_round_trip_witness :
  exp (-6) <= 0 + 1 <= exp 6 /\ energy_from_log (log_plus_one 0) = 0.
Proof.
  assert (H : exp (-6) <= 0 + 1 <= exp 6).
  { rewrite Rplus_0_l, <- exp_0. split; apply exp_le_mono; lra. }
  split; [exact H | exact (energy_round_trip H)].
Defined.

(** C8 (code defect): the comment above the decoding line documents
    energy = exp(pred_log_energy) - 1, the inverse of the encoder's
    log(E + 1), but the code clips the exponent to [-6, 6].  Every
    energy E with E + 1 > exp(6) (about 403.4), encoded and handed to the
    decoder unchanged, is decoded to exp(6) - 1, which is below E, where
    the documented formula returns E. *)
Theorem energy_above_clip_not_recovered (E : R) :
  exp 6 < E + 1 ->
  energy_from_log (log_plus_one E) = exp 6 - 1 /\
  energy_from_log (log_plus_one E) < E /\
  exp (log_plus_one E) - 1 = E.
Proof.
  intros HE. pose proof (exp_pos 6) as H6.
  assert (Hv : energy_from_log (log_plus_one E) = exp 6 - 1).
  { unfold energy_from_log, log_plus_one.
    rewrite clip_by_value_above; [reflexivity | lra |].
    apply exp_le_inv. rewrite exp_ln by lra. lra. }
  split; [exact Hv|]. split; [rewrite Hv; lra|].
  unfold log_plus_one. rewrite exp_ln by lra. lra.
Qed.

Lemma energy_above_clip_not_recovered_witness :
  exp 6 < 1000 + 1 /\
  energy_from_log (log_plus_one 1000) = exp 6 - 1 /\
  energy_from_log (log_plus_one 1000) < 1000 /\
  exp (log_plus_one 1000) - 1 = 1000.
Proof.
  assert (H : exp 6 < 1000 + 1) by (pose proof exp_6_bound; lra).
  split; [exact H | exact (energy_above_clip_not_recovered H)].
Defined.

(** ** Output decoding, slot by slot *)

Lemma slot_map {A B : Type} (f : A -> B) (t : list (list A)) b i :
  slot (map (map f) t) b i = option_map f (slot t b i).
Proof.
  unfold slot. rewrite nth_error_map.
  destruct (nth_error t b); cbn [option_map]; [apply nth_error_map | reflexivity].
Qed.

Lemma slot_map2 {A B C : Type} (f : A -> B -> C) t u b i :
  slot (map2 (map2 f) t u) b i
  = match slot t b i, slot u b i with
    | Some x, Some y => Some (f x y)
    | _, _ => None
    end.
Proof.
  unfold slot. rewrite nth_error_map2.
  destruct (nth_error t b) as [ev|]; [|reflexivity].
  destruct (nth_error u b) as [eu|].
  - apply nth_error_map2.
  - now destruct (nth_error ev i).
Qed.

Lemma nth_error_map4 {A B C D E : Type} (f : A -> B -> C -> D -> E) la lb lc ld i :
  nth_error (map4 f la lb lc ld) i
  = match nth_error la i, nth_error lb i, nth_error lc i, nth_error ld i with
    | Some a, Some b, Some c, Some d => Some (f a b c d)
    | _, _, _, _ => None
    end.
Proof.
  revert lb lc ld i; induction la as [|a la IH];
    intros [|b lb] [|c lc] [|d ld] [|i]; simpl; auto;
    repeat match goal with
      | |- context [match nth_error ?l ?i with _ => _ end] =>
          destruct (nth_error l i)
      end; auto.
Qed.

Lemma slot_map4 {A B C D E : Type} (f : A -> B -> C -> D -> E) ta tb tc td b i :
  slot (map4 (map4 f) ta tb tc td) b i
  = match slot ta b i, slot tb b i, slot tc b i, slot td b i with
    | Some x, Some y, Some z, Some w => Some (f x y z w)
    | _, _, _, _ => None
    end.
Proof.
  unfold slot. rewrite nth_error_map4.
  destruct (nth_error ta b) as [ea|]; [|reflexivity].
  destruct (nth_error tb b) as [eb|]; [|now destruct (nth_error ea i)].
  destruct (nth_error tc b) as [ec|].
  2:{ destruct (nth_error ea i); [|reflexivity]. now destruct (nth_error eb i). }
  destruct (nth_error td b) as [ed|].
  2:{ destruct (nth_error ea i); [|reflexivity].
      destruct (nth_error eb i); [|reflexivity]. now destruct (nth_error ec i). }
  apply nth_error_map4.
Qed.

Lemma mapM_nth_error {A B : Type} (f : A -> result B) l r i :
  mapM f l = Ok r ->
  nth_error r i
  = match nth_error l i with
    | Some a => match f a with Ok b => Some b | Err _ => None end
    | None => None
    end.
Proof.
  intros H. apply mapM_Forall2 in H. revert i.
  induction H as [|a b l r Hab _ IH]; intros [|i]; simpl; auto.
  now rewrite Hab.
Qed.

Lemma mapM_nth_error_ok {A B : Type} (f : A -> result B) l r i a :
  mapM f l = Ok r -> nth_error l i = Some a -> exists b, f a = Ok b.
Proof.
  intros H. apply mapM_Forall2 in H. revert i.
  induction H as [|a' b l r Hab _ IH]; intros [|i] Hi; simpl in Hi; try discriminate.
  - inversion Hi; subst. eauto.
  - eauto.
Qed.

Lemma slot_mapM {A B : Type} (f : A -> result B) t rows b i :
  mapM (mapM f) t = Ok rows ->
  slot rows b i
  = match slot t b i with
    | Some a => match f a with Ok h => Some h | Err _ => None end
    | None => None
    end.
Proof.
  intros H. unfold slot. rewrite (@mapM_nth_error _ _ _ _ _ b H).
  destruct (nth_error t b) as [ev|] eqn:Eb; [|reflexivity].
  destruct (@mapM_nth_error_ok _ _ _ _ _ _ _ H Eb) as [r Hr]. rewrite Hr.
  apply (@mapM_nth_error _ _ _ _ _ i Hr).
Qed.

Lemma slot_mapM_ok {A B : Type} (f : A -> result B) t rows b i a :
  mapM (mapM f) t = Ok rows -> slot t b i = Some a -> exists h, f a = Ok h.
Proof.
  unfold slot. intros H Hs.
  destruct (nth_error t b) as [ev|] eqn:Eb; [|discriminate].
  destruct (@mapM_nth_error_ok _ _ _ _ _ _ _ H Eb) as [r Hr].
  exact (@mapM_nth_error_ok _ _ _ _ _ _ _ Hr Hs).
Qed.

(** The heads of a slot are those of OutputDecoding_call_elem on the slot's
    inputs, and exist exactly when the four inputs have the slot. *)
Lemma OutputDecoding_call_slot self Xi Xe Xee M ret b i :
  OutputDecoding_call self Xi Xe Xee M = Ok ret ->
  match slot Xi b i, slot Xe b i, slot Xee b i, slot M b i with
  | Some xi, Some xe, Some xee, Some m =>
      exists h,
        OutputDecoding_call_elem self xi xe xee (hd 0 m) = Ok h /\
        slot (cls ret) b i = Some (e_cls h) /\
        slot (charge ret) b i = Some [e_charge h] /\
        slot (pt ret) b i = Some [e_pt h] /\
        slot (eta ret) b i = Some [e_eta h] /\
        slot (sin_phi ret) b i = Some [e_sin_phi h] /\
        slot (cos_phi ret) b i = Some [e_cos_phi h] /\
        slot (energy ret) b i = Some [e_energy h]
  | _, _, _, _ =>
      slot (cls ret) b i = None /\ slot (charge ret) b i = None /\
      slot (pt ret) b i = None /\ slot (eta ret) b i = None /\
      slot (sin_phi ret) b i = None /\ slot (cos_phi ret) b i = None /\
      slot (energy ret) b i = None
  end.
Proof.
  unfold OutputDecoding_call. intros H.
  destruct (mapM _ _) as [rows|] eqn:Hrows; cbn [bind] in H; [|discriminate].
  inversion H; subst ret; clear H. cbn [cls charge pt eta sin_phi cos_phi energy].
  rewrite !slot_map.
  pose proof (@slot_mapM _ _ _ _ _ b i Hrows) as Hs. rewrite slot_map4 in Hs.
  destruct (slot Xi b i) as [xi|] eqn:E1;
    [|rewrite Hs; cbn; repeat split; reflexivity].
  destruct (slot Xe b i) as [xe|] eqn:E2;
    [|rewrite Hs; cbn; repeat split; reflexivity].
  destruct (slot Xee b i) as [xee|] eqn:E3;
    [|rewrite Hs; cbn; repeat split; reflexivity].
  destruct (slot M b i) as [m|] eqn:E4;
    [|rewrite Hs; cbn; repeat split; reflexivity].
  destruct (@slot_mapM_ok _ _ (fun r => r) _ rows b i
              (OutputDecoding_call_elem self xi xe xee (hd 0 m)) Hrows) as [h Hh].
  { now rewrite slot_map4, E1, E2, E3, E4. }
  rewrite Hh in Hs. rewrite Hs. exists h. cbn. repeat split; auto.
Qed.

Ltac invert_elem H :=
  unfold OutputDecoding_call_elem in H; cbv zeta in H;
  destruct (schema _); cbv beta iota zeta in H;
  (destruct (mask_reg_cls0 _) eqn:?;
   [ match type of H with
     | context [argmax ?l] => destruct (argmax l) eqn:?
     end | ]);
  cbn [bind] in H; try discriminate;
  inversion H; subst; clear H;
  cbn [e_cls e_charge e_pt e_eta e_sin_phi e_cos_phi e_energy].

Lemma elem_zero_when_masked self xi xe xee h :
  OutputDecoding_call_elem self xi xe xee 0 = Ok h -> regression_zero h.
Proof.
  intros H. unfold regression_zero. invert_elem H; repeat split; apply Rmult_0_r.
Qed.

Lemma elem_zero_when_class0 self xi xe xee m h :
  OutputDecoding_call_elem self xi xe xee m = Ok h ->
  mask_reg_cls0 self = true -> hard_class self xe m = Ok 0%nat ->
  regression_zero h.
Proof.
  intros H Hm Hc. unfold regression_zero, hard_class in *.
  invert_elem H; try congruence;
    repeat match goal with
      | E : argmax _ = Ok _ |- _ => rewrite E in Hc
      end;
    inversion Hc; subst; cbn [Nat.eqb]; repeat split; ring.
Qed.

Lemma elem_cls self xi xe xee m h :
  OutputDecoding_call_elem self xi xe xee m = Ok h ->
  e_cls h
  = map (fun p => clip_by_value p 0 1)
      (softmax (id_logits self (normed_encoding self xe) m)).
Proof. intros H. invert_elem H; reflexivity. Qed.

(** ** The class probabilities of a padded slot *)

Lemma rsum_repeat c n : rsum (repeat c n) = INR n * c.
Proof.
  induction n as [|n IH]; [simpl; lra|].
  rewrite S_INR. cbn [repeat rsum fold_right]. unfold rsum in IH. rewrite IH. lra.
Qed.

Lemma map_const {A B : Type} (f : A -> B) (c : B) l :
  (forall a, f a = c) -> map f l = repeat c (length l).
Proof.
  intros H. induction l; simpl; [reflexivity | now rewrite H, IHl].
Qed.

Lemma inv_INR_range n : (0 < n)%nat -> 0 < / INR n <= 1.
Proof.
  intros Hn. assert (H1 : 1 <= INR n) by (apply (le_INR 1); lia).
  split; [apply Rinv_0_lt_compat; lra|].
  rewrite <- Rinv_1. apply Rinv_le_contravar; lra.
Qed.

Lemma softmax_zero_logits (l : list R) :
  map (fun p => clip_by_value p 0 1) (softmax (map (fun v => v * 0) l))
  = repeat (/ INR (length l)) (length l).
Proof.
  destruct l as [|x l]; [reflexivity|].
  set (n := length (x :: l)).
  assert (Hn : (0 < n)%nat) by (unfold n; simpl; lia).
  assert (Hz : map (fun v => v * 0) (x :: l) = repeat 0 n).
  { apply map_const. intros; lra. }
  rewrite Hz. unfold softmax.
  rewrite !map_repeat, rsum_repeat, exp_0. f_equal.
  destruct (inv_INR_range Hn) as [H0 H1].
  replace (1 / (INR n * 1)) with (/ INR n)
    by (field; apply not_0_INR; lia).
  apply clip_by_value_inside. lra.
Qed.

(** ** The hard class is the argmax of the logits *)

Lemma argmax_from_map (f : R -> R) l :
  forall best_i best i,
  (forall a b, (a = best \/ In a l) -> (b = best \/ In b l) -> (f a < f b <-> a < b)) ->
  argmax_from best_i (f best) i (map f l) = argmax_from best_i best i l.
Proof.
  induction l as [|x l IH]; intros best_i best i Hf; simpl; [reflexivity|].
  assert (Hx : f best < f x <-> best < x) by (apply Hf; simpl; auto).
  destruct (Rlt_dec (f best) (f x)) as [L|L], (Rlt_dec best x) as [L'|L'];
    try tauto; apply IH; intros a b Ha Hb; apply Hf; simpl;
    intuition (subst; auto).
Qed.

Lemma argmax_map (f : R -> R) l :
  (forall a b, In a l -> In b l -> (f a < f b <-> a < b)) ->
  argmax (map f l) = argmax l.
Proof.
  destruct l as [|x l]; intros Hf; simpl; [reflexivity|].
  f_equal. apply argmax_from_map. intros a b Ha Hb. apply Hf; simpl.
  - destruct Ha; auto.
  - destruct Hb; auto.
Qed.

Lemma rsum_pos_ge (l : list R) x :
  Forall (fun y => 0 < y) l -> In x l -> 0 < x <= rsum l.
Proof.
  intros Hpos. revert x. induction Hpos as [|y l Hy Hl IH]; intros x Hin;
    [contradiction|].
  unfold rsum in *. simpl.
  assert (H0 : 0 <= fold_right Rplus 0 l).
  { clear - Hl. induction Hl; simpl; [lra|]. lra. }
  destruct Hin as [->|Hin]; [lra|].
  specialize (IH x Hin). lra.
Qed.

Lemma hard_softmax_argmax (z : list R) : argmax (hard_softmax z) = argmax z.
Proof.
  unfold hard_softmax, softmax. rewrite !map_map.
  set (s := rsum (map (fun x => exp (100 * x)) z)).
  apply argmax_map. intros a b Ha Hb.
  assert (Hent : forall c, In c z -> 0 < exp (100 * c) <= s).
  { intros c Hc. apply rsum_pos_ge.
    - apply Forall_map, Forall_forall. intros; apply exp_pos.
    - apply in_map_iff. now exists c. }
  assert (Hs : 0 < s) by (specialize (Hent a Ha); lra).
  assert (Hclip : forall c, In c z ->
            clip_by_value (exp (100 * c) / s) 0 1 = exp (100 * c) / s).
  { intros c Hc. apply clip_by_value_inside. specialize (Hent c Hc).
    assert (Hi : 0 < / s) by now apply Rinv_0_lt_compat.
    unfold Rdiv. split; [nra|].
    replace 1 with (s * / s) by (field; lra). nra. }
  cbv beta. rewrite (Hclip a Ha), (Hclip b Hb).
  split; intros H.
  - assert (exp (100 * a) < exp (100 * b)).
    { apply Rmult_lt_reg_r with (r := / s); [now apply Rinv_0_lt_compat|].
      exact H. }
    apply exp_lt_inv in H0. lra.
  - apply Rmult_lt_compat_r; [now apply Rinv_0_lt_compat|].
    apply exp_increasing. lra.
Qed.

Lemma hard_class_argmax self xe m :
  hard_class self xe m = argmax (id_logits self (normed_encoding self xe) m).
Proof. apply hard_softmax_argmax. Qed.

(** C6: with mask_reg_cls0 enabled, every slot whose hard-argmax class is 0
    has charge, pt, eta, sin_phi, cos_phi and energy equal to 0. *)
Theorem class0_masks_regression
  (self : OutputDecoding) (X_input X_encoded X_encoded_energy msk_input : tensor3)
  (ret : Heads) (b i : nat) (xi xe xee m : list R) :
  OutputDecoding_call self X_input X_encoded X_encoded_energy msk_input = Ok ret ->
  mask_reg_cls0 self = true ->
  slot X_input b i = Some xi -> slot X_encoded b i = Some xe ->
  slot X_encoded_energy b i = Some xee -> slot msk_input b i = Some m ->
  hard_class self xe (hd 0 m) = Ok 0%nat ->
  slot (charge ret) b i = Some [0] /\ slot (pt ret) b i = Some [0] /\
  slot (eta ret) b i = Some [0] /\ slot (sin_phi ret) b i = Some [0] /\
  slot (cos_phi ret) b i = Some [0] /\ slot (energy ret) b i = Some [0].
Proof.
  intros Hcall Hmask H1 H2 H3 H4 Hc.
  pose proof (@OutputDecoding_call_slot _ _ _ _ _ _ b i Hcall) as Hs.
  rewrite H1, H2, H3, H4 in Hs.
  destruct Hs as (h & Hh & _ & Hch & Hpt & Heta & Hsin & Hcos & Hen).
  destruct (@elem_zero_when_class0 _ _ _ _ _ _ Hh Hmask Hc)
    as (Z1 & Z2 & Z3 & Z4 & Z5 & Z6).
  rewrite Hch, Hpt, Heta, Hsin, Hcos, Hen, Z1, Z2, Z3, Z4, Z5, Z6.
  repeat split; reflexivity.
Qed.

Ltac tf_cbn :=
  cbn -[Rplus Rmult Ropp Rminus Rdiv Rinv exp ln sqrt cosh sinh sin cos Rmax Rmin
        Rabs IZR INR Rlt_dec Rle_dec Req_dec_T pow Int_part].

Lemma dec_example_runs :
  exists ret,
    OutputDecoding_call dec_example [[raw_example]] [[[1]]] [[[1]]] [[[1]]] = Ok ret.
Proof.
  eexists. unfold OutputDecoding_call, dec_example, raw_example.
  cbn [map4 mapM bind hd].
  unfold OutputDecoding_call_elem. tf_cbn. reflexivity.
Qed.

Lemma dec_example_class0 : hard_class dec_example [1] 1 = Ok 0%nat.
Proof.
  rewrite hard_class_argmax. unfold id_logits, normed_encoding, dec_example.
  tf_cbn. decide_reals. reflexivity.
Qed.

Lemma class0_masks_regression_witness :
  exists ret,
    OutputDecoding_call dec_example [[raw_example]] [[[1]]] [[[1]]] [[[1]]] = Ok ret /\
    mask_reg_cls0 dec_example = true /\
    hard_class dec_example [1] (hd 0 [1]) = Ok 0%nat /\
    slot (charge ret) 0 0 = Some [0] /\ slot (pt ret) 0 0 = Some [0] /\
    slot (eta ret) 0 0 = Some [0] /\ slot (sin_phi ret) 0 0 = Some [0] /\
    slot (cos_phi ret) 0 0 = Some [0] /\ slot (energy ret) 0 0 = Some [0].
Proof.
  destruct dec_example_runs as [ret Hret]. exists ret.
  split; [exact Hret|]. split; [reflexivity|]. split; [exact dec_example_class0|].
  exact (@class0_masks_regression dec_example
           [[raw_example]] [[[1]]] [[[1]]] [[[1]]] ret 0 0 raw_example [1] [1] [1]
           Hret eq_refl eq_refl eq_refl eq_refl eq_refl dec_example_class0).
Defined.

(** ** Padded slots *)

Lemma OutputDecoding_padded_slot self Xi Xe Xee M ret b i m :
  OutputDecoding_call self Xi Xe Xee M = Ok ret ->
  slot M b i = Some m -> hd 0 m = 0 ->
  padded_heads ret b i.
Proof.
  intros Hcall Hm Hz.
  pose proof (@OutputDecoding_call_slot _ _ _ _ _ _ b i Hcall) as Hs.
  rewrite Hm in Hs. unfold padded_heads.
  destruct (slot Xi b i) as [xi|];
    [|destruct Hs as (-> & -> & -> & -> & -> & -> & ->);
      repeat split; intros; discriminate].
  destruct (slot Xe b i) as [xe|];
    [|destruct Hs as (-> & -> & -> & -> & -> & -> & ->);
      repeat split; intros; discriminate].
  destruct (slot Xee b i) as [xee|];
    [|destruct Hs as (-> & -> & -> & -> & -> & -> & ->);
      repeat split; intros; discriminate].
  destruct Hs as (h & Hh & -> & -> & -> & -> & -> & -> & ->).
  rewrite Hz in Hh.
  destruct (@elem_zero_when_masked _ _ _ _ _ Hh) as (Z1 & Z2 & Z3 & Z4 & Z5 & Z6).
  rewrite Z1, Z2, Z3, Z4, Z5, Z6.
  repeat split; intros v Hv; inversion Hv; subst; try reflexivity.
  rewrite (@elem_cls _ _ _ _ _ _ Hh). unfold id_logits.
  rewrite softmax_zero_logits. now rewrite repeat_length.
Qed.

Lemma padding_mask_slot X b i row :
  slot X b i = Some row -> nth 0 row 0 = 0 ->
  slot (map (map (fun m : bool => [bool_to_R m])) (padding_mask X)) b i = Some [0].
Proof.
  intros Hs Hz. unfold padding_mask. rewrite !slot_map, Hs. cbn [option_map].
  rewrite Hz. destruct (Req_dec_T 0 0) as [_|N]; [reflexivity | now elim N].
Qed.

Lemma PFNetDense_padded_slot (self : PFNetDense) (X : tensor3) ret b i row :
  PFNetDense_call self X = Ok (MultiOutput ret) ->
  slot X b i = Some row -> nth 0 row 0 = 0 ->
  padded_heads ret b i.
Proof.
  unfold PFNetDense_call. intros H Hs Hz.
  destruct (InputEncoder_call _ _) as [enc0|]; cbn [bind] in H; [|discriminate].
  destruct (run_tower (cg self) _ _) as [encs|]; cbn [bind] in H; [|discriminate].
  destruct (concat_last _) as [dec_cat|]; cbn [bind] in H; [|discriminate].
  destruct (run_tower (cg_energy self) _ _) as [encs_energy|]; cbn [bind] in H;
    [|discriminate].
  destruct (concat_last _) as [energy_cat|]; cbn [bind] in H; [|discriminate].
  destruct (OutputDecoding_call _ _ _ _ _) as [ret'|] eqn:Hdec; cbn [bind] in H;
    [|discriminate].
  destruct (multi_output self).
  - inversion H; subst ret'.
    eapply OutputDecoding_padded_slot;
      [exact Hdec | eapply padding_mask_slot; eauto | reflexivity].
  - destruct (concat_last _); cbn [bind] in H; discriminate.
Qed.

Lemma pfnet_example_runs :
  exists ret,
    PFNetDense_call pfnet_example X_example = Ok (MultiOutput ret) /\
    (exists c, slot (cls ret) 0 1 = Some c /\ length c = 2%nat) /\
    (exists v, slot (charge ret) 0 1 = Some v) /\
    (exists v, slot (pt ret) 0 1 = Some v) /\
    (exists v, slot (eta ret) 0 1 = Some v) /\
    (exists v, slot (sin_phi ret) 0 1 = Some v) /\
    (exists v, slot (cos_phi ret) 0 1 = Some v) /\
    (exists v, slot (energy ret) 0 1 = Some v).
Proof.
  eexists. split.
  - unfold PFNetDense_call, pfnet_example, X_example.
    cbn [padding_mask map nth]. decide_reals.
    cbn [enc InputEncoder_call mapM InputEncoding_call_elem length Nat.ltb Nat.leb
         bind tl app one_hot seq map cg run_tower skip_connection concat_last
         fold_left mul_mask map2 hd bool_to_R cg_energy].
    unfold CombinedGraphLayer_call.
    cbn [cg_example cg_do_layernorm cg_activation ffn_dist message_building_layer
         message_passing_layers].
    unfold MessageBuildingLayerLSH_call, lsh_unit_bins, floordiv.
    cbn -[Kernel_call mask_rows mask_cols Rplus Rmult Ropp Rminus Rdiv Rinv exp ln
          sqrt cosh sinh sin cos Rmax Rmin Rabs IZR INR Rlt_dec Rle_dec Req_dec_T
          pow Int_part trunc OutputDecoding_call split_indices_to_bins_batch gather
          reverse_lsh].
    unfold split_indices_to_bins_batch, bin_index.
    cbn [mapM argmax argmax_from bind map app].
    decide_reals.
    cbn -[Kernel_call mask_rows mask_cols Rplus Rmult Ropp Rminus Rdiv Rinv exp ln
          sqrt cosh sinh sin cos Rmax Rmin Rabs IZR INR Rlt_dec Rle_dec Req_dec_T
          pow Int_part trunc OutputDecoding_call].
    unfold OutputDecoding_call, pfnet_decoder.
    cbn [map4 mapM bind hd].
    unfold OutputDecoding_call_elem. tf_cbn. reflexivity.
  - cbn [cls charge pt eta sin_phi cos_phi energy slot nth_error].
    repeat split; eexists; try split; reflexivity.
Qed.

(** C1 as stated fails for the cls head: in the example the padded slot
    (event 0, slot 1) carries the class probabilities [1/2; 1/2]. *)
Lemma padded_slot_cls_not_zero :
  exists ret c,
    PFNetDense_call pfnet_example X_example = Ok (MultiOutput ret) /\
    slot X_example 0 1 = Some [0; 0; 0; 0; 0] /\
    slot (cls ret) 0 1 = Some c /\ c = [/ 2; / 2] /\ c <> [0; 0].
Proof.
  destruct pfnet_example_runs as (ret & Hrun & (c & Hc & Hlen) & _).
  exists ret, c. split; [exact Hrun|]. split; [reflexivity|]. split; [exact Hc|].
  assert (Hp : padded_heads ret 0 1).
  { apply (@PFNetDense_padded_slot pfnet_example X_example ret 0%nat 1%nat
             [0; 0; 0; 0; 0] Hrun); reflexivity. }
  destruct Hp as (_ & _ & _ & _ & _ & _ & Hcls).
  specialize (Hcls c Hc). rewrite Hlen in Hcls.
  assert (E : c = [/ 2; / 2]).
  { rewrite Hcls. cbn [repeat INR]. repeat f_equal; lra. }
  split; [exact E|]. rewrite E. intros H. inversion H. lra.
Qed.

(** C1 (amended): at every padded slot (X[b][i][0] = 0) of the forward pass of
    PFNetDense, the heads charge, pt, eta, sin_phi, cos_phi and energy are
    exactly [0], and the cls head is the uniform distribution over the
    classes (the softmax of zeroed logits). *)
Theorem padded_slots_regression_zero_cls_uniform
  (self : PFNetDense) (X : tensor3) (ret : Heads) (b i : nat) (row : list R) :
  PFNetDense_call self X = Ok (MultiOutput ret) ->
  slot X b i = Some row -> nth 0 row 0 = 0 ->
  (forall v, slot (charge ret) b i = Some v -> v = [0]) /\
  (forall v, slot (pt ret) b i = Some v -> v = [0]) /\
  (forall v, slot (eta ret) b i = Some v -> v = [0]) /\
  (forall v, slot (sin_phi ret) b i = Some v -> v = [0]) /\
  (forall v, slot (cos_phi ret) b i = Some v -> v = [0]) /\
  (forall v, slot (energy ret) b i = Some v -> v = [0]) /\
  (forall v, slot (cls ret) b i = Some v ->
             v = repeat (/ INR (length v)) (length v)).
Proof.
  intros H Hs Hz.
  exact (@PFNetDense_padded_slot self X ret b i row H Hs Hz).
Qed.

Lemma padded_slots_regression_zero_cls_uniform_witness :
  exists ret,
    PFNetDense_call pfnet_example X_example = Ok (MultiOutput ret) /\
    slot X_example 0 1 = Some [0; 0; 0; 0; 0] /\
    slot (charge ret) 0 1 = Some [0] /\ slot (pt ret) 0 1 = Some [0] /\
    slot (eta ret) 0 1 = Some [0] /\ slot (sin_phi ret) 0 1 = Some [0] /\
    slot (cos_phi ret) 0 1 = Some [0] /\ slot (energy ret) 0 1 = Some [0].
Proof.
  destruct pfnet_example_runs
    as (ret & Hrun & _ & (v1 & H1) & (v2 & H2) & (v3 & H3) & (v4 & H4)
        & (v5 & H5) & (v6 & H6)).
  exists ret. split; [exact Hrun|]. split; [reflexivity|].
  destruct (@padded_slots_regression_zero_cls_uniform pfnet_example X_example ret
              0%nat 1%nat [0; 0; 0; 0; 0] Hrun eq_refl eq_refl)
    as (Z1 & Z2 & Z3 & Z4 & Z5 & Z6 & _).
  rewrite <- (Z1 v1 H1) at 1. rewrite <- (Z2 v2 H2) at 1.
  rewrite <- (Z3 v3 H3) at 1. rewrite <- (Z4 v4 H4) at 1.
  rewrite <- (Z5 v5 H5) at 1. rewrite <- (Z6 v6 H6) at 1.
  repeat split; assumption.
Defined.

(** ** Trainable subsets *)

Lemma set_trainable_named_ignores_names self names1 names2 :
  OutputDecoding_set_trainable_named self names1
  = OutputDecoding_set_trainable_named self names2.
Proof. reflexivity. Qed.

(** C9 (code defect): after set_trainable_named(["ffn_id"]) every sublayer of
    the output decoder is trainable, and so are the weights of the charge and
    regression networks; the list of names passed in has no effect. *)
Theorem set_trainable_named_enables_every_decoder_layer :
  exists self',
    PFNetDense_set_trainable_named pfnet_layers ["ffn_id"%string] = inr self' /\
    map layer_name (filter layer_trainable (layers (pf_output_dec self')))
    = ["ffn_cls"; "ffn_charge"; "ffn_pt"; "ffn_eta"; "ffn_phi"; "ffn_energy"]%string /\
    In "ffn_charge_dense_0/kernel"%string (PFNetDense_trainable_variables self') /\
    In "ffn_energy_dense_3/bias"%string (PFNetDense_trainable_variables self') /\
    forall names, PFNetDense_set_trainable_named pfnet_layers names = inr self'.
Proof.
  eexists. split; [vm_compute; reflexivity|].
  split; [vm_compute; reflexivity|].
  split; [vm_compute; tauto|].
  split; [vm_compute; tauto|].
  intros names. vm_compute. reflexivity.
Qed.

(** ** Shapes through GHConvDense *)

Ltac shape_eval :=
  repeat (cbn -[Nat.eqb];
          rewrite ?Nat.eqb_refl;
          repeat match goal with
            | H : (_ =? _)%nat = false |- _ => rewrite !H
            end).

(** C10 as stated fails for batch size 1: with two bins of two elements the
    squeezed adjacency has rank 3, yet the call returns the shape
    (1, 2, 2, output_dim) of the feature tensor's layout. *)
Lemma GHConvDense_batch_one_shape_kept :
  squeeze [1; 2; 2; 2; 1]%nat = [2; 2; 2]%nat /\
  GHConvDense_call_shape
    {| hidden_dim := 3; output_dim := 4; normalize_degrees := true |}
    [1; 2; 2; 3]%nat [1; 2; 2; 2; 1]%nat [1; 2; 2; 1]%nat
  = Ok [1; 2; 2; 4]%nat.
Proof. split; reflexivity. Qed.

(** C10 (amended): tf.squeeze removes a size-1 batch or bin dimension of the
    adjacency together with the trailing kernel dimension.  With batch size 1
    broadcasting restores the leading dimension and the output has the shape
    (1, n_bins, bin_size, output_dim); with one bin and a batch of B > 1 the
    output has the shape (B, B, bin_size, output_dim) instead of
    (B, 1, bin_size, output_dim). *)
Theorem GHConvDense_squeeze_shapes (self : GHConvDense) (B nb n : nat) :
  (1 < B)%nat -> (1 < nb)%nat -> (1 < n)%nat ->
  squeeze [1; nb; n; n; 1]%nat = [nb; n; n] /\
  squeeze [B; 1; n; n; 1]%nat = [B; n; n] /\
  GHConvDense_call_shape self
    [1; nb; n; hidden_dim self]%nat [1; nb; n; n; 1]%nat [1; nb; n; 1]%nat
  = Ok [1; nb; n; output_dim self]%nat /\
  GHConvDense_call_shape self
    [B; 1; n; hidden_dim self]%nat [B; 1; n; n; 1]%nat [B; 1; n; 1]%nat
  = Ok [B; B; n; output_dim self] /\
  [B; B; n; output_dim self] <> [B; 1; n; output_dim self]%nat.
Proof.
  intros HB Hnb Hn.
  assert (E1 : (B =? 1)%nat = false) by (apply Nat.eqb_neq; lia).
  assert (E2 : (nb =? 1)%nat = false) by (apply Nat.eqb_neq; lia).
  assert (E3 : (n =? 1)%nat = false) by (apply Nat.eqb_neq; lia).
  assert (E4 : (1 =? B)%nat = false) by (apply Nat.eqb_neq; lia).
  assert (E5 : (1 =? nb)%nat = false) by (apply Nat.eqb_neq; lia).
  assert (E6 : (1 =? n)%nat = false) by (apply Nat.eqb_neq; lia).
  assert (Hne : forall a, a <> 1%nat -> (a =? 1)%nat = false /\ (1 =? a)%nat = false)
    by (intros; split; apply Nat.eqb_neq; lia).
  destruct self as [h o nd]. cbn [hidden_dim output_dim normalize_degrees].
  unfold GHConvDense_call_shape, squeeze, broadcast, matmul_shape, reduce_last,
    expand_last.
  cbn [hidden_dim output_dim normalize_degrees].
  repeat split.
  - shape_eval. reflexivity.
  - shape_eval. reflexivity.
  - destruct (Nat.eq_dec h 1) as [->|Hh]; [|destruct (Hne h Hh)];
      (destruct (Nat.eq_dec o 1) as [->|Ho]; [|destruct (Hne o Ho)]);
      destruct nd; shape_eval; reflexivity.
  - destruct (Nat.eq_dec h 1) as [->|Hh]; [|destruct (Hne h Hh)];
      (destruct (Nat.eq_dec o 1) as [->|Ho]; [|destruct (Hne o Ho)]);
      destruct nd; shape_eval; reflexivity.
  - intros H. inversion H. lia.
Qed.

Lemma GHConvDense_squeeze_shapes_witness :
  GHConvDense_call_shape
    {| hidden_dim := 3; output_dim := 4; normalize_degrees := true |}
    [1; 2; 2; 3]%nat [1; 2; 2; 2; 1]%nat [1; 2; 2; 1]%nat
  = Ok [1; 2; 2; 4]%nat /\
  GHConvDense_call_shape
    {| hidden_dim := 3; output_dim := 4; normalize_degrees := true |}
    [5; 1; 2; 3]%nat [5; 1; 2; 2; 1]%nat [5; 1; 2; 1]%nat
  = Ok [5; 5; 2; 4]%nat.
Proof.
  destruct (@GHConvDense_squeeze_shapes
              {| hidden_dim := 3; output_dim := 4; normalize_degrees := true |}
              5 2 2) as (_ & _ & H1 & H2 & _); try lia.
  split; [exact H1 | exact H2].
Defined.

(** ** Further facts about the transforms and the binning *)

(** Without the clip the two transforms are inverse on every E > -1. *)
Lemma exp_log_plus_one (E : R) : -1 < E -> exp (log_plus_one E) - 1 = E.
Proof. intros H. unfold log_plus_one. rewrite exp_ln by lra. lra. Qed.

(** The Xe feature of the CMS encoding is the transformed energy X[4]. *)
Lemma InputEncodingCMS_log_energy (c : nat) (X v : list R) :
  InputEncodingCMS_call_elem c X = Ok v ->
  nth (c + 8) v 0 = log_plus_one (nth 4 X 0).
Proof.
  unfold InputEncodingCMS_call_elem. destruct (length X <? 13)%nat; [discriminate|].
  intros H. inversion H; subst v; clear H.
  rewrite app_nth2 by (unfold one_hot; rewrite length_map, length_seq; lia).
  unfold one_hot. rewrite length_map, length_seq.
  replace (c + 8 - c)%nat with 8%nat by lia. reflexivity.
Qed.

(** With an even number of bins a real element hashed to the last code and a
    padding element hashed to the first share the key nbins - 1; the stable
    sort then keeps their input order. *)
Lemma equal_keys_keep_input_order :
  bin_index 2 [[[1; 0]; [0; 1]]] [[false; true]] = Ok [[1; 1]]%Z /\
  split_indices_to_bins_batch [[[1; 0]; [0; 1]]] 2 1 [[false; true]]
  = Ok [[[0]; [1]]]%nat.
Proof.
  unfold split_indices_to_bins_batch, bin_index.
  cbn [mapM argmax argmax_from bind]. decide_reals. split; reflexivity.
Qed.

(** ** The forward pass of the LSH layer succeeds on well-shaped inputs *)

Lemma vadd_length a b : length (vadd a b) = Nat.min (length a) (length b).
Proof. apply map2_length. Qed.

Lemma vec_mat_length width (x : list R) (W : list (list R)) :
  Forall (fun r => length r = width) W -> length (vec_mat width x W) = width.
Proof.
  unfold vec_mat. intros HW. revert x.
  induction HW as [|r W Hr _ IH]; intros [|a x]; cbn [combine fold_right fst snd];
    try apply repeat_length.
  rewrite vadd_length. unfold vscale at 1. rewrite length_map, Hr, (IH x).
  apply Nat.min_id.
Qed.

Lemma gather_sorted_bins_ok {A : Type} (d : A) nb bs n (bi : list (list Z)) :
  forall x : list (list A),
  length x = length bi -> Forall (fun ev => length ev = n) x ->
  Forall (fun v => length v = n) bi ->
  exists g, gather d x (map (fun v => chunks bs nb (argsort v)) bi) = Ok g.
Proof.
  intros x Hlen Hx Hbi. eexists. apply gather_ok.
  revert x Hlen Hx. induction Hbi as [|v bi Hv _ IH]; intros [|ev x] Hlen Hx;
    simpl in Hlen; try discriminate; simpl; constructor.
  - apply Forall_inv in Hx. rewrite Hx, <- Hv. apply chunks_argsort_bound.
  - apply IH; [lia | now apply Forall_inv_tail in Hx].
Qed.

Lemma MessageBuildingLayerLSH_call_runs
  (self : MessageBuildingLayerLSH) (B nbins dd c : nat)
  (x_msg x_node : list (list (list R))) (msk : list (list bool)) :
  (0 < B)%nat -> (0 < bin_size self)%nat -> (2 <= nbins)%nat ->
  (0 < dd)%nat -> (0 < c)%nat ->
  has_shape2 dd c (codebook_random_rotations self) ->
  length x_msg = B ->
  Forall (fun ev => length ev = (nbins * bin_size self)%nat) x_msg ->
  length x_node = B ->
  Forall (fun ev => length ev = (nbins * bin_size self)%nat) x_node ->
  has_shape2 B (nbins * bin_size self) msk ->
  exists bins x_binned dm msk_binned,
    MessageBuildingLayerLSH_call self x_msg x_node msk
    = Ok (bins, x_binned, dm, msk_binned) /\
    has_shape3 B nbins (bin_size self) bins.
Proof.
  intros HB Hbs Hnb Hdd Hc [Hcb1 Hcb2] Hx1 Hx2 Hn1 Hn2 Hm.
  unfold MessageBuildingLayerLSH_call, floordiv.
  destruct (Nat.eqb_spec (bin_size self) 0) as [E|_]; [lia|]. cbn [bind].
  assert (Hnp : length (hd [] x_msg) = (nbins * bin_size self)%nat).
  { destruct x_msg as [|ev t]; [simpl in Hx1; lia|]. now inversion Hx2. }
  rewrite Hnp, Nat.div_mul by lia.
  set (rot := map (firstn (nbins / 2)) (codebook_random_rotations self)).
  set (width := length (hd [] rot)).
  assert (Hdiv : (0 < nbins / 2)%nat)
    by (apply Nat.div_str_pos; lia).
  assert (Hrot : Forall (fun r => length r = Nat.min (nbins / 2) c) rot).
  { unfold rot. apply Forall_map. eapply Forall_impl; [|exact Hcb2].
    intros r Hr. simpl in Hr. now rewrite length_firstn, Hr. }
  assert (Hwidth : width = Nat.min (nbins / 2) c).
  { unfold width. destruct rot as [|r0 rot'] eqn:Er.
    - unfold rot in Er. apply map_eq_nil in Er. rewrite Er in Hcb1.
      simpl in Hcb1. lia.
    - now inversion Hrot. }
  set (cmul := map (map (fun v : list R => v ++ map Ropp v))
                 (map (map (fun x => vec_mat width x rot)) x_msg)).
  assert (Hc1 : length cmul = B) by (unfold cmul; now rewrite !length_map).
  assert (Hc2 : Forall (fun ev => length ev = (nbins * bin_size self)%nat) cmul).
  { unfold cmul. rewrite !Forall_map. eapply Forall_impl; [|exact Hx2].
    intros ev Hev. now rewrite !length_map. }
  assert (Hc3 : rows_nonempty cmul).
  { unfold rows_nonempty, cmul. rewrite !Forall_map.
    apply Forall_forall. intros ev _. rewrite !Forall_map.
    apply Forall_forall. intros row _ E.
    apply (f_equal (@length R)) in E. rewrite length_app, length_map in E.
    rewrite vec_mat_length in E by (rewrite Hwidth; exact Hrot).
    simpl in E. lia. }
  destruct (bin_index_shape nbins Hc1 Hc2 Hc3 Hm) as (bi & Hbi & Hsh).
  rewrite (@split_indices_ok nbins (bin_size self) B cmul msk bi Hc1 Hbi Hsh).
  cbn [bind]. destruct Hsh as [Hb1 Hb2].
  destruct (@gather_sorted_bins_ok _ [] nbins (bin_size self)
              (nbins * bin_size self) bi x_msg)
    as [g1 ->]; [congruence | exact Hx2 | exact Hb2 |].
  cbn [bind].
  destruct (@gather_sorted_bins_ok _ [] nbins (bin_size self)
              (nbins * bin_size self) bi x_node)
    as [g2 ->]; [congruence | exact Hn2 | exact Hb2 |].
  cbn [bind].
  destruct (@gather_sorted_bins_ok _ [] nbins (bin_size self)
              (nbins * bin_size self) bi
              (map (map (fun b : bool => [bool_to_R b])) msk))
    as [g3 ->].
  { destruct Hm as [Hm1 _]. rewrite length_map. congruence. }
  { destruct Hm as [_ Hm2]. apply Forall_map. eapply Forall_impl; [|exact Hm2].
    intros m Hlen. simpl in Hlen. now rewrite length_map. }
  { exact Hb2. }
  cbn [bind]. do 4 eexists. split; [reflexivity|].
  split; [now rewrite length_map|]. apply Forall_map.
  eapply Forall_impl; [|exact Hb2]. intros v Hv.
  apply chunks_shape. now rewrite argsort_length.
Qed.

(* ================================================================= *)
(** * Properties of the further components *)

(** ** Order of the elements inside the bins *)

Lemma insert_key_lex k i l :
  StronglySorted key_index_lt l -> Forall (fun q => (i < snd q)%nat) l ->
  StronglySorted key_index_lt (insert_key k i l).
Proof.
  induction 1 as [|[k' i'] t Ht IH Hall]; intros Hi; simpl.
  - repeat constructor.
  - inversion Hi as [|? ? Hi' Hit]; subst. simpl in Hi'.
    destruct (Z.leb_spec k k') as [Hle|Hgt].
    + constructor; [now constructor|]. constructor.
      * unfold key_index_lt; simpl. lia.
      * rewrite Forall_forall in *. intros q Hq.
        specialize (Hall q Hq). specialize (Hit q Hq).
        unfold key_index_lt in *; simpl in *. lia.
    + constructor; [now apply IH|].
      eapply Permutation_Forall; [symmetry; apply insert_key_perm|].
      constructor; [unfold key_index_lt; simpl; lia | exact Hall].
Qed.

Lemma sort_keys_lex (v : list Z) s :
  StronglySorted key_index_lt (sort_keys (combine v (seq s (length v)))).
Proof.
  revert s. induction v as [|k v IH]; intros s; simpl; [constructor|].
  apply insert_key_lex; [apply IH|].
  eapply Permutation_Forall; [symmetry; apply sort_keys_perm|].
  eapply Forall_impl; [|apply (combine_seq_keys v (S s))].
  intros [k' i'] [_ H]; simpl in *. lia.
Qed.

Lemma argsort_by_key_then_index v :
  StronglySorted (by_key_then_index v) (argsort v).
Proof.
  unfold argsort.
  assert (Hk : Forall (fun p => fst p = nth (snd p) v 0%Z)
                 (sort_keys (combine v (seq 0 (length v))))).
  { eapply Permutation_Forall; [symmetry; apply sort_keys_perm|].
    eapply Forall_impl; [|apply combine_seq_keys].
    intros [k i] [H _]; simpl in *. now rewrite Nat.sub_0_r in H. }
  pose proof (sort_keys_lex v 0) as Hs.
  revert Hk Hs. generalize (sort_keys (combine v (seq 0 (length v)))).
  induction l as [|[k i] l IH]; intros Hk Hs; simpl; [constructor|].
  inversion Hk as [|? ? Hki Hk']; subst. inversion Hs as [|? ? Hs' Hall]; subst.
  constructor; [now apply IH|].
  apply Forall_map. rewrite Forall_forall in *. intros [k' i'] Hin; simpl.
  specialize (Hall _ Hin). specialize (Hk' _ Hin).
  unfold by_key_then_index, key_index_lt in *. simpl in *. lia.
Qed.

(** X1 (model.py, split_indices_to_bins): on n_points = nbins * bin_size
    rows with at least one hash code each, the call returns nbins bins of
    bin_size indices that together list every index 0..n_points-1 once, and
    an element of an earlier bin never has a larger hash bin than an element
    of a later bin. *)
Theorem split_indices_to_bins_partition
  (cmul : mat) (nbins bin_size : nat) :
  length cmul = (nbins * bin_size)%nat ->
  Forall (fun row : vec => row <> []) cmul ->
  exists bin_idx bins,
    mapM argmax cmul = Ok bin_idx /\
    split_indices_to_bins cmul nbins bin_size = Ok bins /\
    has_shape2 nbins bin_size bins /\
    Permutation (concat bins) (seq 0 (nbins * bin_size)) /\
    forall b1 b2 bin1 bin2 i j,
      (b1 < b2)%nat -> nth_error bins b1 = Some bin1 -> nth_error bins b2 = Some bin2 ->
      In i bin1 -> In j bin2 -> (nth i bin_idx 0 <= nth j bin_idx 0)%nat.
Proof.
  intros Hlen Hne.
  destruct (@mapM_exists _ _ argmax cmul) as [am Ham].
  { eapply Forall_impl; [|exact Hne]. intros row Hr. now apply argmax_exists. }
  pose proof (mapM_length _ _ Ham) as Lam.
  set (v := map Z.of_nat am).
  assert (Lv : length (argsort v) = (nbins * bin_size)%nat).
  { rewrite argsort_length. unfold v. rewrite length_map. congruence. }
  exists am, (chunks bin_size nbins (argsort v)).
  split; [exact Ham|]. split.
  { unfold split_indices_to_bins. rewrite Ham. cbn [bind]. fold v.
    unfold reshape2. rewrite Lv, Nat.eqb_refl. reflexivity. }
  split; [now apply chunks_shape|].
  rewrite (concat_chunks _ _ _ Lv).
  split.
  { rewrite <- Lv, argsort_length. apply argsort_perm. }
  intros b1 b2 bin1 bin2 i j Hlt H1 H2 Hi Hj.
  assert (Hs : StronglySorted (fun i j => (nth i am 0 <= nth j am 0)%nat)
                 (concat (chunks bin_size nbins (argsort v)))).
  { rewrite (concat_chunks _ _ _ Lv).
    eapply StronglySorted_weaken
      with (R := fun i j => (nth i v 0 <= nth j v 0)%Z) (P := fun _ => True);
      [| apply Forall_forall; auto | apply argsort_sorted].
    intros a b _ _ Hab. unfold v in Hab.
    rewrite !(map_nth Z.of_nat am 0%nat) in Hab. lia. }
  exact (@sorted_concat_bins _ _ _ Hs b1 b2 bin1 bin2 i j Hlt H1 H2 Hi Hj).
Qed.

Lemma split_indices_to_bins_partition_witness :
  exists bin_idx bins,
    mapM argmax [[0; 1]; [1; 0]] = Ok bin_idx /\
    split_indices_to_bins [[0; 1]; [1; 0]] 2 1 = Ok bins /\
    has_shape2 2 1 bins /\
    Permutation (concat bins) (seq 0 (2 * 1)) /\
    forall b1 b2 bin1 bin2 i j,
      (b1 < b2)%nat -> nth_error bins b1 = Some bin1 -> nth_error bins b2 = Some bin2 ->
      In i bin1 -> In j bin2 -> (nth i bin_idx 0 <= nth j bin_idx 0)%nat.
Proof.
  apply (@split_indices_to_bins_partition [[0; 1]; [1; 0]] 2 1).
  - reflexivity.
  - repeat constructor; discriminate.
Defined.

(** X2 (model.py, split_indices_to_bins_batch): read bin after bin, the
    elements of every event come by ascending key (hash bin plus the padding
    offset), and elements with the same key by ascending index; an element
    of an earlier bin never has a larger key than one of a later bin. *)
Theorem bins_sorted_by_key_then_index
  (B nbins bs : nat) (cmul : tensor3) (msk : list (list bool)) :
  length cmul = B ->
  Forall (fun ev => length ev = (nbins * bs)%nat) cmul ->
  rows_nonempty cmul ->
  has_shape2 B (nbins * bs) msk ->
  exists bin_idx bins,
    bin_index nbins cmul msk = Ok bin_idx /\
    split_indices_to_bins_batch cmul nbins bs msk = Ok bins /\
    Forall2 (fun v ev =>
               bins_in_key_order v ev /\
               forall b1 b2 bin1 bin2 i j,
                 (b1 < b2)%nat ->
                 nth_error ev b1 = Some bin1 -> nth_error ev b2 = Some bin2 ->
                 In i bin1 -> In j bin2 -> (nth i v 0 <= nth j v 0)%Z)
      bin_idx bins.
Proof.
  intros HB Hn Hne Hm.
  destruct (bin_index_shape nbins HB Hn Hne Hm) as (bi & Hbi & Hsh).
  exists bi, (map (fun v => chunks bs nbins (argsort v)) bi).
  split; [exact Hbi|].
  split; [apply (@split_indices_ok nbins bs B cmul msk bi HB Hbi Hsh)|].
  destruct Hsh as [_ Hb2]. clear - Hb2.
  induction Hb2 as [|v bi Hv _ IH]; simpl; constructor; [|exact IH].
  assert (Lv : length (argsort v) = (nbins * bs)%nat)
    by (now rewrite argsort_length).
  assert (Hs : bins_in_key_order v (chunks bs nbins (argsort v))).
  { unfold bins_in_key_order. rewrite (concat_chunks _ _ _ Lv).
    apply argsort_by_key_then_index. }
  split; [exact Hs|].
  intros b1 b2 bin1 bin2 i j Hlt H1 H2 Hi Hj.
  pose proof (@sorted_concat_bins _ _ _ Hs b1 b2 bin1 bin2 i j Hlt H1 H2 Hi Hj) as Hij.
  unfold by_key_then_index, key_index_lt in Hij. simpl in Hij. lia.
Qed.

Lemma bins_sorted_by_key_then_index_witness :
  exists bin_idx bins,
    bin_index 2 [[[1; 0]; [0; 1]]] [[false; true]] = Ok bin_idx /\
    split_indices_to_bins_batch [[[1; 0]; [0; 1]]] 2 1 [[false; true]] = Ok bins /\
    Forall2 (fun v ev =>
               bins_in_key_order v ev /\
               forall b1 b2 bin1 bin2 i j,
                 (b1 < b2)%nat ->
                 nth_error ev b1 = Some bin1 -> nth_error ev b2 = Some bin2 ->
                 In i bin1 -> In j bin2 -> (nth i v 0 <= nth j v 0)%Z)
      bin_idx bins.
Proof.
  apply (@bins_sorted_by_key_then_index 1 2 1 [[[1; 0]; [0; 1]]] [[false; true]]).
  - reflexivity.
  - repeat constructor.
  - repeat constructor; discriminate.
  - split; [reflexivity | repeat constructor].
Defined.

(** ** Un-binning: rows that no bin refers to *)

Lemma nth_error_apply_at_other {A : Type} (f : A -> A) i j (l : list A) :
  i <> j -> nth_error (apply_at f i l) j = nth_error l j.
Proof.
  revert i j; induction l as [|a l IH]; intros [|i] [|j] Hij; simpl; auto;
    try congruence.
Qed.

Lemma scatter_event_untouched idx upd acc j :
  ~ In j idx -> nth_error (scatter_event idx upd acc) j = nth_error acc j.
Proof.
  unfold scatter_event. revert upd acc.
  induction idx as [|i idx IH]; intros [|u upd] acc Hj; simpl; auto.
  rewrite IH by (intros H; apply Hj; now right).
  apply nth_error_apply_at_other. intros ->. apply Hj. now left.
Qed.

Lemma nth_error_combine {A B : Type} (l : list A) (r : list B) i :
  nth_error (combine l r) i
  = match nth_error l i, nth_error r i with
    | Some a, Some b => Some (a, b)
    | _, _ => None
    end.
Proof.
  revert r i; induction l as [|a l IH]; intros [|b r] [|i]; simpl; auto.
  destruct (nth_error l i); reflexivity.
Qed.

Lemma nth_error_repeat_lt {A : Type} (a : A) n i :
  (i < n)%nat -> nth_error (repeat a n) i = Some a.
Proof.
  revert i; induction n as [|n IH]; intros [|i] Hi; simpl; try lia; auto.
  apply IH; lia.
Qed.

(** X3 (model.py, reverse_lsh): on well-shaped inputs whose indices are in
    range the call returns a (batch, n_points, ...) tensor, and every row
    whose index occurs in no bin of its event is all zeros: scatter_nd
    writes into a zero tensor and touches only the listed indices. *)
Theorem reverse_lsh_unreferenced_rows_zero
  (B nb bs nf : nat) (bins : list (list (list nat))) (P : tensor4) :
  has_shape3 B nb bs bins -> has_shape4 B nb bs nf P ->
  Forall (Forall (fun i => (i < nb * bs)%nat)) (map (@concat nat) bins) ->
  exists out,
    reverse_lsh bins P = Ok out /\
    length out = B /\
    Forall (fun ev => length ev = (nb * bs)%nat) out /\
    forall a ev j,
      nth_error bins a = Some ev -> (j < nb * bs)%nat -> ~ In j (concat ev) ->
      exists row, slot out a j = Some row /\ Forall (fun v => v = 0) row.
Proof.
  intros Hb HP Hidx.
  destruct (reverse_lsh_unfold Hb HP Hidx) as (nf' & _ & Hr).
  eexists. split; [exact Hr|].
  destruct Hb as [Hb1 Hb2]. destruct HP as [HP1 HP2].
  assert (Lc : length (combine (map (@concat nat) bins) (map (@concat (list R)) P)) = B).
  { rewrite length_combine, !length_map. lia. }
  split.
  { rewrite map2_length, Lc. unfold zeros3. rewrite repeat_length. lia. }
  split.
  { apply Forall_forall. intros ev Hev.
    apply map2_In in Hev. destruct Hev as ([idx upd] & z & _ & Hz & ->).
    rewrite scatter_event_length. unfold zeros3 in Hz.
    apply repeat_spec in Hz. subst z. apply repeat_length. }
  intros a ev j Ha Hj Hnot.
  assert (HaB : (a < B)%nat).
  { rewrite <- Hb1. apply nth_error_Some. congruence. }
  destruct (nth_error P a) as [Pa|] eqn:EP.
  2:{ apply nth_error_None in EP. lia. }
  exists (repeat 0 nf'). split.
  - unfold slot. rewrite nth_error_map2, nth_error_combine, !nth_error_map, Ha, EP.
    cbn [option_map]. unfold zeros3. rewrite nth_error_repeat_lt by exact HaB.
    cbn [fst snd]. rewrite scatter_event_untouched by exact Hnot.
    now apply nth_error_repeat_lt.
  - apply Forall_forall. intros v Hv. now apply repeat_spec in Hv.
Qed.

Lemma reverse_lsh_unreferenced_rows_zero_witness :
  exists out,
    reverse_lsh [[[0%nat]; [0%nat]]] [[[[1; 2]]; [[3; 4]]]] = Ok out /\
    length out = 1%nat /\
    Forall (fun ev => length ev = (2 * 1)%nat) out /\
    forall a ev j,
      nth_error [[[0%nat]; [0%nat]]] a = Some ev -> (j < 2 * 1)%nat ->
      ~ In j (concat ev) ->
      exists row, slot out a j = Some row /\ Forall (fun v => v = 0) row.
Proof.
  apply (@reverse_lsh_unreferenced_rows_zero 1 2 1 2
           [[[0%nat]; [0%nat]]] [[[[1; 2]]; [[3; 4]]]]).
  - split; [reflexivity|]. repeat constructor.
  - split; [reflexivity|]. repeat constructor.
  - simpl. repeat constructor.
Defined.

(** ** Shapes through the LSH layer *)

Lemma gather_sorted_bins_eq {A : Type} (d : A) nb bs n (bi : list (list Z)) :
  forall x : list (list A),
  length x = length bi -> Forall (fun ev => length ev = n) x ->
  Forall (fun v => length v = n) bi ->
  gather d x (map (fun v => chunks bs nb (argsort v)) bi)
  = Ok (map2 (fun p ix => map (map (fun i => nth i p d)) ix) x
          (map (fun v => chunks bs nb (argsort v)) bi)).
Proof.
  intros x Hlen Hx Hbi. apply gather_ok.
  revert x Hlen Hx. induction Hbi as [|v bi Hv _ IH]; intros [|ev x] Hlen Hx;
    simpl in Hlen; try discriminate; simpl; constructor.
  - apply Forall_inv in Hx. rewrite Hx, <- Hv. apply chunks_argsort_bound.
  - apply IH; [lia | now apply Forall_inv_tail in Hx].
Qed.

Lemma MessageBuildingLayerLSH_call_unfold
  (self : MessageBuildingLayerLSH) (B nbins dd c : nat)
  (x_msg x_node : tensor3) (msk : list (list bool)) :
  (0 < B)%nat -> (0 < bin_size self)%nat -> (2 <= nbins)%nat ->
  (0 < dd)%nat -> (0 < c)%nat ->
  has_shape2 dd c (codebook_random_rotations self) ->
  length x_msg = B ->
  Forall (fun ev => length ev = (nbins * bin_size self)%nat) x_msg ->
  length x_node = B ->
  Forall (fun ev => length ev = (nbins * bin_size self)%nat) x_node ->
  has_shape2 B (nbins * bin_size self) msk ->
  exists bi,
    has_shape2 B (nbins * bin_size self) bi /\
    MessageBuildingLayerLSH_call self x_msg x_node msk
    = let bins := map (fun v => chunks (bin_size self) nbins (argsort v)) bi in
      let binned (t : tensor3) :=
        map2 (fun p ix => map (map (fun i => nth i p [])) ix) t bins in
      let msk_b := binned (map (map (fun b : bool => [bool_to_R b])) msk) in
      Ok (bins, binned x_node,
          mask_cols (mask_rows (Kernel_call (kernel self) (binned x_msg))
                       (squeeze_last msk_b))
            (squeeze_last msk_b),
          msk_b).
Proof.
  intros HB Hbs Hnb Hdd Hc [Hcb1 Hcb2] Hx1 Hx2 Hn1 Hn2 Hm.
  unfold MessageBuildingLayerLSH_call, floordiv.
  destruct (Nat.eqb_spec (bin_size self) 0) as [E|_]; [lia|]. cbn [bind].
  assert (Hnp : length (hd [] x_msg) = (nbins * bin_size self)%nat).
  { destruct x_msg as [|ev t]; [simpl in Hx1; lia|]. now inversion Hx2. }
  rewrite Hnp, Nat.div_mul by lia.
  set (rot := map (firstn (nbins / 2)) (codebook_random_rotations self)).
  set (width := length (hd [] rot)).
  assert (Hdiv : (0 < nbins / 2)%nat)
    by (apply Nat.div_str_pos; lia).
  assert (Hrot : Forall (fun r => length r = Nat.min (nbins / 2) c) rot).
  { unfold rot. apply Forall_map. eapply Forall_impl; [|exact Hcb2].
    intros r Hr. simpl in Hr. now rewrite length_firstn, Hr. }
  assert (Hwidth : width = Nat.min (nbins / 2) c).
  { unfold width. destruct rot as [|r0 rot'] eqn:Er.
    - unfold rot in Er. apply map_eq_nil in Er. rewrite Er in Hcb1.
      simpl in Hcb1. lia.
    - now inversion Hrot. }
  set (cmul := map (map (fun v : list R => v ++ map Ropp v))
                 (map (map (fun x => vec_mat width x rot)) x_msg)).
  assert (Hc1 : length cmul = B) by (unfold cmul; now rewrite !length_map).
  assert (Hc2 : Forall (fun ev => length ev = (nbins * bin_size self)%nat) cmul).
  { unfold cmul. rewrite !Forall_map. eapply Forall_impl; [|exact Hx2].
    intros ev Hev. now rewrite !length_map. }
  assert (Hc3 : rows_nonempty cmul).
  { unfold rows_nonempty, cmul. rewrite !Forall_map.
    apply Forall_forall. intros ev _. rewrite !Forall_map.
    apply Forall_forall. intros row _ E.
    apply (f_equal (@length R)) in E. rewrite length_app, length_map in E.
    rewrite vec_mat_length in E by (rewrite Hwidth; exact Hrot).
    simpl in E. lia. }
  destruct (bin_index_shape nbins Hc1 Hc2 Hc3 Hm) as (bi & Hbi & Hsh).
  exists bi. split; [exact Hsh|].
  rewrite (@split_indices_ok nbins (bin_size self) B cmul msk bi Hc1 Hbi Hsh).
  cbn [bind]. destruct Hsh as [Hb1 Hb2].
  rewrite (@gather_sorted_bins_eq _ [] nbins (bin_size self)
             (nbins * bin_size self) bi x_msg)
    by (congruence || assumption).
  cbn [bind].
  rewrite (@gather_sorted_bins_eq _ [] nbins (bin_size self)
             (nbins * bin_size self) bi x_node)
    by (congruence || assumption).
  cbn [bind].
  rewrite (@gather_sorted_bins_eq _ [] nbins (bin_size self)
             (nbins * bin_size self) bi
             (map (map (fun b : bool => [bool_to_R b])) msk)).
  - reflexivity.
  - destruct Hm as [Hm1 _]. rewrite length_map. congruence.
  - destruct Hm as [_ Hm2]. apply Forall_map. eapply Forall_impl; [|exact Hm2].
    intros m Hmm. now rewrite length_map.
  - exact Hb2.
Qed.

Lemma has_shape2_map {A B : Type} (f : A -> B) d0 d1 (t : list (list A)) :
  has_shape2 d0 d1 t -> has_shape2 d0 d1 (map (map f) t).
Proof.
  intros [H1 H2]. split; [now rewrite length_map|].
  apply Forall_map. eapply Forall_impl; [|exact H2].
  intros r Hr. now rewrite length_map.
Qed.

Lemma map2_Forall {A B C : Type} (f : A -> B -> C) (P : A -> Prop) (Q : B -> Prop)
  (S : C -> Prop) l r :
  (forall a b, P a -> Q b -> S (f a b)) ->
  Forall P l -> Forall Q r -> Forall S (map2 f l r).
Proof.
  intros Hf HP. revert r. induction HP as [|a l Pa _ IH]; intros [|b r] HQ;
    simpl; constructor; inversion HQ; subst; auto.
Qed.

Lemma map2_shape {A B C : Type} (f : A -> B -> C) n l r :
  length l = n -> length r = n -> length (map2 f l r) = n.
Proof. intros Hl Hr. rewrite map2_length. lia. Qed.

(** Rank-4 and rank-5 shapes counted down to the rows / to the entries. *)
Lemma pair_table_shape {T : Type} (f : list R -> list R -> T) B nb bs (x : tensor4) :
  has_shape3 B nb bs x ->
  has_shape4 B nb bs bs
    (map (map (fun A => map (fun a => map (fun b => f a b) A) A)) x).
Proof.
  intros [H1 H2]. split; [now rewrite length_map|].
  apply Forall_map. eapply Forall_impl; [|exact H2].
  intros ev [E1 E2]. split; [now rewrite length_map|].
  apply Forall_map. eapply Forall_impl; [|exact E2].
  intros A HA. simpl in HA. split; [now rewrite length_map|].
  apply Forall_map, Forall_forall. intros a _. now rewrite length_map.
Qed.

Lemma Kernel_call_shape k B nb bs (x : tensor4) :
  has_shape3 B nb bs x -> has_shape4 B nb bs bs (Kernel_call k x).
Proof.
  intros Hx. destruct k as [lo mult|ffn act]; simpl.
  - rewrite gaussian_kernel_table. now apply pair_table_shape.
  - unfold NodePairTrainableKernel_call, pairwise_learnable_dist.
    rewrite map2_diag.
    rewrite (map_ext _ _ (fun a => map2_diag _ a)).
    rewrite map_map.
    rewrite (map_ext _ (map (fun A => map (fun a => map (fun b =>
               map act (Sequential_call ffn (a ++ b))) A) A))).
    + now apply pair_table_shape.
    + intros ev. rewrite !map_map. apply map_ext. intros A.
      rewrite !map_map. apply map_ext. intros a. rewrite !map_map. reflexivity.
Qed.

Lemma mask_rows_shape B nb bs (dm : tensor5) (m : tensor3) :
  has_shape4 B nb bs bs dm -> has_shape3 B nb bs m ->
  has_shape4 B nb bs bs (mask_rows dm m).
Proof.
  intros [D1 D2] [M1 M2]. unfold mask_rows.
  split; [now apply map2_shape|].
  eapply map2_Forall; [| exact D2 | exact M2].
  intros d mm [E1 E2] [N1 N2]. split; [now apply map2_shape|].
  eapply map2_Forall; [| exact E2 | exact N2].
  intros A mv [A1 A2] Lm. simpl in Lm. split; [now apply map2_shape|].
  eapply map2_Forall with (Q := fun _ => True);
    [| exact A2 | apply Forall_forall; auto].
  intros row mi Hrow _. simpl in *. now rewrite length_map.
Qed.

Lemma mask_cols_shape B nb bs (dm : tensor5) (m : tensor3) :
  has_shape4 B nb bs bs dm -> has_shape3 B nb bs m ->
  has_shape4 B nb bs bs (mask_cols dm m).
Proof.
  intros [D1 D2] [M1 M2]. unfold mask_cols.
  split; [now apply map2_shape|].
  eapply map2_Forall; [| exact D2 | exact M2].
  intros d mm [E1 E2] [N1 N2]. split; [now apply map2_shape|].
  eapply map2_Forall; [| exact E2 | exact N2].
  intros A mv [A1 A2] Lm. simpl in Lm. split; [now rewrite length_map|].
  apply Forall_map. eapply Forall_impl; [|exact A2].
  intros row Hrow. simpl in Hrow. now apply map2_shape.
Qed.

Lemma squeeze_last_shape B nb bs k (t : tensor4) :
  has_shape4 B nb bs k t -> has_shape3 B nb bs (squeeze_last t).
Proof.
  intros [H1 H2]. unfold squeeze_last. split; [now rewrite length_map|].
  apply Forall_map. eapply Forall_impl; [|exact H2].
  intros ev [E1 E2]. split; [now rewrite length_map|].
  apply Forall_map. eapply Forall_impl; [|exact E2].
  intros A [A1 _]. now rewrite length_map.
Qed.

Lemma has_shape4_rows {A : Type} B nb bs k (t : list (list (list (list A)))) :
  has_shape4 B nb bs k t -> has_shape3 B nb bs t.
Proof.
  intros [H1 H2]. split; [exact H1|].
  eapply Forall_impl; [|exact H2].
  intros ev [E1 E2]. split; [exact E1|].
  eapply Forall_impl; [|exact E2]. now intros A0 [A1 _].
Qed.

(** X4 (model.py, MessageBuildingLayerLSH.call): on a batch of B events of
    n_bins * bin_size elements (n_bins >= 2, a non-empty codebook) the call
    succeeds and returns bins of shape (B, n_bins, bin_size), binned
    features of shape (B, n_bins, bin_size, F), an affinity tensor with
    bin_size x bin_size entries per bin, and a binned mask of shape
    (B, n_bins, bin_size, 1). *)
Theorem MessageBuildingLayerLSH_call_shapes
  (self : MessageBuildingLayerLSH) (B nbins dd c nf : nat)
  (x_msg x_node : tensor3) (msk : list (list bool)) :
  (0 < B)%nat -> (0 < bin_size self)%nat -> (2 <= nbins)%nat ->
  (0 < dd)%nat -> (0 < c)%nat ->
  has_shape2 dd c (codebook_random_rotations self) ->
  length x_msg = B ->
  Forall (fun ev => length ev = (nbins * bin_size self)%nat) x_msg ->
  has_shape3 B (nbins * bin_size self) nf x_node ->
  has_shape2 B (nbins * bin_size self) msk ->
  exists bins x_binned dm msk_binned,
    MessageBuildingLayerLSH_call self x_msg x_node msk
    = Ok (bins, x_binned, dm, msk_binned) /\
    has_shape3 B nbins (bin_size self) bins /\
    has_shape4 B nbins (bin_size self) nf x_binned /\
    has_shape4 B nbins (bin_size self) (bin_size self) dm /\
    has_shape4 B nbins (bin_size self) 1 msk_binned.
Proof.
  intros HB Hbs Hnb Hdd Hc Hcb Hx1 Hx2 [Hn1 Hn2] Hm.
  assert (Hn2' : Forall (fun ev => length ev = (nbins * bin_size self)%nat) x_node).
  { eapply Forall_impl; [|exact Hn2]. now intros ev [He _]. }
  destruct (@MessageBuildingLayerLSH_call_unfold self B nbins dd c x_msg x_node msk
              HB Hbs Hnb Hdd Hc Hcb Hx1 Hx2 Hn1 Hn2' Hm) as (bi & [Hb1 Hb2] & Hcall).
  cbv zeta in Hcall. do 4 eexists. split; [exact Hcall|].
  set (bs := bin_size self) in *.
  assert (Hmb : has_shape4 B nbins bs 1
                  (map2 (fun p ix => map (map (fun i => nth i p [])) ix)
                     (map (map (fun b : bool => [bool_to_R b])) msk)
                     (map (fun v => chunks bs nbins (argsort v)) bi))).
  { destruct Hm as [Hm1 Hm2].
    pose proof (@gathered_shape nbins bs 1 bi
                  (map (map (fun b : bool => [bool_to_R b])) msk)) as G.
    rewrite length_map, Hm1 in G. apply G; [| exact Hb2 | congruence].
    apply Forall_map. eapply Forall_impl; [|exact Hm2].
    intros m Hmm. split; [now rewrite length_map|].
    apply Forall_map, Forall_forall. intros b _. reflexivity. }
  split.
  { split; [now rewrite length_map|]. apply Forall_map.
    eapply Forall_impl; [|exact Hb2]. intros v Hv.
    apply chunks_shape. now rewrite argsort_length. }
  split.
  { pose proof (@gathered_shape nbins bs nf bi x_node Hn2 Hb2) as G.
    rewrite Hn1 in G. apply G. congruence. }
  split; [|exact Hmb].
  apply mask_cols_shape; [apply mask_rows_shape|];
    try (apply squeeze_last_shape with (k := 1%nat); exact Hmb).
  apply Kernel_call_shape.
  (* the rows of the binned message features, whatever their width *)
  clear - Hx1 Hx2 Hb1 Hb2.
  assert (Hlen : length x_msg = length bi) by congruence.
  rewrite <- Hx1. clear Hx1 Hb1.
  revert x_msg Hlen Hx2. induction Hb2 as [|v bi Hv _ IH]; intros [|x0 x] Hlen Hx2;
    simpl in Hlen; try discriminate.
  - split; constructor.
  - inversion Hx2 as [|? ? Hx0 Hx']; subst.
    destruct (IH x) as [I1 I2]; [lia | exact Hx' |].
    split; simpl; [now rewrite I1|]. constructor; [|exact I2].
    assert (Hc : has_shape2 nbins bs (chunks bs nbins (argsort v)))
      by (apply chunks_shape; rewrite argsort_length; exact Hv).
    destruct Hc as [Hc1 Hc2]. split; [now rewrite length_map|].
    apply Forall_map. eapply Forall_impl; [|exact Hc2].
    intros r Hr. simpl in Hr. now rewrite length_map.
Qed.

Lemma MessageBuildingLayerLSH_call_shapes_witness :
  exists bins x_binned dm msk_binned,
    MessageBuildingLayerLSH_call lsh_unit_bins [[[1]; [0]]] [[[1]; [0]]] [[true; false]]
    = Ok (bins, x_binned, dm, msk_binned) /\
    has_shape3 1 2 (bin_size lsh_unit_bins) bins /\
    has_shape4 1 2 (bin_size lsh_unit_bins) 1 x_binned /\
    has_shape4 1 2 (bin_size lsh_unit_bins) (bin_size lsh_unit_bins) dm /\
    has_shape4 1 2 (bin_size lsh_unit_bins) 1 msk_binned.
Proof.
  apply (@MessageBuildingLayerLSH_call_shapes lsh_unit_bins 1 2 1 2 1
           [[[1]; [0]]] [[[1]; [0]]] [[true; false]]).
  - lia.
  - simpl; lia.
  - lia.
  - lia.
  - lia.
  - split; [reflexivity | repeat constructor].
  - reflexivity.
  - repeat constructor.
  - split; [reflexivity|]. repeat constructor.
  - split; [reflexivity | repeat constructor].
Defined.

(** ** A graph layer without message passing *)

Lemma reverse_lsh_gathered B nb bs nf (bi : list (list Z)) (x : tensor3) :
  has_shape2 B (nb * bs) bi -> has_shape3 B (nb * bs) nf x ->
  reverse_lsh (map (fun v => chunks bs nb (argsort v)) bi)
    (map2 (fun p ix => map (map (fun i => nth i p [])) ix) x
       (map (fun v => chunks bs nb (argsort v)) bi))
  = Ok x.
Proof.
  intros [Hb1 Hb2] [Hx1 Hx2].
  assert (Hshape : has_shape3 B nb bs (map (fun v => chunks bs nb (argsort v)) bi)).
  { split; [now rewrite length_map|]. apply Forall_map.
    eapply Forall_impl; [|exact Hb2]. intros v Hv.
    apply chunks_shape. now rewrite argsort_length. }
  assert (Hflat : map (@concat nat) (map (fun v => chunks bs nb (argsort v)) bi)
                  = map argsort bi).
  { rewrite map_map. apply map_ext_in. intros v Hv.
    rewrite Forall_forall in Hb2.
    apply concat_chunks. rewrite argsort_length. now apply Hb2. }
  assert (Hlen : length x = length bi) by congruence.
  pose proof (@gathered_shape nb bs nf bi x Hx2 Hb2 Hlen) as HG. rewrite Hx1 in HG.
  destruct (reverse_lsh_unfold Hshape HG) as (nf' & Hnf & ->).
  - rewrite Hflat. apply Forall_map. eapply Forall_impl; [|exact Hb2].
    intros v Hv. simpl in Hv. apply Forall_forall. intros i Hi.
    rewrite <- Hv. now apply argsort_bound.
  - f_equal. rewrite <- Hx1.
    destruct (Nat.eq_dec B 0) as [E|E].
    + rewrite E in *. destruct x; [|discriminate]. destruct bi; [|discriminate].
      reflexivity.
    + apply (@scatter_gather_batch nb bs nf nf' bi x); auto.
      intros; apply Hnf; lia.
Qed.

Lemma LayerNormalization_call_length l (x : vec) :
  length (LayerNormalization_call l x)
  = Nat.min (Nat.min (length x) (length (ln_gamma l))) (length (ln_beta l)).
Proof.
  unfold LayerNormalization_call. cbv zeta.
  now rewrite vadd_length, map2_length, length_map.
Qed.

(** X5 (model.py, CombinedGraphLayer.call): a graph layer configured with
    no message-passing layer returns as its encoding the (optionally
    layer-normalised) input itself: binning the elements and un-binning
    them with reverse_lsh is the identity, whatever bins the hash
    projection chose. *)
Theorem CombinedGraphLayer_without_messages_is_identity
  (self : CombinedGraphLayer) (B nbins dd c nf : nat)
  (x : tensor3) (msk : list (list bool)) :
  message_passing_layers self = [] ->
  (0 < B)%nat -> (0 < bin_size (message_building_layer self))%nat ->
  (2 <= nbins)%nat -> (0 < dd)%nat -> (0 < c)%nat ->
  has_shape2 dd c (codebook_random_rotations (message_building_layer self)) ->
  has_shape3 B (nbins * bin_size (message_building_layer self)) nf x ->
  has_shape2 B (nbins * bin_size (message_building_layer self)) msk ->
  exists out,
    CombinedGraphLayer_call self x msk = Ok out /\
    out_enc out
    = (if cg_do_layernorm self
       then map (map (LayerNormalization_call (cg_layernorm self))) x else x) /\
    has_shape3 B nbins (bin_size (message_building_layer self)) (out_bins out).
Proof.
  intros Hmsg HB Hbs Hnb Hdd Hc Hcb Hx Hm.
  unfold CombinedGraphLayer_call. rewrite Hmsg.
  set (x' := if cg_do_layernorm self
             then map (map (LayerNormalization_call (cg_layernorm self))) x else x).
  assert (Hx' : exists nf', has_shape3 B
                  (nbins * bin_size (message_building_layer self)) nf' x').
  { unfold x'. destruct (cg_do_layernorm self); [|now exists nf].
    exists (Nat.min (Nat.min nf (length (ln_gamma (cg_layernorm self))))
              (length (ln_beta (cg_layernorm self)))).
    destruct Hx as [Hx1 Hx2]. split; [now rewrite length_map|].
    apply Forall_map. eapply Forall_impl; [|exact Hx2].
    intros ev [He1 He2]. split; [now rewrite length_map|].
    apply Forall_map. eapply Forall_impl; [|exact He2].
    intros r Hr. simpl in Hr. now rewrite LayerNormalization_call_length, Hr. }
  clearbody x'. clear Hx x. destruct Hx' as (nf' & Hx1 & Hx2).
  set (x_dist := map (map (fun r => map (cg_activation self)
                                      (Sequential_call (ffn_dist self) r))) x').
  assert (Hd1 : length x_dist = B) by (unfold x_dist; now rewrite length_map).
  assert (Hd2 : Forall (fun ev => length ev
                 = (nbins * bin_size (message_building_layer self))%nat) x_dist).
  { unfold x_dist. apply Forall_map. eapply Forall_impl; [|exact Hx2].
    intros ev [He _]. now rewrite length_map. }
  assert (Hx2' : Forall (fun ev => length ev
                 = (nbins * bin_size (message_building_layer self))%nat) x').
  { eapply Forall_impl; [|exact Hx2]. now intros ev [He _]. }
  destruct (@MessageBuildingLayerLSH_call_unfold (message_building_layer self)
              B nbins dd c x_dist x' msk HB Hbs Hnb Hdd Hc Hcb Hd1 Hd2 Hx1 Hx2' Hm)
    as (bi & Hbi & ->).
  cbv zeta. cbn [bind run_messages].
  rewrite (@reverse_lsh_gathered B nbins (bin_size (message_building_layer self)) nf' bi x'
             Hbi (conj Hx1 Hx2)).
  cbn [bind]. eexists. split; [reflexivity|]. cbn [out_enc out_bins].
  split; [reflexivity|].
  destruct Hbi as [Hb1 Hb2].
  split; [now rewrite length_map|]. apply Forall_map.
  eapply Forall_impl; [|exact Hb2]. intros v Hv.
  apply chunks_shape. now rewrite argsort_length.
Qed.

Lemma CombinedGraphLayer_without_messages_is_identity_witness :
  exists out,
    CombinedGraphLayer_call cg_example [[[1; 2; 3; 4; 5]; [0; 0; 0; 0; 0]]]
      [[true; false]] = Ok out /\
    out_enc out = [[[1; 2; 3; 4; 5]; [0; 0; 0; 0; 0]]] /\
    has_shape3 1 2 (bin_size (message_building_layer cg_example)) (out_bins out).
Proof.
  apply (@CombinedGraphLayer_without_messages_is_identity cg_example 1 2 1 2 5
           [[[1; 2; 3; 4; 5]; [0; 0; 0; 0; 0]]] [[true; false]]).
  - reflexivity.
  - lia.
  - simpl; lia.
  - lia.
  - lia.
  - lia.
  - split; [reflexivity | repeat constructor].
  - split; [reflexivity|]. repeat constructor.
  - split; [reflexivity | repeat constructor].
Defined.

(** ** Events with fewer than two bins *)

Lemma vec_mat_no_columns (x : vec) (W : mat) :
  Forall (fun r => length r = 0%nat) W -> vec_mat 0 x W = [].
Proof.
  intros HW. apply length_zero_iff_nil. now apply vec_mat_length.
Qed.

(** X26 (model.py, MessageBuildingLayerLSH.call): the hash codes are taken
    from the first n_bins // 2 columns of the codebook.  A non-empty batch
    whose events have fewer than two bins of elements
    (0 < n_points < 2 * bin_size) therefore has no hash code at all, and
    the call raises in the argmax of split_indices_to_bins_batch. *)
Theorem MessageBuildingLayerLSH_call_needs_two_bins
  (self : MessageBuildingLayerLSH) (B n : nat)
  (x_msg x_node : tensor3) (msk : list (list bool)) :
  (0 < B)%nat -> (0 < n)%nat -> (0 < bin_size self)%nat ->
  length x_msg = B -> Forall (fun ev => length ev = n) x_msg ->
  (n / bin_size self < 2)%nat ->
  MessageBuildingLayerLSH_call self x_msg x_node msk = Err EmptyReduction.
Proof.
  intros HB Hn Hbs Hx1 Hx2 Hnb.
  unfold MessageBuildingLayerLSH_call, floordiv.
  destruct (Nat.eqb_spec (bin_size self) 0) as [E|_]; [lia|]. cbn [bind].
  destruct x_msg as [|ev x_msg]; [simpl in Hx1; lia|].
  apply Forall_inv in Hx2. cbn [hd]. rewrite Hx2.
  rewrite (Nat.div_small (n / bin_size self) 2) by exact Hnb.
  destruct ev as [|x ev]; [simpl in Hx2; lia|].
  set (rot := map (firstn 0) (codebook_random_rotations self)).
  assert (Hrot : Forall (fun r => length r = 0%nat) rot).
  { unfold rot. apply Forall_map, Forall_forall. intros r _. reflexivity. }
  assert (Hw : length (hd [] rot) = 0%nat).
  { destruct rot as [|r rot']; [reflexivity|]. now apply Forall_inv in Hrot. }
  rewrite Hw. unfold split_indices_to_bins_batch, bin_index.
  cbn [map mapM]. rewrite (vec_mat_no_columns x Hrot). reflexivity.
Qed.

Lemma MessageBuildingLayerLSH_call_needs_two_bins_witness :
  MessageBuildingLayerLSH_call lsh_example [[[1]; [2]]] [[[1]; [2]]] [[true; true]]
  = Err EmptyReduction.
Proof.
  apply (@MessageBuildingLayerLSH_call_needs_two_bins lsh_example 1 2).
  - lia.
  - lia.
  - simpl; lia.
  - reflexivity.
  - repeat constructor.
  - simpl. lia.
Defined.

(** ** Sigmoid kernel *)

Lemma sigmoid_range x : 0 < sigmoid x < 1.
Proof.
  unfold sigmoid. pose proof (exp_pos (- x)) as He.
  split.
  - apply Rdiv_lt_0_compat; lra.
  - apply Rmult_lt_reg_r with (r := 1 + exp (- x)); [lra|].
    unfold Rdiv. rewrite Rmult_assoc, Rinv_l by lra. lra.
Qed.

(** X6 (model.py, pairwise_sigmoid_dist): every entry of the sigmoid
    affinity lies strictly between 0 and 1, and the affinity of a tensor
    with itself is symmetric in the two element indices. *)
Theorem pairwise_sigmoid_dist_range_symmetric (A B : tensor3) :
  Forall (Forall (Forall (fun v => 0 < v < 1))) (pairwise_sigmoid_dist A B) /\
  forall n i j,
    entry3 (pairwise_sigmoid_dist A A) n i j
    = entry3 (pairwise_sigmoid_dist A A) n j i.
Proof.
  split.
  - unfold pairwise_sigmoid_dist. apply Forall_forall. intros ev Hev.
    apply map2_In in Hev. destruct Hev as (a & b & _ & _ & ->).
    apply Forall_map, Forall_forall. intros ai _.
    apply Forall_map, Forall_forall. intros bj _. apply sigmoid_range.
  - intros n i j. unfold entry3, pairwise_sigmoid_dist.
    rewrite map2_diag.
    rewrite (@nth_map_default _ _
               (fun a => map (fun ai => map (fun bj => sigmoid (dot ai bj)) a) a)
               A n [] []) by reflexivity.
    rewrite !(nth_table (fun a b => sigmoid (dot a b))).
    rewrite andb_comm.
    destruct ((j <? length (nth n A []))%nat && (i <? length (nth n A []))%nat);
      [|reflexivity].
    now rewrite dot_comm.
Qed.

(** ** NodeMessageLearnable at masked slots *)

Lemma slot3_map {A B : Type} (f : A -> B) (t : list (list (list A))) a b i :
  slot3 (map (map (map f)) t) a b i = option_map f (slot3 t a b i).
Proof.
  unfold slot3. rewrite nth_error_map.
  destruct (nth_error t a) as [ev|]; cbn [option_map]; [apply slot_map | reflexivity].
Qed.

Lemma slot3_map2 {A B C : Type} (f : A -> B -> C) t u a b i :
  slot3 (map2 (map2 (map2 f)) t u) a b i
  = match slot3 t a b i, slot3 u a b i with
    | Some x, Some y => Some (f x y)
    | _, _ => None
    end.
Proof.
  unfold slot3. rewrite nth_error_map2.
  destruct (nth_error t a) as [ev|]; [|reflexivity].
  destruct (nth_error u a) as [eu|].
  - apply slot_map2.
  - now destruct (slot ev b i).
Qed.

(** X7 (model.py, NodeMessageLearnable.call): the mask is applied to the
    input of the feed-forward net, not to its output.  At a slot whose mask
    entry is 0 the returned row is activation(ffn(0, ..., 0)): it does not
    depend on the slot's features or affinities, and is whatever the biases
    make it rather than zero. *)
Theorem NodeMessageLearnable_masked_slot_constant
  (self : NodeMessageLearnable) (x : tensor4) (adj : tensor5) (msk : tensor4)
  (a b i : nat) (m r : vec) :
  slot3 msk a b i = Some m -> hd 0 m = 0 ->
  slot3 (NodeMessageLearnable_call self x adj msk) a b i = Some r ->
  exists xi av mx,
    slot3 x a b i = Some xi /\
    slot3 (aggregate_messages (nml_aggregation_direction self) reduce_mean_rows adj)
      a b i = Some av /\
    slot3 (aggregate_messages (nml_aggregation_direction self) reduce_max_rows adj)
      a b i = Some mx /\
    r = map (nml_activation self)
          (Sequential_call (nml_ffn self)
             (repeat 0 (length xi + length av + length mx))).
Proof.
  intros Hm Hm0 Hr. unfold NodeMessageLearnable_call in Hr. cbv zeta in Hr.
  rewrite slot3_map in Hr. unfold mul_mask in Hr.
  rewrite !slot3_map2, Hm in Hr.
  destruct (slot3 x a b i) as [xi|]; [|discriminate].
  destruct (slot3 (aggregate_messages _ reduce_mean_rows adj) a b i) as [av|];
    [|discriminate].
  destruct (slot3 (aggregate_messages _ reduce_max_rows adj) a b i) as [mx|];
    [|discriminate].
  cbn [option_map] in Hr. inversion Hr; subst r; clear Hr.
  exists xi, av, mx. repeat split. do 2 f_equal.
  rewrite Hm0, (@map_const _ _ (fun v => v * 0) 0) by (intros; lra).
  now rewrite !length_app, Nat.add_assoc.
Qed.

Lemma NodeMessageLearnable_masked_slot_constant_witness :
  exists r xi av mx,
    slot3 (NodeMessageLearnable_call nml_example [[[[5]]]] [[[[[7]]]]] [[[[0]]]]) 0 0 0
    = Some r /\
    slot3 [[[[5]]]] 0 0 0 = Some xi /\
    slot3 (aggregate_messages (nml_aggregation_direction nml_example)
             reduce_mean_rows [[[[[7]]]]]) 0 0 0 = Some av /\
    slot3 (aggregate_messages (nml_aggregation_direction nml_example)
             reduce_max_rows [[[[[7]]]]]) 0 0 0 = Some mx /\
    r = map (nml_activation nml_example)
          (Sequential_call (nml_ffn nml_example)
             (repeat 0 (length xi + length av + length mx))).
Proof.
  eexists.
  assert (H := @NodeMessageLearnable_masked_slot_constant nml_example
                 [[[[5]]]] [[[[[7]]]]] [[[[0]]]] 0 0 0 [0] _
                 eq_refl eq_refl eq_refl).
  destruct H as (xi & av & mx & H1 & H2 & H3 & H4).
  exists xi, av, mx. split; [reflexivity|].
  split; [exact H1|]. split; [exact H2|]. split; [exact H3 | exact H4].
Defined.

(** ** Input encodings *)

Lemma one_hot_length i depth : length (one_hot i depth) = depth.
Proof. unfold one_hot. now rewrite length_map, length_seq. Qed.

Lemma one_hot_sum_from (i : Z) s n :
  rsum (map (fun c => if (Z.of_nat c =? i)%Z then 1 else 0) (seq s n))
  = if ((Z.of_nat s <=? i)%Z && (i <? Z.of_nat (s + n))%Z)%bool then 1 else 0.
Proof.
  revert s. induction n as [|n IH]; intros s.
  - cbn [seq map rsum fold_right].
    destruct (Z.leb_spec (Z.of_nat s) i), (Z.ltb_spec i (Z.of_nat (s + 0)));
      simpl; try reflexivity; lia.
  - cbn [seq map]. change (rsum (?a :: ?l)) with (a + rsum l). rewrite IH.
    destruct (Z.eqb_spec (Z.of_nat s) i) as [E|E];
      destruct (Z.leb_spec (Z.of_nat (S s)) i), (Z.ltb_spec i (Z.of_nat (S s + n)));
      destruct (Z.leb_spec (Z.of_nat s) i), (Z.ltb_spec i (Z.of_nat (s + S n)));
      simpl; try lra; lia.
Qed.

Lemma one_hot_sum i depth :
  rsum (one_hot i depth)
  = if ((0 <=? i)%Z && (i <? Z.of_nat depth)%Z)%bool then 1 else 0.
Proof. unfold one_hot. now rewrite one_hot_sum_from. Qed.

Lemma trunc_IZR z : trunc (IZR z) = z.
Proof.
  unfold trunc. destruct (Rle_dec 0 (IZR z)) as [H|H].
  - symmetry. apply Int_part_spec. lra.
  - rewrite <- opp_IZR. rewrite <- (Int_part_spec (IZR (- z)) (- z)) by lra. lia.
Qed.

(** X8 (model.py, InputEncoding.call and InputEncodingCMS.call): on a
    (B, n, F) batch with at least the features the encoder reads (1, resp.
    13), the call succeeds and returns a (B, n, ...) tensor whose last axis
    has num_input_classes + F - 1 entries for InputEncoding and
    num_input_classes + 18 + F entries for InputEncodingCMS. *)
Theorem InputEncoder_call_shape (enc : InputEncoder) (B n F : nat) (X : tensor3) :
  has_shape3 B n F X ->
  (match enc with InputEncodingCMS _ => 13 | InputEncoding _ => 1 end <= F)%nat ->
  exists out,
    InputEncoder_call enc X = Ok out /\
    has_shape3 B n
      (match enc with
       | InputEncodingCMS c => c + 18 + F
       | InputEncoding c => c + F - 1
       end) out.
Proof.
  intros [H1 H2] HF.
  assert (Hev : forall W (f : vec -> result vec),
             (forall x, length x = F -> exists v, f x = Ok v /\ length v = W) ->
             exists out, mapM (mapM f) X = Ok out /\ has_shape3 B n W out).
  { intros W f Hf. subst B. clear HF.
    induction H2 as [|ev X [He1 He2] _ (out & Ho & [L1 L2])].
    - exists []. simpl. repeat split; constructor.
    - assert (Hrow : exists o, mapM f ev = Ok o /\ has_shape2 n W o).
      { subst n. clear - He2 Hf.
        induction He2 as [|x ev Hx _ (o & Ho & [L1 L2])].
        - exists []. simpl. repeat split; constructor.
        - destruct (Hf x Hx) as (v & Hv & Lv). exists (v :: o). simpl.
          rewrite Hv, Ho. simpl. split; [reflexivity|].
          split; [simpl; congruence | now constructor]. }
      destruct Hrow as (o & Hor & So). exists (o :: out). simpl.
      rewrite Hor, Ho. simpl. split; [reflexivity|].
      split; [simpl; congruence | now constructor]. }
  destruct enc as [c|c]; simpl; apply Hev; intros x Hx.
  - unfold InputEncodingCMS_call_elem.
    destruct (Nat.ltb_spec (length x) 13) as [E|_]; [lia|].
    eexists. split; [reflexivity|].
    rewrite length_app, one_hot_length, length_app. simpl. lia.
  - unfold InputEncoding_call_elem.
    destruct (Nat.ltb_spec (length x) 1) as [E|_]; [lia|].
    eexists. split; [reflexivity|].
    rewrite length_app, one_hot_length. destruct x; simpl in *; lia.
Qed.

Lemma InputEncoder_call_shape_witness :
  exists out,
    InputEncoder_call (InputEncoding 2) X_example = Ok out /\
    has_shape3 1 2 (2 + 5 - 1) out.
Proof.
  apply (@InputEncoder_call_shape (InputEncoding 2) 1 2 5 X_example).
  - split; [reflexivity|]. repeat constructor.
  - lia.
Defined.

Lemma read_feature_ok (X : vec) k :
  (k < length X)%nat -> read_feature X k = Ok (nth k X 0).
Proof.
  intros Hk. unfold read_feature.
  destruct (nth_error X k) as [v|] eqn:E.
  - now rewrite (nth_error_nth X k 0 E).
  - apply nth_error_None in E. lia.
Qed.

Lemma read_feature_out (X : vec) k :
  (length X <= k)%nat -> read_feature X k = Err IndexOutOfRange.
Proof.
  intros Hk. unfold read_feature.
  now rewrite (proj2 (nth_error_None X k) Hk).
Qed.

Lemma read_feature_cases (X : vec) k :
  read_feature X k = Ok (nth k X 0) \/ read_feature X k = Err IndexOutOfRange.
Proof.
  destruct (Nat.lt_ge_cases k (length X)) as [H|H];
    [left; now apply read_feature_ok | right; now apply read_feature_out].
Qed.

Lemma InputEncodingCMS_reads_raise (c : nat) (X : vec) :
  (length X < 13)%nat -> InputEncodingCMS_call_reads c X = Err IndexOutOfRange.
Proof.
  intros HX. unfold InputEncodingCMS_call_reads.
  rewrite (@read_feature_out X 12) by lia.
  repeat match goal with
    | |- context [read_feature X ?k] =>
        destruct (read_feature_cases X k) as [-> | ->]; cbn [bind];
        try reflexivity
    end.
Qed.

Lemma mapM_ext {A B : Type} (f g : A -> result B) l :
  (forall a, f a = g a) -> mapM f l = mapM g l.
Proof.
  intros H. induction l as [|a l IH]; simpl; [reflexivity|].
  now rewrite H, IH.
Qed.

Lemma InputEncodingCMS_reads_agree (c : nat) (x : vec) :
  InputEncodingCMS_call_reads c x = InputEncodingCMS_call_elem c x.
Proof.
  unfold InputEncodingCMS_call_elem.
  destruct (Nat.ltb_spec (length x) 13) as [H|H].
  - now apply InputEncodingCMS_reads_raise.
  - unfold InputEncodingCMS_call_reads.
    rewrite !read_feature_ok by lia. reflexivity.
Qed.

Lemma InputEncoding_reads_agree (c : nat) (x : vec) :
  InputEncoding_call_reads c x = InputEncoding_call_elem c x.
Proof.
  unfold InputEncoding_call_reads, InputEncoding_call_elem, read_feature.
  destruct x as [|x0 x]; reflexivity.
Qed.

(** X9 (model.py, InputEncoding.call and InputEncodingCMS.call): with every
    index read X[:, :, k] of the source taken as a read that raises outside
    the feature axis (InputEncodingCMS reads the indices 4, 0, 1, 2, 3, 5,
    6, 10 and 12, InputEncoding reads index 0 and slices the rest), a
    non-empty batch whose elements have fewer than 13 features, resp. no
    feature, makes the encoder call raise an index error; and on every
    batch the checked reads give the result of the forward pass, so the
    encoders raise for no other reason. *)
Theorem InputEncoder_reads_out_of_range
  (enc : InputEncoder) (B n F : nat) (X : tensor3) :
  has_shape3 B n F X -> (0 < B)%nat -> (0 < n)%nat ->
  (F < match enc with InputEncodingCMS _ => 13 | InputEncoding _ => 1 end)%nat ->
  InputEncoder_call_reads enc X = Err IndexOutOfRange /\
  (forall X' : tensor3, InputEncoder_call_reads enc X' = InputEncoder_call enc X') /\
  (forall c x, (13 <= length x)%nat ->
     exists v, InputEncodingCMS_call_reads c x = Ok v) /\
  (forall c x, (1 <= length x)%nat ->
     exists v, InputEncoding_call_reads c x = Ok v).
Proof.
  intros [H1 H2] HB Hn HF. split; [|split; [|split]].
  - destruct X as [|ev X]; [simpl in H1; lia|].
    apply Forall_inv in H2. destruct H2 as [He1 He2].
    destruct ev as [|x ev]; [simpl in He1; lia|].
    apply Forall_inv in He2.
    destruct enc as [c|c]; cbn [InputEncoder_call_reads mapM].
    + rewrite InputEncodingCMS_reads_raise by lia. reflexivity.
    + unfold InputEncoding_call_reads.
      rewrite read_feature_out by lia. reflexivity.
  - intros X'. destruct enc as [c|c]; cbn [InputEncoder_call_reads InputEncoder_call];
      apply mapM_ext; intros ev; apply mapM_ext; intros x.
    + apply InputEncodingCMS_reads_agree.
    + apply InputEncoding_reads_agree.
  - intros c x Hx. unfold InputEncodingCMS_call_reads.
    rewrite !read_feature_ok by lia. cbn [bind]. eexists. reflexivity.
  - intros c x Hx. unfold InputEncoding_call_reads.
    rewrite read_feature_ok by lia. cbn [bind]. eexists. reflexivity.
Qed.

Lemma InputEncoder_reads_out_of_range_witness :
  InputEncoder_call_reads (InputEncodingCMS 2) X_example = Err IndexOutOfRange.
Proof.
  apply (@InputEncoder_reads_out_of_range (InputEncodingCMS 2) 1 2 5 X_example).
  - split; [reflexivity|]. repeat constructor.
  - lia.
  - lia.
  - lia.
Defined.

Lemma cosh_ge_1 x : 1 <= cosh x.
Proof.
  unfold cosh. pose proof (exp_pos x) as Hp.
  assert (He : exp x * exp (- x) = 1) by (rewrite <- exp_plus, Rplus_opp_r; apply exp_0).
  pose proof (exp_pos (- x)) as Hn.
  pose proof (Rle_0_sqr (exp x - exp (- x))) as Hsq. unfold Rsqr in Hsq.
  assert (H4 : 4 <= (exp x + exp (- x)) * (exp x + exp (- x))) by nra.
  assert (H2 : 2 <= exp x + exp (- x)) by nra.
  lra.
Qed.

Lemma nth_after_one_hot i c k (l : vec) :
  nth (c + k) (one_hot i c ++ l) 0 = nth k l 0.
Proof.
  rewrite app_nth2 by (rewrite one_hot_length; lia).
  rewrite one_hot_length. f_equal. lia.
Qed.

(** X10 (model.py, InputEncodingCMS.call): in the encoding of an element
    with num_input_classes = c, the first c entries are the one-hot type
    and sum to 1 exactly when the truncated type id lies in [0, c) (to 0
    otherwise); the clipped sinh(eta) lies in [-10, 10] and the clipped
    cosh(eta) in [1, 10], so the logarithm taken of it is defined and the
    transverse log-energy lies between log-energy - ln 10 and log-energy;
    the raw features follow unchanged after the 18 derived ones. *)
Theorem InputEncodingCMS_features (c : nat) (X v : vec) :
  InputEncodingCMS_call_elem c X = Ok v ->
  firstn c v = one_hot (trunc (nth 0 X 0)) c /\
  rsum (firstn c v)
  = (if ((0 <=? trunc (nth 0 X 0%R))%Z && (trunc (nth 0 X 0%R) <? Z.of_nat c)%Z)%bool
     then 1 else 0) /\
  -10 <= nth (c + 3) v 0 <= 10 /\
  1 <= nth (c + 4) v 0 <= 10 /\
  nth (c + 8) v 0 - ln 10 <= nth (c + 11) v 0 <= nth (c + 8) v 0 /\
  skipn (c + 18) v = X.
Proof.
  unfold InputEncodingCMS_call_elem. destruct (length X <? 13)%nat; [discriminate|].
  intros H. inversion H; subst v; clear H.
  set (oh := one_hot (trunc (nth 0 X 0)) c).
  assert (Hf : forall l, firstn c (oh ++ l) = oh).
  { intros l. rewrite firstn_app. unfold oh. rewrite one_hot_length, Nat.sub_diag.
    rewrite firstn_all2 by (rewrite one_hot_length; lia).
    apply app_nil_r. }
  rewrite Hf. split; [reflexivity|]. split; [apply one_hot_sum|].
  unfold oh. rewrite !nth_after_one_hot. cbn [nth].
  assert (Hs : -10 <= clip_by_value (sinh (nth 2 X 0)) (-10) 10 <= 10)
    by (apply clip_by_value_range; lra).
  assert (Hc : 1 <= clip_by_value (cosh (nth 2 X 0)) (-10) 10 <= 10).
  { pose proof (cosh_ge_1 (nth 2 X 0)) as H1.
    split; [|apply clip_by_value_range; lra].
    unfold clip_by_value.
    apply Rle_trans with (r2 := Rmin (cosh (nth 2 X 0)) 10); [|apply Rmax_l].
    apply Rmin_glb; lra. }
  split; [exact Hs|]. split; [exact Hc|]. split.
  - assert (H0 : 0 <= ln (clip_by_value (cosh (nth 2 X 0)) (-10) 10)).
    { destruct Hc as [[Hlt|Heq] _].
      - pose proof (ln_increasing _ _ Rlt_0_1 Hlt) as Hl. rewrite ln_1 in Hl. lra.
      - rewrite <- Heq, ln_1. lra. }
    assert (H1 : ln (clip_by_value (cosh (nth 2 X 0)) (-10) 10) <= ln 10).
    { destruct Hc as [Hlo [Hlt|Heq]].
      - left. apply ln_increasing; lra.
      - rewrite Heq. lra. }
    lra.
  - rewrite skipn_app, skipn_all2 by (rewrite one_hot_length; lia).
    rewrite one_hot_length. replace (c + 18 - c)%nat with 18%nat by lia.
    reflexivity.
Qed.

Lemma InputEncodingCMS_features_witness :
  exists v,
    InputEncodingCMS_call_elem 2 raw_example = Ok v /\
    firstn 2 v = one_hot (trunc (nth 0 raw_example 0)) 2 /\
    -10 <= nth (2 + 3) v 0 <= 10 /\
    1 <= nth (2 + 4) v 0 <= 10 /\
    nth (2 + 8) v 0 - ln 10 <= nth (2 + 11) v 0 <= nth (2 + 8) v 0 /\
    skipn (2 + 18) v = raw_example.
Proof.
  eexists. split; [reflexivity|].
  destruct (@InputEncodingCMS_features 2 raw_example _ eq_refl)
    as (H1 & _ & H3 & H4 & H5 & H6).
  split; [exact H1|]. split; [exact H3|]. split; [exact H4|].
  split; [exact H5 | exact H6].
Defined.

(** X11 (model.py, InputEncoding.call): for an element whose type id
    X[0] is the integer z, entry k < num_input_classes of the encoding is 1
    exactly when k = z (so an id outside the range gives an all-zero type
    block), and the remaining features X[1:] follow unchanged.  A padded
    all-zero row is therefore encoded as type 0, not as zeros. *)
Theorem InputEncoding_integer_type (c : nat) (X v : vec) (z : Z) :
  InputEncoding_call_elem c X = Ok v ->
  nth 0 X 0 = IZR z ->
  length v = (c + length X - 1)%nat /\
  (forall k, (k < c)%nat -> nth k v 0 = if (Z.of_nat k =? z)%Z then 1 else 0) /\
  skipn c v = tl X.
Proof.
  unfold InputEncoding_call_elem.
  destruct (Nat.ltb_spec (length X) 1) as [_|HX]; [discriminate|].
  intros H Hz. inversion H; subst v; clear H. rewrite Hz, trunc_IZR.
  split; [rewrite length_app, one_hot_length; destruct X; simpl in *; lia|].
  split.
  - intros k Hk. rewrite app_nth1 by (now rewrite one_hot_length).
    unfold one_hot.
    rewrite (nth_indep _ 0 ((fun c0 => if (Z.of_nat c0 =? z)%Z then 1 else 0) 0%nat))
      by (rewrite length_map, length_seq; exact Hk).
    rewrite (map_nth (fun c0 => if (Z.of_nat c0 =? z)%Z then 1 else 0)).
    now rewrite seq_nth.
  - rewrite skipn_app, skipn_all2 by (rewrite one_hot_length; lia).
    now rewrite one_hot_length, Nat.sub_diag.
Qed.

Lemma InputEncoding_integer_type_witness :
  exists v,
    InputEncoding_call_elem 2 [0; 0; 0; 0; 0] = Ok v /\
    length v = (2 + 5 - 1)%nat /\
    (forall k, (k < 2)%nat -> nth k v 0 = if (Z.of_nat k =? 0)%Z then 1 else 0) /\
    skipn 2 v = [0; 0; 0; 0].
Proof.
  eexists. split; [reflexivity|].
  apply (@InputEncoding_integer_type 2 [0; 0; 0; 0; 0] _ 0%Z); reflexivity.
Defined.

(** ** The class head as a probability distribution *)

Lemma rsum_scale (c : R) (l : vec) : rsum (map (fun x => x * c) l) = rsum l * c.
Proof.
  unfold rsum. induction l as [|x l IH]; simpl; [lra|]. rewrite IH. lra.
Qed.

Lemma softmax_entries (z : vec) :
  Forall (fun p => 0 < p <= 1) (softmax z).
Proof.
  unfold softmax. set (s := rsum (map exp z)).
  apply Forall_map, Forall_forall. intros c Hc.
  assert (Hent : 0 < exp c <= s).
  { apply rsum_pos_ge.
    - apply Forall_map, Forall_forall. intros; apply exp_pos.
    - apply in_map_iff. now exists c. }
  assert (Hs : 0 < s) by lra.
  assert (Hi : 0 < / s) by now apply Rinv_0_lt_compat.
  unfold Rdiv. split; [nra|].
  replace 1 with (s * / s) by (field; lra). nra.
Qed.

Lemma softmax_clip (z : vec) :
  map (fun p => clip_by_value p 0 1) (softmax z) = softmax z.
Proof.
  pose proof (softmax_entries z) as H.
  induction H as [|p l Hp _ IH]; simpl; [reflexivity|].
  rewrite IH, clip_by_value_inside by lra. reflexivity.
Qed.

Lemma softmax_sum (z : vec) : z <> [] -> rsum (softmax z) = 1.
Proof.
  intros Hz. unfold softmax. set (s := rsum (map exp z)).
  assert (Hs : 0 < s).
  { destruct z as [|x z]; [congruence|].
    assert (H : 0 < exp x <= s).
    { apply rsum_pos_ge.
      - apply Forall_map, Forall_forall. intros; apply exp_pos.
      - simpl. now left. }
    lra. }
  rewrite (map_ext _ (fun x => exp x * / s)) by reflexivity.
  rewrite <- (map_map exp (fun e => e * / s)), rsum_scale. fold s.
  field. lra.
Qed.

Lemma softmax_argmax (z : vec) : argmax (softmax z) = argmax z.
Proof.
  unfold softmax. set (s := rsum (map exp z)).
  apply argmax_map. intros a b Ha Hb.
  assert (Hs : 0 < s).
  { assert (H : 0 < exp a <= s).
    { apply rsum_pos_ge.
      - apply Forall_map, Forall_forall. intros; apply exp_pos.
      - apply in_map_iff. now exists a. }
    lra. }
  split; intros H.
  - assert (exp a < exp b).
    { apply Rmult_lt_reg_r with (r := / s); [now apply Rinv_0_lt_compat|].
      exact H. }
    now apply exp_lt_inv.
  - apply Rmult_lt_compat_r; [now apply Rinv_0_lt_compat|].
    now apply exp_increasing.
Qed.

Lemma cls_slot_inputs self Xi Xe Xee M ret b i p :
  OutputDecoding_call self Xi Xe Xee M = Ok ret ->
  slot (cls ret) b i = Some p ->
  exists xi xe xee m h,
    slot Xi b i = Some xi /\ slot Xe b i = Some xe /\
    slot Xee b i = Some xee /\ slot M b i = Some m /\
    OutputDecoding_call_elem self xi xe xee (hd 0 m) = Ok h /\
    p = softmax (id_logits self (normed_encoding self xe) (hd 0 m)) /\
    slot (charge ret) b i = Some [e_charge h] /\
    slot (pt ret) b i = Some [e_pt h] /\
    slot (eta ret) b i = Some [e_eta h] /\
    slot (sin_phi ret) b i = Some [e_sin_phi h] /\
    slot (cos_phi ret) b i = Some [e_cos_phi h] /\
    slot (energy ret) b i = Some [e_energy h].
Proof.
  intros Hcall Hp.
  pose proof (@OutputDecoding_call_slot _ _ _ _ _ _ b i Hcall) as Hs.
  destruct (slot Xi b i) as [xi|];
    [|destruct Hs as (E & _); rewrite E in Hp; discriminate].
  destruct (slot Xe b i) as [xe|];
    [|destruct Hs as (E & _); rewrite E in Hp; discriminate].
  destruct (slot Xee b i) as [xee|];
    [|destruct Hs as (E & _); rewrite E in Hp; discriminate].
  destruct (slot M b i) as [m|];
    [|destruct Hs as (E & _); rewrite E in Hp; discriminate].
  destruct Hs as (h & Hh & Hc & H1 & H2 & H3 & H4 & H5 & H6).
  exists xi, xe, xee, m, h. repeat (split; [solve [auto]|]).
  split; [|repeat split; assumption].
  rewrite Hc in Hp. inversion Hp; subst p.
  rewrite (@elem_cls _ _ _ _ _ _ Hh). apply softmax_clip.
Qed.

(** X12 (model.py, OutputDecoding.call): wherever the cls head has a slot,
    its entries lie in (0, 1] and, when there is at least one class, sum
    to 1; the clip to [0, 1] after the softmax changes nothing. *)
Theorem cls_head_is_distribution
  (self : OutputDecoding) (X_input X_encoded X_encoded_energy msk_input : tensor3)
  (ret : Heads) (b i : nat) (p : vec) :
  OutputDecoding_call self X_input X_encoded X_encoded_energy msk_input = Ok ret ->
  slot (cls ret) b i = Some p ->
  Forall (fun q => 0 < q <= 1) p /\ (p <> [] -> rsum p = 1).
Proof.
  intros Hcall Hp.
  destruct (@cls_slot_inputs _ _ _ _ _ _ _ _ _ Hcall Hp)
    as (xi & xe & xee & m & h & _ & _ & _ & _ & _ & -> & _).
  split; [apply softmax_entries|].
  intros Hne. apply softmax_sum. intros E. apply Hne.
  unfold softmax. now rewrite E.
Qed.

Lemma cls_head_is_distribution_witness :
  exists ret p,
    OutputDecoding_call dec_example [[raw_example]] [[[1]]] [[[1]]] [[[1]]] = Ok ret /\
    slot (cls ret) 0 0 = Some p /\
    Forall (fun q => 0 < q <= 1) p /\ (p <> [] -> rsum p = 1).
Proof.
  destruct dec_example_runs as (ret & Hrun).
  destruct (slot (cls ret) 0 0) as [p|] eqn:Hp.
  - exists ret, p. split; [exact Hrun|]. split; [exact Hp|].
    exact (@cls_head_is_distribution dec_example _ _ _ _ ret 0%nat 0%nat p Hrun Hp).
  - exfalso.
    pose proof (@OutputDecoding_call_slot _ _ _ _ _ _ 0%nat 0%nat Hrun) as Hs.
    cbn [slot nth_error] in Hs. destruct Hs as (h & _ & Hc & _).
    unfold slot in Hc, Hp. rewrite Hp in Hc. discriminate.
Defined.

(** X13 (model.py, OutputDecoding.call): the class read off the returned
    cls head by argmax is the hard class that gates the regression
    outputs.  With mask_reg_cls0 enabled, every slot whose argmax over cls
    is 0 has charge, pt, eta, sin_phi, cos_phi and energy equal to 0. *)
Theorem predicted_class0_has_zero_regression
  (self : OutputDecoding) (X_input X_encoded X_encoded_energy msk_input : tensor3)
  (ret : Heads) (b i : nat) (p : vec) :
  OutputDecoding_call self X_input X_encoded X_encoded_energy msk_input = Ok ret ->
  slot (cls ret) b i = Some p ->
  (exists xe m, slot X_encoded b i = Some xe /\ slot msk_input b i = Some m /\
                argmax p = hard_class self xe (hd 0 m)) /\
  (mask_reg_cls0 self = true -> argmax p = Ok 0%nat ->
   slot (charge ret) b i = Some [0] /\ slot (pt ret) b i = Some [0] /\
   slot (eta ret) b i = Some [0] /\ slot (sin_phi ret) b i = Some [0] /\
   slot (cos_phi ret) b i = Some [0] /\ slot (energy ret) b i = Some [0]).
Proof.
  intros Hcall Hp.
  destruct (@cls_slot_inputs _ _ _ _ _ _ _ _ _ Hcall Hp)
    as (xi & xe & xee & m & h & H1 & H2 & H3 & H4 & Hh & -> & Hch & Hpt & Heta
        & Hsin & Hcos & Hen).
  assert (Ha : argmax (softmax (id_logits self (normed_encoding self xe) (hd 0 m)))
               = hard_class self xe (hd 0 m))
    by (rewrite softmax_argmax, hard_class_argmax; reflexivity).
  split; [exists xe, m; auto|].
  intros Hmask Hc. rewrite Ha in Hc.
  destruct (@elem_zero_when_class0 _ _ _ _ _ _ Hh Hmask Hc)
    as (Z1 & Z2 & Z3 & Z4 & Z5 & Z6).
  rewrite Hch, Hpt, Heta, Hsin, Hcos, Hen, Z1, Z2, Z3, Z4, Z5, Z6.
  repeat split; reflexivity.
Qed.

Lemma predicted_class0_has_zero_regression_witness :
  exists ret p,
    OutputDecoding_call dec_example [[raw_example]] [[[1]]] [[[1]]] [[[1]]] = Ok ret /\
    slot (cls ret) 0 0 = Some p /\
    (exists xe m, slot [[[1]]] 0 0 = Some xe /\ slot [[[1]]] 0 0 = Some m /\
                  argmax p = hard_class dec_example xe (hd 0 m)) /\
    slot (energy ret) 0 0 = Some [0].
Proof.
  destruct dec_example_runs as (ret & Hrun).
  destruct (slot (cls ret) 0 0) as [p|] eqn:Hp.
  - exists ret, p. split; [exact Hrun|]. split; [exact Hp|].
    destruct (@predicted_class0_has_zero_regression dec_example _ _ _ _ ret
                0%nat 0%nat p Hrun Hp) as [Hex Hz].
    split; [exact Hex|].
    destruct Hex as (xe & m & Hxe & Hm & Ha).
    cbn [slot nth_error] in Hxe, Hm. inversion Hxe; subst xe. inversion Hm; subst m.
    apply Hz; [reflexivity|]. rewrite Ha. apply dec_example_class0.
  - exfalso.
    pose proof (@OutputDecoding_call_slot _ _ _ _ _ _ 0%nat 0%nat Hrun) as Hs.
    cbn [slot nth_error] in Hs. destruct Hs as (h & _ & Hc & _).
    unfold slot in Hc, Hp. rewrite Hp in Hc. discriminate.
Defined.

(** ** Single-output mode of PFNetDense *)

Lemma PFNetDense_call_modes (self : PFNetDense) (X : tensor3) :
  (forall ret, PFNetDense_call (with_multi_output true self) X = Ok (MultiOutput ret) ->
     PFNetDense_call (with_multi_output false self) X
     = Ok (SingleOutput
             (fold_left (map2 (map2 (@app R)))
                [charge ret; pt ret; eta ret; sin_phi ret; cos_phi ret; energy ret]
                (cls ret)))) /\
  (forall t, PFNetDense_call (with_multi_output false self) X = Ok (SingleOutput t) ->
     exists ret,
       PFNetDense_call (with_multi_output true self) X = Ok (MultiOutput ret) /\
       t = fold_left (map2 (map2 (@app R)))
             [charge ret; pt ret; eta ret; sin_phi ret; cos_phi ret; energy ret]
             (cls ret)).
Proof.
  unfold PFNetDense_call.
  cbn [with_multi_output multi_output skip_connection enc cg cg_energy output_dec].
  destruct (InputEncoder_call _ _) as [enc0|]; cbn [bind];
    [|split; [intros ? H | intros ? H]; discriminate].
  destruct (run_tower (cg self) _ _) as [encs|]; cbn [bind];
    [|split; [intros ? H | intros ? H]; discriminate].
  destruct (concat_last _) as [dec_cat|]; cbn [bind];
    [|split; [intros ? H | intros ? H]; discriminate].
  destruct (run_tower (cg_energy self) _ _) as [encs_energy|]; cbn [bind];
    [|split; [intros ? H | intros ? H]; discriminate].
  destruct (concat_last _) as [energy_cat|]; cbn [bind];
    [|split; [intros ? H | intros ? H]; discriminate].
  destruct (OutputDecoding_call _ _ _ _ _) as [ret'|]; cbn [bind];
    [|split; [intros ? H | intros ? H]; discriminate].
  cbn [concat_last bind]. split.
  - intros ret H. inversion H; subst. reflexivity.
  - intros t H. inversion H; subst. exists ret'. split; reflexivity.
Qed.

Lemma with_multi_output_same (self : PFNetDense) :
  with_multi_output (multi_output self) self = self.
Proof. now destruct self. Qed.

Lemma PFNetDense_call_single (self : PFNetDense) (X : tensor3) t :
  PFNetDense_call self X = Ok (SingleOutput t) ->
  PFNetDense_call (with_multi_output false self) X = Ok (SingleOutput t).
Proof.
  intros H. rewrite <- (with_multi_output_same self) in H.
  destruct (multi_output self) eqn:E; [|exact H].
  exfalso. revert H. unfold PFNetDense_call.
  cbn [with_multi_output multi_output skip_connection enc cg cg_energy output_dec].
  destruct (InputEncoder_call _ _); cbn [bind]; [|discriminate].
  destruct (run_tower (cg self) _ _); cbn [bind]; [|discriminate].
  destruct (concat_last _); cbn [bind]; [|discriminate].
  destruct (run_tower (cg_energy self) _ _); cbn [bind]; [|discriminate].
  destruct (concat_last _); cbn [bind]; [|discriminate].
  destruct (OutputDecoding_call _ _ _ _ _); cbn [bind]; discriminate.
Qed.

Lemma PFNetDense_heads_slots (self : PFNetDense) (X : tensor3) ret b i :
  PFNetDense_call self X = Ok (MultiOutput ret) ->
  match slot (cls ret) b i with
  | Some c =>
      exists q p e s co en,
        slot (charge ret) b i = Some [q] /\ slot (pt ret) b i = Some [p] /\
        slot (eta ret) b i = Some [e] /\ slot (sin_phi ret) b i = Some [s] /\
        slot (cos_phi ret) b i = Some [co] /\ slot (energy ret) b i = Some [en]
  | None =>
      slot (charge ret) b i = None /\ slot (pt ret) b i = None /\
      slot (eta ret) b i = None /\ slot (sin_phi ret) b i = None /\
      slot (cos_phi ret) b i = None /\ slot (energy ret) b i = None
  end.
Proof.
  unfold PFNetDense_call. intros H.
  destruct (InputEncoder_call _ _) as [enc0|]; cbn [bind] in H; [|discriminate].
  destruct (run_tower (cg self) _ _) as [encs|]; cbn [bind] in H; [|discriminate].
  destruct (concat_last _) as [dec_cat|]; cbn [bind] in H; [|discriminate].
  destruct (run_tower (cg_energy self) _ _) as [encs_energy|]; cbn [bind] in H;
    [|discriminate].
  destruct (concat_last _) as [energy_cat|]; cbn [bind] in H; [|discriminate].
  destruct (OutputDecoding_call _ _ _ _ _) as [ret'|] eqn:Hdec; cbn [bind] in H;
    [|discriminate].
  destruct (multi_output self);
    [|destruct (concat_last _); cbn [bind] in H; discriminate].
  inversion H; subst ret'; clear H.
  pose proof (@OutputDecoding_call_slot _ _ _ _ _ _ b i Hdec) as Hs.
  destruct (slot X b i);
    [|destruct Hs as (-> & -> & -> & -> & -> & -> & ->); repeat split].
  destruct (slot (mul_mask dec_cat _) b i);
    [|destruct Hs as (-> & -> & -> & -> & -> & -> & ->); repeat split].
  destruct (slot (mul_mask energy_cat _) b i);
    [|destruct Hs as (-> & -> & -> & -> & -> & -> & ->); repeat split].
  destruct (slot (map (map (fun b0 : bool => [bool_to_R b0])) (padding_mask X)) b i);
    [|destruct Hs as (-> & -> & -> & -> & -> & -> & ->); repeat split].
  destruct Hs as (h & _ & -> & -> & -> & -> & -> & -> & ->).
  do 6 eexists. repeat split; reflexivity.
Qed.

(** X14 (model.py, PFNetDense.call): with multi_output off the model
    returns, slot by slot, the concatenation of the heads of the
    multi-output model in the order cls, charge, pt, eta, sin_phi, cos_phi,
    energy: the class probabilities followed by six scalars. *)
Theorem PFNetDense_single_output_concatenates_heads
  (self : PFNetDense) (X : tensor3) (t : tensor3) :
  PFNetDense_call self X = Ok (SingleOutput t) ->
  exists ret,
    PFNetDense_call (with_multi_output true self) X = Ok (MultiOutput ret) /\
    forall b i,
      match slot (cls ret) b i with
      | Some c =>
          exists q p e s co en,
            slot (charge ret) b i = Some [q] /\ slot (pt ret) b i = Some [p] /\
            slot (eta ret) b i = Some [e] /\ slot (sin_phi ret) b i = Some [s] /\
            slot (cos_phi ret) b i = Some [co] /\ slot (energy ret) b i = Some [en] /\
            slot t b i = Some (c ++ [q; p; e; s; co; en])
      | None => slot t b i = None
      end.
Proof.
  intros H. apply PFNetDense_call_single in H.
  destruct (PFNetDense_call_modes self X) as [_ Hm].
  destruct (Hm t H) as (ret & Hret & ->). exists ret. split; [exact Hret|].
  intros b i. pose proof (@PFNetDense_heads_slots _ _ _ b i Hret) as Hs.
  cbn [fold_left]. rewrite !slot_map2.
  destruct (slot (cls ret) b i) as [c|].
  - destruct Hs as (q & p & e & s & co & en & H1 & H2 & H3 & H4 & H5 & H6).
    exists q, p, e, s, co, en. rewrite H1, H2, H3, H4, H5, H6.
    repeat (split; [reflexivity|]). f_equal.
    now rewrite <- !app_assoc.
  - reflexivity.
Qed.

Lemma PFNetDense_single_output_concatenates_heads_witness :
  exists t ret,
    PFNetDense_call (with_multi_output false pfnet_example) X_example
    = Ok (SingleOutput t) /\
    PFNetDense_call (with_multi_output true (with_multi_output false pfnet_example))
      X_example = Ok (MultiOutput ret) /\
    forall b i,
      match slot (cls ret) b i with
      | Some c =>
          exists q p e s co en,
            slot (charge ret) b i = Some [q] /\ slot (pt ret) b i = Some [p] /\
            slot (eta ret) b i = Some [e] /\ slot (sin_phi ret) b i = Some [s] /\
            slot (cos_phi ret) b i = Some [co] /\ slot (energy ret) b i = Some [en] /\
            slot t b i = Some (c ++ [q; p; e; s; co; en])
      | None => slot t b i = None
      end.
Proof.
  destruct pfnet_example_runs as (ret0 & Hrun & _).
  destruct (PFNetDense_call_modes pfnet_example X_example) as [Hs _].
  specialize (Hs ret0 Hrun). eexists.
  destruct (@PFNetDense_single_output_concatenates_heads
              (with_multi_output false pfnet_example) X_example _ Hs) as (ret & H1 & H2).
  exists ret. split; [exact Hs|]. split; [exact H1 | exact H2].
Defined.

(** X15 (model.py, PFNetDense.call): in single-output mode the row of a
    padded slot (X[b][i][0] = 0) is the uniform class distribution followed
    by six zeros. *)
Theorem PFNetDense_single_output_padded_slot
  (self : PFNetDense) (X : tensor3) (t : tensor3) (b i : nat) (row v : vec) :
  PFNetDense_call self X = Ok (SingleOutput t) ->
  slot X b i = Some row -> nth 0 row 0 = 0 ->
  slot t b i = Some v ->
  exists C, v = repeat (/ INR C) C ++ [0; 0; 0; 0; 0; 0].
Proof.
  intros H Hrow Hz Hv.
  apply PFNetDense_call_single in H.
  destruct (PFNetDense_call_modes self X) as [_ Hm].
  destruct (Hm t H) as (ret & Hret & ->).
  pose proof (@PFNetDense_heads_slots _ _ _ b i Hret) as Hs.
  pose proof (@PFNetDense_padded_slot _ _ _ b i row Hret Hrow Hz) as Hp.
  destruct Hp as (P1 & P2 & P3 & P4 & P5 & P6 & Pc).
  cbn [fold_left] in Hv. rewrite !slot_map2 in Hv.
  destruct (slot (cls ret) b i) as [c|]; [|discriminate].
  destruct Hs as (q & p & e & s & co & en & H1 & H2 & H3 & H4 & H5 & H6).
  rewrite H1, H2, H3, H4, H5, H6 in Hv. inversion Hv; subst v; clear Hv.
  specialize (P1 _ H1). specialize (P2 _ H2). specialize (P3 _ H3).
  specialize (P4 _ H4). specialize (P5 _ H5). specialize (P6 _ H6).
  inversion P1; inversion P2; inversion P3; inversion P4; inversion P5;
    inversion P6; subst.
  exists (length c). rewrite <- !app_assoc. cbn [app].
  f_equal. now apply Pc.
Qed.

Lemma PFNetDense_single_output_padded_slot_witness :
  exists t,
    PFNetDense_call (with_multi_output false pfnet_example) X_example
    = Ok (SingleOutput t) /\
    forall v, slot t 0 1 = Some v ->
      exists C, v = repeat (/ INR C) C ++ [0; 0; 0; 0; 0; 0].
Proof.
  destruct pfnet_example_runs as (ret0 & Hrun & _).
  destruct (PFNetDense_call_modes pfnet_example X_example) as [Hs _].
  specialize (Hs ret0 Hrun). eexists. split; [exact Hs|].
  intros v Hv.
  exact (@PFNetDense_single_output_padded_slot
           (with_multi_output false pfnet_example) X_example _ 0%nat 1%nat
           [0; 0; 0; 0; 0] v Hs eq_refl eq_refl Hv).
Defined.

(** X16 (model.py, PFNetDense.call): a model built with no energy graph
    layer (num_graph_layers_energy = 0), or with no common graph layer and
    no skip connection, cannot run: tf.concat is handed an empty list, and
    the forward pass raises on every input. *)
Theorem PFNetDense_call_needs_graph_layers (self : PFNetDense) (X : tensor3) :
  cg_energy self = [] \/ (skip_connection self = false /\ cg self = []) ->
  is_err (PFNetDense_call self X).
Proof.
  intros Hcfg. unfold PFNetDense_call.
  destruct (InputEncoder_call _ _) as [enc0|e]; cbn [bind]; [|now exists e].
  destruct Hcfg as [He|[Hs Hc]].
  - rewrite He.
    destruct (run_tower (cg self) _ _) as [encs|e]; cbn [bind]; [|now exists e].
    destruct (concat_last _) as [dec_cat|e]; cbn [bind]; [|now exists e].
    cbn [run_tower bind concat_last]. now eexists.
  - rewrite Hs, Hc. cbn [run_tower bind app concat_last]. now eexists.
Qed.

Lemma PFNetDense_call_needs_graph_layers_witness :
  is_err (PFNetDense_call
            {| multi_output := true; skip_connection := true; enc := InputEncoding 1;
               cg := []; cg_energy := []; output_dec := pfnet_decoder |}
            X_example).
Proof.
  apply PFNetDense_call_needs_graph_layers. left. reflexivity.
Defined.

(** ** Training targets and the regression loss mask *)

Lemma argmax_from_no_greater best_i best i (l : vec) :
  Forall (fun x => x <= best) l -> argmax_from best_i best i l = best_i.
Proof.
  revert i. induction l as [|x l IH]; intros i H; simpl; [reflexivity|].
  inversion H as [|? ? Hx Hl]; subst.
  destruct (Rlt_dec best x) as [L|_]; [lra|]. now apply IH.
Qed.

Lemma one_hot_tail_le (k : Z) s n :
  Forall (fun x => x <= 1)
    (map (fun c => if (Z.of_nat c =? k)%Z then 1 else 0) (seq s n)).
Proof.
  apply Forall_map, Forall_forall. intros c _.
  destruct (Z.of_nat c =? k)%Z; lra.
Qed.

Lemma argmax_from_one_hot (k : Z) n : forall s best_i,
  argmax_from best_i 0 s
    (map (fun c => if (Z.of_nat c =? k)%Z then 1 else 0) (seq s n))
  = if ((Z.of_nat s <=? k)%Z && (k <? Z.of_nat (s + n))%Z)%bool
    then Z.to_nat k else best_i.
Proof.
  induction n as [|n IH]; intros s best_i.
  - simpl. destruct (Z.leb_spec (Z.of_nat s) k), (Z.ltb_spec k (Z.of_nat (s + 0)));
      simpl; try reflexivity; lia.
  - cbn [seq map argmax_from].
    destruct (Z.eqb_spec (Z.of_nat s) k) as [E|E].
    + destruct (Rlt_dec 0 1) as [_|N]; [|exfalso; lra].
      rewrite argmax_from_no_greater by apply one_hot_tail_le.
      destruct (Z.leb_spec (Z.of_nat s) k), (Z.ltb_spec k (Z.of_nat (s + S n)));
        simpl; lia.
    + destruct (Rlt_dec 0 0) as [L|_]; [exfalso; lra|].
      rewrite IH.
      destruct (Z.leb_spec (Z.of_nat (S s)) k), (Z.ltb_spec k (Z.of_nat (S s + n)));
        destruct (Z.leb_spec (Z.of_nat s) k), (Z.ltb_spec k (Z.of_nat (s + S n)));
        simpl; try reflexivity; lia.
Qed.

(** The argmax of a one-hot row recovers an in-range class id; an id
    outside the range gives the all-zero row, whose argmax is 0. *)
Lemma argmax_one_hot (k : Z) (C : nat) :
  (0 < C)%nat ->
  argmax (one_hot k C)
  = Ok (if ((0 <=? k)%Z && (k <? Z.of_nat C)%Z)%bool then Z.to_nat k else 0%nat).
Proof.
  intros HC. destruct C as [|C]; [lia|]. unfold one_hot. cbn [seq map argmax].
  f_equal. destruct (Z.eqb_spec (Z.of_nat 0) k) as [E|E].
  - rewrite argmax_from_no_greater by apply one_hot_tail_le.
    subst k. reflexivity.
  - rewrite argmax_from_one_hot.
    destruct (Z.leb_spec (Z.of_nat 1) k), (Z.ltb_spec k (Z.of_nat (1 + C)));
      destruct (Z.leb_spec 0 k), (Z.ltb_spec k (Z.of_nat (S C)));
      simpl; try reflexivity; lia.
Qed.

Lemma msk_loss_elem_one_hot (p : vec) (z : Z) (C : nat) h :
  msk_loss_elem p (one_hot z C) = Ok h ->
  exists pred_cls,
    argmax p = Ok pred_cls /\ h = regression_weight_factor C pred_cls z.
Proof.
  unfold msk_loss_elem. destruct (argmax p) as [pc|] eqn:Ep; cbn [bind]; [|discriminate].
  destruct (Nat.eq_dec C 0) as [->|HC]; [cbn; discriminate|].
  rewrite argmax_one_hot by lia. cbn [bind]. intros H. inversion H; subst h; clear H.
  exists pc. split; [reflexivity|]. unfold regression_weight_factor.
  destruct (Z.leb_spec 0 z), (Z.ltb_spec z (Z.of_nat C)); cbn [andb].
  - destruct (Nat.eqb_spec pc (Z.to_nat z)), (Z.eqb_spec (Z.of_nat pc) z);
      destruct (Nat.eqb_spec (Z.to_nat z) 0), (Z.ltb_spec 0 z);
      simpl; try reflexivity; exfalso; lia.
  - rewrite Nat.eqb_refl, andb_false_r.
    destruct (Z.of_nat pc =? z)%Z, (0 <? z)%Z; reflexivity.
  - rewrite Nat.eqb_refl, andb_false_r.
    destruct (Z.eqb_spec (Z.of_nat pc) z), (Z.ltb_spec 0 z);
      simpl; try reflexivity; exfalso; lia.
  - lia.
Qed.

(** X17 (utils.py, targets_multi_output; model.py, PFNetDense.train_step):
    with targets built by targets_multi_output, train_step leaves the cls
    and charge sample weights as they are and multiplies the pt, eta,
    sin_phi, cos_phi and energy weights of a slot whose target class id is
    the integer z by 1 if 0 < z < num_output_classes and the argmax of the
    predicted cls row is z, and by 0 otherwise: targets of class 0,
    misclassified elements and class ids outside the range carry no
    regression loss. *)
Theorem train_step_masks_regression_weights
  (C : nat) (X y X' : tensor3) (w w' : mat) (yt y_pred : Heads)
  (sw sw' : SampleWeights) :
  targets_multi_output C X y w = Ok (X', yt, w') ->
  train_step_sample_weights y_pred yt sw = Ok sw' ->
  w_cls sw' = w_cls sw /\ w_charge sw' = w_charge sw /\
  forall b i p row z,
    slot (cls y_pred) b i = Some p -> slot y b i = Some row ->
    nth 0 row 0 = IZR z ->
    exists pred_cls,
      argmax p = Ok pred_cls /\
      weight_scaled (w_pt sw) (w_pt sw') b i (regression_weight_factor C pred_cls z) /\
      weight_scaled (w_eta sw) (w_eta sw') b i (regression_weight_factor C pred_cls z) /\
      weight_scaled (w_sin_phi sw) (w_sin_phi sw') b i
        (regression_weight_factor C pred_cls z) /\
      weight_scaled (w_cos_phi sw) (w_cos_phi sw') b i
        (regression_weight_factor C pred_cls z) /\
      weight_scaled (w_energy sw) (w_energy sw') b i
        (regression_weight_factor C pred_cls z).
Proof.
  unfold targets_multi_output, train_step_sample_weights, train_step_msk_loss.
  intros Ht Hs.
  destruct (mapM (mapM (target_class_elem C)) y) as [ycls|] eqn:Ey;
    cbn [bind] in Ht; [|discriminate].
  inversion Ht; subst X' yt w'; clear Ht. cbn [cls] in Hs.
  destruct (mapM _ (map2 (map2 pair) (cls y_pred) ycls)) as [msk|] eqn:Em;
    cbn [bind] in Hs; [|discriminate].
  inversion Hs; subst sw'; clear Hs.
  cbn [w_cls w_charge w_pt w_eta w_sin_phi w_cos_phi w_energy].
  split; [reflexivity|]. split; [reflexivity|].
  intros b i p row z Hp Hrow Hz.
  pose proof (slot_mapM _ _ b i Ey) as Hy. rewrite Hrow in Hy.
  destruct (slot_mapM_ok _ _ b i Ey Hrow) as (oh & Hoh). rewrite Hoh in Hy.
  unfold target_class_elem in Hoh.
  destruct (length row <? 1)%nat; [discriminate|].
  inversion Hoh; subst oh; clear Hoh. rewrite Hz, trunc_IZR in Hy.
  pose proof (slot_mapM _ _ b i Em) as Hm.
  rewrite slot_map2, Hp, Hy in Hm.
  assert (Hpair : slot (map2 (map2 pair) (cls y_pred) ycls) b i
                  = Some (p, one_hot z C)) by (now rewrite slot_map2, Hp, Hy).
  destruct (slot_mapM_ok _ _ b i Em Hpair) as (h & Hh).
  cbn [fst snd] in Hh, Hm. rewrite Hh in Hm.
  destruct (msk_loss_elem_one_hot _ _ _ Hh) as (pc & Hpc & ->).
  exists pc. split; [exact Hpc|].
  unfold weight_scaled.
  repeat split; intros wv Hw; now rewrite slot_map2, Hw, Hm.
Qed.

Lemma train_step_masks_regression_weights_witness :
  exists yt sw',
    targets_multi_output 2 [[[1]]] [[[1; 0; 0; 0; 0; 0; 0]]] [[1]]
    = Ok ([[[1]]], yt, [[1]]) /\
    train_step_sample_weights y_pred_example yt sw_example = Ok sw' /\
    w_cls sw' = w_cls sw_example /\ w_charge sw' = w_charge sw_example /\
    weight_scaled (w_energy sw_example) (w_energy sw') 0 0
      (regression_weight_factor 2 1 1).
Proof.
  assert (Ht : targets_multi_output 2 [[[1]]] [[[1; 0; 0; 0; 0; 0; 0]]] [[1]]
               = Ok ([[[1]]],
                     {| cls := [[one_hot 1 2]]; charge := [[[0]]]; pt := [[[0]]];
                        eta := [[[0]]]; sin_phi := [[[0]]]; cos_phi := [[[0]]];
                        energy := [[[0]]] |},
                     [[1]])).
  { unfold targets_multi_output, target_class_elem.
    cbn [mapM length Nat.ltb Nat.leb bind nth slice_last map skipn firstn].
    now rewrite (trunc_IZR 1). }
  assert (Ha : argmax [0.2; 0.8] = Ok 1%nat).
  { cbn [argmax argmax_from]. decide_reals. reflexivity. }
  assert (Hs : exists sw',
             train_step_sample_weights y_pred_example
               {| cls := [[one_hot 1 2]]; charge := [[[0]]]; pt := [[[0]]];
                  eta := [[[0]]]; sin_phi := [[[0]]]; cos_phi := [[[0]]];
                  energy := [[[0]]] |} sw_example = Ok sw').
  { unfold train_step_sample_weights, train_step_msk_loss, msk_loss_elem.
    cbn [cls y_pred_example map2 mapM fst snd]. rewrite Ha.
    rewrite argmax_one_hot by lia. cbn [bind]. eexists. reflexivity. }
  destruct Hs as (sw' & Hs).
  eexists. exists sw'. split; [exact Ht|]. split; [exact Hs|].
  destruct (@train_step_masks_regression_weights 2 _ _ _ _ _ _ _ _ _ Ht Hs)
    as (H1 & H2 & H3).
  split; [exact H1|]. split; [exact H2|].
  destruct (H3 0%nat 0%nat [0.2; 0.8] [1; 0; 0; 0; 0; 0; 0] 1%Z eq_refl eq_refl eq_refl)
    as (pc & Hpc & _ & _ & _ & _ & He).
  rewrite Ha in Hpc. inversion Hpc; subst pc. exact He.
Defined.

(** ** Sample weights of the dataset *)

Lemma element_mask_nth X m i row :
  element_mask X = Ok m -> nth_error X i = Some row ->
  nth_error m i
  = Some (bool_to_R (if Req_dec_T (nth 0 row 0) 0 then false else true)).
Proof.
  unfold element_mask. intros Hm Hrow.
  rewrite (mapM_nth_error _ _ i Hm), Hrow.
  destruct (mapM_nth_error_ok _ _ i Hm Hrow) as (v & Hv). rewrite Hv.
  destruct (length row <? 1)%nat; [discriminate|]. now inversion Hv.
Qed.

(** X18 (utils.py, get_weights_func, compute_weights_invsqrt,
    compute_weights_none): only the samplings "inverse_sqrt" and "none" give
    a weight function; it returns X and y unchanged and one weight per
    element, which is 0 for a padded element (X[i][0] = 0) and otherwise
    len(w) / sqrt(w[i]) for "inverse_sqrt" and 1 for "none". *)
Theorem get_weights_func_masks_padding
  (sampling : String.string) (f : WeightFunc) (X y X' y' : mat) (w wn : vec) :
  get_weights_func sampling = inr f ->
  f X y w = Ok (X', y', wn) ->
  length X = length w ->
  (sampling = "inverse_sqrt"%string \/ sampling = "none"%string) /\
  X' = X /\ y' = y /\ length wn = length w /\
  forall i row wi,
    nth_error X i = Some row -> nth_error w i = Some wi ->
    nth_error wn i
    = Some (if Req_dec_T (nth 0 row 0) 0 then 0
            else if String.eqb sampling "inverse_sqrt"
                 then INR (length w) / sqrt wi else 1).
Proof.
  unfold get_weights_func. intros Hf Hcall Hlen.
  destruct (String.eqb_spec sampling "inverse_sqrt") as [E1|N1].
  - inversion Hf; subst f; clear Hf. split; [now left|].
    unfold compute_weights_invsqrt in Hcall.
    destruct (element_mask X) as [m|] eqn:Em; cbn [bind] in Hcall; [|discriminate].
    inversion Hcall; subst X' y' wn; clear Hcall.
    pose proof (mapM_length _ _ Em) as Lm.
    split; [reflexivity|]. split; [reflexivity|].
    split; [rewrite map2_length, length_map; lia|].
    intros i row wi Hrow Hwi.
    rewrite nth_error_map2, nth_error_map, Hwi, (@element_mask_nth _ _ _ _ Em Hrow).
    cbn [option_map]. f_equal.
    destruct (Req_dec_T (nth 0 row 0) 0); cbn [bool_to_R]; lra.
  - destruct (String.eqb_spec sampling "none") as [E2|N2]; [|discriminate].
    inversion Hf; subst f; clear Hf. split; [now right|].
    unfold compute_weights_none in Hcall.
    destruct (element_mask X) as [m|] eqn:Em; cbn [bind] in Hcall; [|discriminate].
    inversion Hcall; subst X' y' wn; clear Hcall.
    pose proof (mapM_length _ _ Em) as Lm.
    split; [reflexivity|]. split; [reflexivity|].
    split; [rewrite map2_length, length_map; lia|].
    intros i row wi Hrow Hwi.
    rewrite nth_error_map2, nth_error_map, Hwi, (@element_mask_nth _ _ _ _ Em Hrow).
    cbn [option_map]. f_equal.
    destruct (Req_dec_T (nth 0 row 0) 0); cbn [bool_to_R]; lra.
Qed.

Lemma get_weights_func_masks_padding_witness :
  exists wn,
    get_weights_func "inverse_sqrt" = inr compute_weights_invsqrt /\
    compute_weights_invsqrt [[1; 5]; [0; 0]] [[1]; [0]] [4; 4]
    = Ok ([[1; 5]; [0; 0]], [[1]; [0]], wn) /\
    length wn = 2%nat /\
    forall i row wi,
      nth_error [[1; 5]; [0; 0]] i = Some row -> nth_error [4; 4] i = Some wi ->
      nth_error wn i
      = Some (if Req_dec_T (nth 0 row 0) 0 then 0
              else if String.eqb "inverse_sqrt" "inverse_sqrt"
                   then INR (length [4; 4]) / sqrt wi else 1).
Proof.
  eexists. split; [reflexivity|]. split; [reflexivity|].
  destruct (@get_weights_func_masks_padding "inverse_sqrt" compute_weights_invsqrt
              [[1; 5]; [0; 0]] [[1]; [0]] _ _ [4; 4] _ eq_refl eq_refl eq_refl)
    as (_ & _ & _ & H1 & H2).
  split; [exact H1 | exact H2].
Defined.

(** ** Loss coefficients of a training phase *)

Lemma config_get_set_same k v d : config_get k (config_set k v d) = Some v.
Proof.
  induction d as [|[k' v'] d IH]; simpl.
  - now rewrite String.eqb_refl.
  - destruct (String.eqb k' k) eqn:E; simpl; rewrite E; auto.
Qed.

Lemma config_get_set_other k k' v d :
  k <> k' -> config_get k' (config_set k v d) = config_get k' d.
Proof.
  intros Hk. induction d as [|[k0 v0] d IH]; simpl.
  - destruct (String.eqb_spec k k'); [contradiction | reflexivity].
  - destruct (String.eqb_spec k0 k) as [->|N]; simpl.
    + destruct (String.eqb_spec k k'); [contradiction | reflexivity].
    + now rewrite IH.
Qed.

Ltac config_lookup :=
  repeat first
    [ rewrite config_get_set_same
    | rewrite config_get_set_other by (intros E; discriminate E) ].

(** X19 (pipeline.py, train and find_lr): the loss weights compiled into
    the model.  In the phase "classification" the weights of pt, eta,
    sin_phi, cos_phi and energy are 0 and those of cls and charge are the
    configured coefficients; in the phase "regression" the weights of cls
    and charge are 0 and the five others are the configured ones; in any
    other phase all seven are the configured ones.  A coefficient that the
    phase sets to 0 need not be present in the configuration. *)
Theorem loss_weights_by_phase
  (trainable : String.string) (dataset : ConfigSection) :
  let coef k := config_get k dataset in
  let compiled := loss_weights (zero_frozen_loss_coefs trainable dataset) in
  (trainable = "classification"%string ->
   forall c q, coef "classification_loss_coef"%string = Some c ->
               coef "charge_loss_coef"%string = Some q ->
     compiled = Some {| lw_cls := c; lw_charge := q; lw_pt := 0; lw_eta := 0;
                        lw_sin_phi := 0; lw_cos_phi := 0; lw_energy := 0 |}) /\
  (trainable = "regression"%string ->
   forall p e s co en,
     coef "pt_loss_coef"%string = Some p -> coef "eta_loss_coef"%string = Some e ->
     coef "sin_phi_loss_coef"%string = Some s ->
     coef "cos_phi_loss_coef"%string = Some co ->
     coef "energy_loss_coef"%string = Some en ->
     compiled = Some {| lw_cls := 0; lw_charge := 0; lw_pt := p; lw_eta := e;
                        lw_sin_phi := s; lw_cos_phi := co; lw_energy := en |}) /\
  (trainable <> "classification"%string -> trainable <> "regression"%string ->
   compiled = loss_weights dataset).
Proof.
  cbv zeta. unfold zero_frozen_loss_coefs. repeat split.
  - intros -> c q Hc Hq. cbn [String.eqb Ascii.eqb Bool.eqb].
    unfold loss_weights. config_lookup. now rewrite Hc, Hq.
  - intros -> p e s co en Hp He Hs Hco Hen. cbn [String.eqb Ascii.eqb Bool.eqb].
    unfold loss_weights. config_lookup. now rewrite Hp, He, Hs, Hco, Hen.
  - intros N1 N2.
    destruct (String.eqb_spec trainable "classification"); [contradiction|].
    destruct (String.eqb_spec trainable "regression"); [contradiction|].
    reflexivity.
Qed.

Lemma loss_weights_by_phase_witness :
  loss_weights
    (zero_frozen_loss_coefs "classification"
       [("classification_loss_coef"%string, 1); ("charge_loss_coef"%string, 0.1)])
  = Some {| lw_cls := 1; lw_charge := 0.1; lw_pt := 0; lw_eta := 0;
            lw_sin_phi := 0; lw_cos_phi := 0; lw_energy := 0 |}.
Proof.
  destruct (loss_weights_by_phase "classification"
              [("classification_loss_coef"%string, 1); ("charge_loss_coef"%string, 0.1)])
    as (H & _).
  apply H; reflexivity.
Defined.

(** ** Step counts and the learning-rate schedule *)

(** X20 (pipeline.py, train; utils.py, get_lr_schedule): the schedule is
    built for total_steps = n_epochs * n_train // batch steps, while fit
    runs n_epochs * (n_train // batch) optimizer steps, which is never
    more.  With the schedule "exponentialdecay" (staircase, decay_steps =
    total_steps) the learning rate therefore stays at its initial value on
    every step of the fit. *)
Theorem exponentialdecay_constant_during_fit
  (onecycle_cfg : option OneCycleConfig) (lr : R)
  (n_epochs n_train global_batch_size : nat) :
  (0 < global_batch_size)%nat ->
  let steps := total_steps n_epochs n_train global_batch_size in
  let fit_steps := (n_epochs * steps_per_epoch n_train global_batch_size)%nat in
  (fit_steps <= steps)%nat /\
  get_lr_schedule "exponentialdecay" onecycle_cfg lr steps
  = inr (ExponentialDecay lr steps 0.99 true, []) /\
  forall step, (step < fit_steps)%nat -> staircase_rate lr steps 0.99 step = lr.
Proof.
  intros Hb. cbv zeta. unfold total_steps, steps_per_epoch.
  assert (Hle : (n_epochs * (n_train / global_batch_size)
                 <= n_epochs * n_train / global_batch_size)%nat)
    by (apply Nat.Div0.div_mul_le).
  split; [exact Hle|]. split; [reflexivity|].
  intros step Hs. unfold staircase_rate.
  rewrite Nat.div_small by lia. simpl. lra.
Qed.

Lemma exponentialdecay_constant_during_fit_witness :
  (3 * steps_per_epoch 10 4 <= total_steps 3 10 4)%nat /\
  forall step, (step < 3 * steps_per_epoch 10 4)%nat ->
    staircase_rate 0.001 (total_steps 3 10 4) 0.99 step = 0.001.
Proof.
  destruct (@exponentialdecay_constant_during_fit None 0.001 3 10 4) as (H1 & _ & H3).
  - lia.
  - split; [exact H1 | exact H3].
Defined.

(** ** Construction of the feed-forward stacks *)

Lemma format_nat_inj n m : format_nat n = format_nat m -> n = m.
Proof.
  unfold format_nat. intros H.
  apply (f_equal DecimalString.NilEmpty.uint_of_string) in H.
  rewrite !DecimalString.NilEmpty.usu in H. inversion H as [H'].
  apply (f_equal Nat.of_uint) in H'.
  now rewrite !DecimalNat.Unsigned.of_to in H'.
Qed.

Lemma append_inj_r (p s1 s2 : String.string) :
  String.append p s1 = String.append p s2 -> s1 = s2.
Proof.
  induction p as [|c p IH]; simpl; intros H; [exact H|].
  inversion H. auto.
Qed.

Lemma dense_name_inj name i j : dense_name name i = dense_name name j -> i = j.
Proof.
  unfold dense_name. intros H.
  now apply append_inj_r, append_inj_r, format_nat_inj in H.
Qed.

Lemma NoDup_map_inj {A B : Type} (f : A -> B) (l : list A) :
  (forall a b, f a = f b -> a = b) -> NoDup l -> NoDup (map f l).
Proof.
  intros Hf Hl. induction Hl as [|a l Ha _ IH]; simpl; constructor; [|exact IH].
  intros Hin. apply in_map_iff in Hin. destruct Hin as (b & Hb & Hin).
  apply Hf in Hb. now subst b.
Qed.

Lemma dense_layers_app {A : Type} (l1 l2 : list (LayerConfig A)) :
  dense_layers (l1 ++ l2) = dense_layers l1 ++ dense_layers l2.
Proof. unfold dense_layers. apply flat_map_app. Qed.

Lemma dropout_count_app {A : Type} (l1 l2 : list (LayerConfig A)) :
  dropout_count (l1 ++ l2) = (dropout_count l1 + dropout_count l2)%nat.
Proof. unfold dropout_count. now rewrite filter_app, length_app. Qed.

Lemma ffn_hidden_layers_dense {A : Type} name (act : A) dd dropout n :
  forall i dff,
  dense_layers (ffn_hidden_layers name act dd dropout n i dff)
  = map (fun k => ((if dd then dff / 2 ^ k else dff)%nat, dense_name name (i + k)))
      (seq 0 n).
Proof.
  induction n as [|n IH]; intros i dff; [reflexivity|].
  cbn [ffn_hidden_layers seq map].
  change (?a :: ?l ++ ?r) with ((a :: l) ++ r).
  rewrite dense_layers_app, IH. rewrite <- seq_shift, map_map.
  replace (dense_layers (DenseConfig dff (Some act) (dense_name name i)
                         :: (if Rlt_dec 0 dropout then [DropoutConfig dropout] else [])))
    with [(dff, dense_name name i)]
    by (destruct (Rlt_dec 0 dropout); reflexivity).
  cbn [app]. f_equal.
  - rewrite Nat.add_0_r. destruct dd; [|reflexivity].
    now rewrite Nat.pow_0_r, Nat.div_1_r.
  - apply map_ext. intros k. rewrite Nat.add_succ_comm. f_equal.
    destruct dd; [|reflexivity].
    rewrite Nat.Div0.div_div. f_equal.
Qed.

Lemma ffn_hidden_layers_dropout {A : Type} name (act : A) dd dropout n :
  forall i dff,
  dropout_count (ffn_hidden_layers name act dd dropout n i dff)
  = if Rlt_dec 0 dropout then n else 0%nat.
Proof.
  induction n as [|n IH]; intros i dff.
  - simpl. now destruct (Rlt_dec 0 dropout).
  - cbn [ffn_hidden_layers].
    change (?a :: ?l ++ ?r) with ((a :: l) ++ r).
    rewrite dropout_count_app, IH.
    destruct (Rlt_dec 0 dropout); reflexivity.
Qed.

(** X21 (model.py, point_wise_feed_forward_network): with num_layers = 0
    the call raises (the name of the last layer uses the unbound loop
    variable).  Otherwise it returns num_layers hidden Dense layers
    followed by one Dense layer of d_model units; hidden layer k has dff
    units, or dff // 2^k with dim_decrease; layer k is named
    name_dense_k, so the num_layers + 1 names are pairwise different; and
    one Dropout layer follows each hidden layer exactly when dropout > 0. *)
Theorem point_wise_feed_forward_network_layers {A : Type}
  (d_model dff : nat) (name : String.string) (num_layers : nat) (activation : A)
  (dim_decrease : bool) (dropout : R) :
  match num_layers with
  | O =>
      point_wise_feed_forward_network d_model dff name num_layers activation
        dim_decrease dropout = inl UnboundLocalError
  | S _ =>
      exists ls,
        point_wise_feed_forward_network d_model dff name num_layers activation
          dim_decrease dropout = inr ls /\
        dense_layers ls
        = map (fun k => ((if dim_decrease then dff / 2 ^ k else dff)%nat,
                         dense_name name k)) (seq 0 num_layers)
          ++ [(d_model, dense_name name num_layers)] /\
        NoDup (map snd (dense_layers ls)) /\
        dropout_count ls = if Rlt_dec 0 dropout then num_layers else 0%nat
  end.
Proof.
  destruct num_layers as [|n]; [reflexivity|].
  eexists. split; [reflexivity|].
  assert (Hd : dense_layers
                 (ffn_hidden_layers name activation dim_decrease dropout (S n) 0 dff
                  ++ [DenseConfig d_model None (dense_name name (n + 1))])
               = map (fun k => ((if dim_decrease then dff / 2 ^ k else dff)%nat,
                                dense_name name k)) (seq 0 (S n))
                 ++ [(d_model, dense_name name (S n))]).
  { rewrite dense_layers_app, ffn_hidden_layers_dense.
    replace (n + 1)%nat with (S n) by lia. reflexivity. }
  split; [exact Hd|]. split.
  - rewrite Hd, map_app, map_map. cbn [map snd].
    replace (map (fun k => dense_name name k) (seq 0 (S n)) ++ [dense_name name (S n)])
      with (map (dense_name name) (seq 0 (S (S n))))
      by (rewrite (seq_S (S n)), map_app; reflexivity).
    apply NoDup_map_inj; [|apply seq_NoDup].
    intros i j. apply dense_name_inj.
  - rewrite dropout_count_app, ffn_hidden_layers_dropout.
    cbn. destruct (Rlt_dec 0 dropout); lia.
Qed.

(** ** Trainable flags in general *)

Lemma Layer_ind_nested (P : Layer -> Prop) :
  (forall n t w s, Forall P s -> P (mkLayer n t w s)) -> forall l, P l.
Proof.
  intros H. fix IH 1. intros [n t w s]. apply H.
  induction s as [|l s IHs]; constructor; [apply IH | exact IHs].
Qed.

Lemma set_trainable_twice v v' l :
  set_trainable v (set_trainable v' l) = set_trainable v l.
Proof.
  induction l as [n t w s IH] using Layer_ind_nested. simpl. f_equal.
  rewrite map_map. induction IH as [|l s Hl _ IHs]; simpl; [reflexivity|].
  now rewrite Hl, IHs.
Qed.

Lemma layer_name_set_trainable v l : layer_name (set_trainable v l) = layer_name l.
Proof. now destruct l. Qed.

Lemma trainable_variables_frozen l : trainable_variables (set_trainable false l) = [].
Proof. now destruct l. Qed.

Lemma enable_layer_found name (pre post : list Layer) l :
  Forall (fun d => layer_name d <> name) pre -> layer_name l = name ->
  enable_layer name (pre ++ l :: post) = inr (pre ++ set_trainable true l :: post).
Proof.
  intros Hpre Hl. induction Hpre as [|d pre Hd _ IH]; simpl.
  - rewrite Hl, String.eqb_refl. reflexivity.
  - destruct (String.eqb_spec (layer_name d) name); [contradiction|].
    now rewrite IH.
Qed.

Lemma set_named_fold n t w (all : list String.string) :
  forall (todo done : list Layer),
  NoDup (map layer_name (done ++ todo)) ->
  Forall (fun l => In (layer_name l) all) todo ->
  fold_left (set_named_step all) (map layer_name todo)
    (inr (mkLayer n t w (map (set_trainable true) done
                          ++ map (set_trainable false) todo)))
  = inr (mkLayer n t w (map (set_trainable true) (done ++ todo))).
Proof.
  induction todo as [|l todo IH]; intros done Hnd Hall.
  - simpl. now rewrite !app_nil_r.
  - inversion Hall as [|? ? Hin Hall']; subst.
    cbn [map fold_left]. unfold set_named_step at 2.
    assert (Hex : existsb (String.eqb (layer_name l)) all = true).
    { apply existsb_exists. exists (layer_name l). split; [exact Hin|].
      apply String.eqb_refl. }
    rewrite Hex. cbn [layers].
    rewrite enable_layer_found.
    + cbn [with_layers]. rewrite set_trainable_twice.
      replace (map (set_trainable true) done
               ++ set_trainable true l :: map (set_trainable false) todo)
        with (map (set_trainable true) (done ++ [l])
              ++ map (set_trainable false) todo)
        by (rewrite map_app, <- app_assoc; reflexivity).
      rewrite IH.
      * now rewrite <- app_assoc.
      * now rewrite <- app_assoc.
      * exact Hall'.
    + apply Forall_map, Forall_forall. intros d Hd.
      rewrite layer_name_set_trainable. intros E.
      rewrite map_app in Hnd. cbn [map] in Hnd.
      apply NoDup_remove_2 in Hnd. apply Hnd, in_or_app. left.
      rewrite <- E. now apply in_map.
    + apply layer_name_set_trainable.
Qed.

(** X22 (model.py, OutputDecoding.set_trainable_named): when the sublayers
    of the decoder have pairwise different names, the call never raises
    and has the effect of self.trainable = True on the whole decoder, for
    every list of names passed in: each sublayer and everything nested in
    it ends up trainable. *)
Theorem OutputDecoding_set_trainable_named_enables_all
  (self : Layer) (layer_names : list String.string) :
  NoDup (map layer_name (layers self)) ->
  OutputDecoding_set_trainable_named self layer_names = inr (set_trainable true self).
Proof.
  intros Hnd. destruct self as [n t w s]. cbn [layers] in Hnd.
  unfold OutputDecoding_set_trainable_named.
  cbn [set_trainable layers with_layers].
  assert (E1 : map (set_trainable false) (map (set_trainable true) s)
               = map (set_trainable false) s).
  { rewrite map_map. apply map_ext. intros; apply set_trainable_twice. }
  assert (E2 : map layer_name (map (set_trainable false) s) = map layer_name s).
  { rewrite map_map. apply map_ext. intros; apply layer_name_set_trainable. }
  rewrite E1, E2.
  apply (@set_named_fold n true w (map layer_name s) s []).
  - exact Hnd.
  - apply Forall_forall. intros l Hl. now apply in_map.
Qed.

Ltac distinct_names :=
  repeat (constructor;
          [simpl; intros H;
           repeat (destruct H as [H|H]; [discriminate H|]); exact H|]);
  constructor.

Lemma OutputDecoding_set_trainable_named_enables_all_witness :
  OutputDecoding_set_trainable_named output_decoding_layers ["ffn_pt"%string]
  = inr (set_trainable true output_decoding_layers).
Proof.
  apply OutputDecoding_set_trainable_named_enables_all.
  cbn [layers output_decoding_layers map layer_name ffn_layer]. distinct_names.
Defined.

(** X23 (model.py, PFNetDense.set_trainable_named): when the decoder's
    sublayers have pairwise different names, the call freezes the encoder
    and every graph layer and makes the whole decoder trainable, so the
    trainable variables of the model are exactly the weights of the
    decoder, whatever names were passed in. *)
Theorem PFNetDense_set_trainable_named_trains_decoder_only
  (self : PFNetLayers) (layer_names : list String.string) :
  NoDup (map layer_name (layers (pf_output_dec self))) ->
  exists self',
    PFNetDense_set_trainable_named self layer_names = inr self' /\
    pf_graph_layers self' = map (set_trainable false) (pf_graph_layers self) /\
    pf_output_dec self' = set_trainable true (pf_output_dec self) /\
    PFNetDense_trainable_variables self'
    = trainable_variables (set_trainable true (pf_output_dec self)).
Proof.
  intros Hnd. unfold PFNetDense_set_trainable_named.
  rewrite set_trainable_twice.
  assert (Hdec : OutputDecoding_set_trainable_named
                   (set_trainable false (pf_output_dec self)) layer_names
                 = inr (set_trainable true (set_trainable false (pf_output_dec self)))).
  { destruct (pf_output_dec self) as [n t w s]. cbn [layers] in Hnd.
    unfold OutputDecoding_set_trainable_named.
    cbn [set_trainable layers with_layers].
    assert (E1 : map (set_trainable false)
                   (map (set_trainable true) (map (set_trainable false) s))
                 = map (set_trainable false) s).
    { rewrite !map_map. apply map_ext. intros. now rewrite !set_trainable_twice. }
    assert (E2 : map layer_name (map (set_trainable false) s) = map layer_name s).
    { rewrite map_map. apply map_ext. intros; apply layer_name_set_trainable. }
    assert (E3 : map (set_trainable true) (map (set_trainable false) s)
                 = map (set_trainable true) s).
    { rewrite map_map. apply map_ext. intros; apply set_trainable_twice. }
    rewrite E1, E2, E3.
    apply (@set_named_fold n true w (map layer_name s) s []).
    - exact Hnd.
    - apply Forall_forall. intros l Hl. now apply in_map. }
  rewrite Hdec.
  eexists. split; [reflexivity|].
  cbn [pf_graph_layers pf_output_dec]. rewrite map_map.
  rewrite (map_ext (fun x => set_trainable false (set_trainable true x))
             (set_trainable false)) by (intros; apply set_trainable_twice).
  rewrite set_trainable_twice.
  split; [reflexivity|]. split; [reflexivity|].
  unfold PFNetDense_trainable_variables. cbn [pf_trainable pf_graph_layers pf_output_dec].
  rewrite flat_map_concat_map, map_map.
  rewrite (map_ext (fun x => trainable_variables (set_trainable false x))
             (fun _ => [])) by (intros; apply trainable_variables_frozen).
  assert (Hnil : forall (l : list Layer), concat (map (fun _ => @nil String.string) l) = []).
  { induction l; simpl; auto. }
  now rewrite Hnil.
Qed.

Lemma PFNetDense_set_trainable_named_trains_decoder_only_witness :
  exists self',
    PFNetDense_set_trainable_named pfnet_layers ["ffn_pt"%string] = inr self' /\
    pf_graph_layers self' = map (set_trainable false) (pf_graph_layers pfnet_layers) /\
    pf_output_dec self' = set_trainable true (pf_output_dec pfnet_layers) /\
    PFNetDense_trainable_variables self'
    = trainable_variables (set_trainable true (pf_output_dec pfnet_layers)).
Proof.
  apply PFNetDense_set_trainable_named_trains_decoder_only.
  cbn [layers pf_output_dec pfnet_layers output_decoding_layers map layer_name ffn_layer].
  distinct_names.
Defined.

(** ** GHConvDense on regular and on multi-channel affinities *)

Lemma eqb_ne a b : a <> b -> (a =? b)%nat = false /\ (b =? a)%nat = false.
Proof. intros H. split; apply Nat.eqb_neq; auto. Qed.

(** X24 (model.py, GHConvDense.call): with more than one event, more than
    one bin and more than one element per bin, on binned features
    (B, n_bins, bin_size, hidden_dim), affinities
    (B, n_bins, bin_size, bin_size, 1) and mask (B, n_bins, bin_size, 1),
    the call returns the shape (B, n_bins, bin_size, output_dim), with or
    without degree normalisation. *)
Theorem GHConvDense_call_shape_regular (self : GHConvDense) (B nb n : nat) :
  (1 < B)%nat -> (1 < nb)%nat -> (1 < n)%nat ->
  GHConvDense_call_shape self
    [B; nb; n; hidden_dim self]%nat [B; nb; n; n; 1]%nat [B; nb; n; 1]%nat
  = Ok [B; nb; n; output_dim self]%nat.
Proof.
  intros HB Hnb Hn.
  destruct (@eqb_ne B 1) as [E1 E4]; [lia|].
  destruct (@eqb_ne nb 1) as [E2 E5]; [lia|].
  destruct (@eqb_ne n 1) as [E3 E6]; [lia|].
  destruct self as [h o nd]. cbn [hidden_dim output_dim normalize_degrees].
  unfold GHConvDense_call_shape, squeeze, broadcast, matmul_shape, reduce_last,
    expand_last.
  cbn [hidden_dim output_dim normalize_degrees].
  destruct (Nat.eq_dec h 1) as [->|Hh]; [|destruct (eqb_ne Hh)];
    (destruct (Nat.eq_dec o 1) as [->|Ho]; [|destruct (eqb_ne Ho)]);
    destruct nd; shape_eval; reflexivity.
Qed.

Lemma GHConvDense_call_shape_regular_witness :
  GHConvDense_call_shape
    {| hidden_dim := 3; output_dim := 4; normalize_degrees := true |}
    [5; 2; 3; 3]%nat [5; 2; 3; 3; 1]%nat [5; 2; 3; 1]%nat
  = Ok [5; 2; 3; 4]%nat.
Proof.
  apply (@GHConvDense_call_shape_regular
           {| hidden_dim := 3; output_dim := 4; normalize_degrees := true |} 5 2 3);
    lia.
Defined.

(** X25 (model.py, GHConvDense.call): affinities with k > 1 channels, as a
    NodePairTrainableKernel with output_dim = k produces them, are not
    squeezed to rank 4, and the call raises on the incompatible shapes
    whenever k differs from bin_size and bin_size differs from n_bins. *)
Theorem GHConvDense_multichannel_kernel_raises
  (self : GHConvDense) (B nb n k : nat) :
  (1 < B)%nat -> (1 < nb)%nat -> (1 < n)%nat -> (1 < k)%nat ->
  k <> n -> nb <> n ->
  GHConvDense_call_shape self
    [B; nb; n; hidden_dim self]%nat [B; nb; n; n; k]%nat [B; nb; n; 1]%nat
  = Err IncompatibleShapes.
Proof.
  intros HB Hnb Hn Hk Hkn Hnbn.
  destruct (@eqb_ne B 1) as [E1 E4]; [lia|].
  destruct (@eqb_ne nb 1) as [E2 E5]; [lia|].
  destruct (@eqb_ne n 1) as [E3 E6]; [lia|].
  destruct (@eqb_ne k 1) as [E7 E8]; [lia|].
  destruct (eqb_ne Hkn) as [E9 E10].
  destruct (eqb_ne Hnbn) as [E11 E12].
  destruct self as [h o nd]. cbn [hidden_dim output_dim normalize_degrees].
  unfold GHConvDense_call_shape, squeeze, broadcast, matmul_shape, reduce_last,
    expand_last.
  cbn [hidden_dim output_dim normalize_degrees].
  destruct (Nat.eq_dec h 1) as [->|Hh]; [|destruct (eqb_ne Hh)];
    (destruct (Nat.eq_dec o 1) as [->|Ho]; [|destruct (eqb_ne Ho)]);
    destruct nd; shape_eval;
    repeat (match goal with
            | |- context [(?a =? ?b)%nat] => destruct (a =? b)%nat eqn:?
            end; shape_eval);
    reflexivity.
Qed.

Lemma GHConvDense_multichannel_kernel_raises_witness :
  GHConvDense_call_shape
    {| hidden_dim := 3; output_dim := 4; normalize_degrees := true |}
    [5; 2; 3; 3]%nat [5; 2; 3; 3; 7]%nat [5; 2; 3; 1]%nat
  = Err IncompatibleShapes.
Proof.
  apply (@GHConvDense_multichannel_kernel_raises
           {| hidden_dim := 3; output_dim := 4; normalize_degrees := true |} 5 2 3 7);
    lia.
Defined.
